(** * MovieZangTV: room lifecycle, vote recording and results aggregation

    A shallow embedding of the Convex backend functions of the repository
    ([convex/rooms.ts] and [convex/votes.ts]; they are the last section of
    [src/convex/presence.ts] and the first section of [src/unnamed/part_004]):
    [createRoom], [getRoomByCode], [getRoom], [joinRoom], [joinRoomByCode],
    [leaveRoom], the two [markVotingComplete], [resetVotingCompletion],
    [submitVote], [getResults] and [getDetailedResults]; then [getVotes]
    and [getVotingProgress] of [convex/votes.ts], [convex/votingMovies.ts]
    ([src/unnamed/part_003]), [convex/messages.ts] and the typing status of
    [convex/presence.ts] (the first sections of [src/convex/presence.ts]),
    [convex/voteReactions.ts] ([src/unnamed/part_001]) and the figures the
    hooks [useVotingCompletion], [useDetailedResults] and [useVoting]
    compute from the queries.

    Conventions of the embedding.
    - A table is the list of its documents in creation order; a document is
      its [_id] together with its fields.  [ctx.db.insert] appends under a
      fresh [_id]; [query(...).withIndex("by_room", ...)] is a [filter] that
      keeps creation order, [.first()] is [head], [.collect()] the whole list.
    - A handler is a function from the store to an outcome and a store: the
      store it returns holds the writes the handler issued through [ctx.db]
      before it returned or threw.  What the Convex runtime, which is not
      part of the repository, does with the writes of a mutation that
      throws is not modelled.
    - [Date.now()] is an argument [now] of the handler (milliseconds, an
      integer); the successive results of [Math.random()] are an argument
      [rnd] of [createRoom], idealised as exact rationals.
    - Integer-valued numbers (counters, timestamps, capacities) are [Z] or
      [nat]; the two score computations, which divide, are carried out in
      IEEE-754 binary64 as JavaScript does; so are the percentages of the
      progress figures.
    - The text of a chat message is the list of its UTF-16 code units, the
      unit of [String.prototype.length] and [trim]; the other strings are
      only compared and stay [string]. *)

From Stdlib Require Import ZArith QArith Qround Lqa Floats DecimalString.
From stdpp Require Import base list sorting gmap strings.

Local Open Scope Z_scope.

(** ** JavaScript numbers *)

Module JS.

(** The number an integer value is held as: the double nearest to it
    (the integer itself up to [2^53] in magnitude, which every counter of
    this file stays below). *)
Definition of_Z (z : Z) : float :=
  if z <? 0 then PrimFloat.opp (PrimFloat.of_uint63 (Uint63.of_Z (- z)))
  else PrimFloat.of_uint63 (Uint63.of_Z z).

(** [Math.round]: the integer closest to [x], ties towards [+∞], that is
    [floor (x + 1/2)] computed exactly on the mantissa and exponent of
    [x].  Zeros give [0]; so do [NaN] and the infinities, which no caller
    below produces (every division is guarded by a positive divisor). *)
Definition Math_round (x : float) : Z :=
  match Prim2SF x with
  | S754_finite s m e =>
      let n := if s then Z.neg m else Z.pos m in
      if 0 <=? e then n * 2 ^ e
      else (n + 2 ^ (- e - 1)) / 2 ^ (- e)
  | _ => 0
  end.

(** [Math.round((a / b) * 100)] on two integers. *)
Definition round_percent (a b : Z) : Z :=
  Math_round (PrimFloat.mul (PrimFloat.div (of_Z a) (of_Z b)) (of_Z 100)).

(** [n.toString()] for an integer [n]. *)
Definition toString (n : Z) : string := NilZero.string_of_int (Z.to_int n).

(** [Math.floor] on an exact rational. *)
Definition Math_floor (q : Q) : Z := Qfloor q.

End JS.

(** ** Data model ([convex/schema.ts]) *)

(** Document ids are opaque; the store hands them out in increasing order. *)
Abbreviation Id := nat (only parsing).

Inductive Status := active | completed | expired.
Inductive VoteType := like | dislike.

#[global] Instance Status_eq_dec : EqDecision Status.
Proof. solve_decision. Defined.
#[global] Instance VoteType_eq_dec : EqDecision VoteType.
Proof. solve_decision. Defined.

(** The string a template literal prints for a status. *)
Definition status_name (s : Status) : string :=
  match s with
  | active => "active"
  | completed => "completed"
  | expired => "expired"
  end.

(** A stored document: the [_id] the store gave it and its fields. *)
Record Doc (A : Type) := mkDoc { _id : Id; fields : A }.
Arguments mkDoc {A} _ _.
Arguments _id {A} _.
Arguments fields {A} _.

Record Room := mkRoom {
  code : string;
  category : string;
  hostId : string;
  status : Status;
  expiresAt : Z;
  maxParticipants : Z;
  createdAt : Z
}.

Record RoomParticipant := mkRoomParticipant {
  rp_roomId : Id;
  rp_participantId : string;
  joinedAt : Z;
  votingCompletedAt : option Z
}.

(** Of a movie only its identity matters to the functions modelled here. *)
Record Movie := mkMovie {
  tmdbId : Z;
  title : string
}.

Record Vote := mkVote {
  v_roomId : Id;
  v_movieId : Id;
  v_participantId : string;
  voteType : VoteType;
  votedAt : Z
}.

Abbreviation Table A := (list (Doc A)) (only parsing).

Record Db := mkDb {
  rooms : Table Room;
  roomParticipants : Table RoomParticipant;
  movies : Table Movie;
  votes : Table Vote;
  nextId : Id
}.

Definition empty_db : Db := mkDb [] [] [] [] 0%nat.

(** Field updates ([{ ...doc, field: value }] and the argument of [patch]). *)
Definition set_status (s : Status) (r : Room) : Room :=
  mkRoom (code r) (category r) (hostId r) s (expiresAt r) (maxParticipants r) (createdAt r).

Definition set_votingCompletedAt (t : option Z) (p : RoomParticipant) : RoomParticipant :=
  mkRoomParticipant (rp_roomId p) (rp_participantId p) (joinedAt p) t.

Definition set_vote (ty : VoteType) (t : Z) (v : Vote) : Vote :=
  mkVote (v_roomId v) (v_movieId v) (v_participantId v) ty t.

(** ** Tables *)

Section Tables.
Context {A : Type}.

(** [ctx.db.get(id)] *)
Definition tbl_get (id : Id) (t : Table A) : option (Doc A) :=
  head (filter (λ d, _id d = id) t).

(** the effect of [ctx.db.patch(id, ...)] on the table *)
Definition tbl_patch (id : Id) (f : A → A) (t : Table A) : Table A :=
  (λ d, if decide (_id d = id) then mkDoc (_id d) (f (fields d)) else d) <$> t.

(** the effect of [ctx.db.delete(id)] on the table *)
Definition tbl_delete (id : Id) (t : Table A) : Table A :=
  filter (λ d, _id d ≠ id) t.

(** the effect of [ctx.db.insert(table, a)] once the [_id] is chosen *)
Definition tbl_insert (id : Id) (a : A) (t : Table A) : Table A :=
  t ++ [mkDoc id a].

(** Every [_id] was handed out before [n], and only once. *)
Definition tbl_wf (n : Id) (t : Table A) : Prop :=
  NoDup (_id <$> t) ∧ ∀ d, d ∈ t → (_id d < n)%nat.
End Tables.

(** ** Handlers: a state and exception monad over the store *)

Definition Error := string.

Inductive Outcome (A : Type) :=
| Return (a : A)
| Throw (e : Error).
Arguments Return {A} _.
Arguments Throw {A} _.

Definition Handler (A : Type) := Db → Outcome A * Db.

Definition ret {A} (a : A) : Handler A := λ db, (Return a, db).
Definition throw {A} (e : Error) : Handler A := λ db, (Throw e, db).
Definition bind {A B} (m : Handler A) (k : A → Handler B) : Handler B :=
  λ db, match m db with
        | (Return a, db') => k a db'
        | (Throw e, db') => (Throw e, db')
        end.

Notation "'do' x <- m 'in' k" := (bind m (λ x, k))
  (at level 10, x name, m at level 100, k at level 200,
   format "'[v' 'do'  x  <-  m  'in'  '/' k ']'").

(** The outcome and the store a handler leaves. *)
Definition outcome {A} (h : Handler A) (db : Db) : Outcome A := fst (h db).
Definition store {A} (h : Handler A) (db : Db) : Db := snd (h db).

(** Reads. *)
Definition db_get_room (id : Id) : Handler (option (Doc Room)) :=
  λ db, (Return (tbl_get id (rooms db)), db).
Definition db_get_movie (id : Id) : Handler (option (Doc Movie)) :=
  λ db, (Return (tbl_get id (movies db)), db).

(** [query("rooms").withIndex("by_code", q => q.eq("code", c))] *)
Definition rooms_by_code (c : string) : Handler (list (Doc Room)) :=
  λ db, (Return (filter (λ r, code (fields r) = c) (rooms db)), db).
(** [query("roomParticipants").withIndex("by_room", q => q.eq("roomId", id))] *)
Definition participants_by_room (id : Id) : Handler (list (Doc RoomParticipant)) :=
  λ db, (Return (filter (λ p, rp_roomId (fields p) = id) (roomParticipants db)), db).
(** [query("votes").withIndex("by_room", q => q.eq("roomId", id))] *)
Definition votes_by_room (id : Id) : Handler (list (Doc Vote)) :=
  λ db, (Return (filter (λ v, v_roomId (fields v) = id) (votes db)), db).

(** Writes.  [patch] and [delete] throw on an [_id] the table does not hold. *)
Definition db_insert_room (r : Room) : Handler Id :=
  λ db, (Return (nextId db),
         mkDb (tbl_insert (nextId db) r (rooms db)) (roomParticipants db)
              (movies db) (votes db) (S (nextId db))).
Definition db_insert_participant (p : RoomParticipant) : Handler Id :=
  λ db, (Return (nextId db),
         mkDb (rooms db) (tbl_insert (nextId db) p (roomParticipants db))
              (movies db) (votes db) (S (nextId db))).
Definition db_insert_vote (v : Vote) : Handler Id :=
  λ db, (Return (nextId db),
         mkDb (rooms db) (roomParticipants db) (movies db)
              (tbl_insert (nextId db) v (votes db)) (S (nextId db))).

Definition db_patch_room (id : Id) (f : Room → Room) : Handler () :=
  λ db, match tbl_get id (rooms db) with
        | None => (Throw "Update on nonexistent document", db)
        | Some _ =>
            (Return (), mkDb (tbl_patch id f (rooms db)) (roomParticipants db)
                             (movies db) (votes db) (nextId db))
        end.
Definition db_patch_participant (id : Id) (f : RoomParticipant → RoomParticipant)
  : Handler () :=
  λ db, match tbl_get id (roomParticipants db) with
        | None => (Throw "Update on nonexistent document", db)
        | Some _ =>
            (Return (), mkDb (rooms db) (tbl_patch id f (roomParticipants db))
                             (movies db) (votes db) (nextId db))
        end.
Definition db_patch_vote (id : Id) (f : Vote → Vote) : Handler () :=
  λ db, match tbl_get id (votes db) with
        | None => (Throw "Update on nonexistent document", db)
        | Some _ =>
            (Return (), mkDb (rooms db) (roomParticipants db) (movies db)
                             (tbl_patch id f (votes db)) (nextId db))
        end.
Definition db_delete_participant (id : Id) : Handler () :=
  λ db, match tbl_get id (roomParticipants db) with
        | None => (Throw "Delete on nonexistent document", db)
        | Some _ =>
            (Return (), mkDb (rooms db) (tbl_delete id (roomParticipants db))
                             (movies db) (votes db) (nextId db))
        end.

(** Query combinators: [.filter(...)], [.first()]; [.collect()] is the list
    itself. *)
Definition filter_q {A} (P : A → Prop) `{!∀ x, Decision (P x)}
    (q : Handler (list A)) : Handler (list A) :=
  do l <- q in ret (filter P l).
Definition first {A} (q : Handler (list A)) : Handler (option A) :=
  do l <- q in ret (head l).

(** [Promise.all(xs.map(async x => ...))]: the bodies run in order. *)
Fixpoint mapM {A B} (f : A → Handler B) (l : list A) : Handler (list B) :=
  match l with
  | [] => ret []
  | x :: l' => do y <- f x in do ys <- mapM f l' in ret (y :: ys)
  end.

(** ** JavaScript objects and arrays *)

Section Obj.
Context {V : Type}.

(** An object used as a dictionary: its own keys in insertion order (the
    keys here are document ids, never array indices). *)
Definition Obj := list (Id * V).

(** [o[k]] *)
Definition obj_get (k : Id) (o : Obj) : option V :=
  snd <$> head (filter (λ kv, kv.1 = k) o).

(** [o[k] = v] *)
Definition obj_set (k : Id) (v : V) (o : Obj) : Obj :=
  match obj_get k o with
  | None => o ++ [(k, v)]
  | Some _ => (λ kv, if decide (kv.1 = k) then (k, v) else kv) <$> o
  end.

(** a mutation of the value stored under [k] *)
Definition obj_modify (k : Id) (f : V → V) (o : Obj) : Obj :=
  (λ kv, if decide (kv.1 = k) then (kv.1, f kv.2) else kv) <$> o.

(** [Object.values(o)] *)
Definition Object_values (o : Obj) : list V := snd <$> o.
End Obj.
Arguments Obj : clear implicits.

Section Sort.
Context {A : Type} (cmp : A → A → Z).

(** [xs.sort(cmp)]: the stable sort; [x] goes before the first [y] it is
    not greater than. *)
Fixpoint insert_by (x : A) (l : list A) : list A :=
  match l with
  | [] => [x]
  | y :: l' => if decide (cmp x y ≤ 0) then x :: l else y :: insert_by x l'
  end.

Definition Array_sort (l : list A) : list A := foldr insert_by [] l.
End Sort.

(** A number used as a condition: [undefined] and [0] are falsy. *)
Definition truthy (t : option Z) : bool :=
  match t with
  | None => false
  | Some t => bool_decide (t ≠ 0)
  end.

Record Success := mkSuccess { success : bool }.
Record RoomRef := mkRoomRef { roomId : Id; roomCode : string }.

(** ** [convex/rooms.ts] *)

Module Rooms.

(** [Math.floor(1000 + Math.random() * 9000)], for the draw [r]. *)
Definition roomCodeNumber (r : Q) : Z := JS.Math_floor (1000 + r * 9000)%Q.

Definition generateRoomCode (r : Q) : string := JS.toString (roomCodeNumber r).

(** The [while (attempts < 10)] loop of [createRoom]; [rnd k] is the result
    of the [k]-th call of [Math.random()] (the call before the loop is the
    [0]-th).  It yields the final [code] and [attempts]. *)
Fixpoint code_loop (fuel : nat) (rnd : nat → Q) (code : string) (attempts : nat)
  : Handler (string * nat) :=
  match fuel with
  | O => ret (code, attempts)
  | S fuel =>
      if decide (attempts < 10)%nat then
        do existingRoom <- first (rooms_by_code code) in
        match existingRoom with
        | None => ret (code, attempts)
        | Some _ =>
            code_loop fuel rnd (generateRoomCode (rnd (S attempts))) (S attempts)
        end
      else ret (code, attempts)
  end.

Definition createRoom (category hostId : string) (maxParticipants : option Z)
    (rnd : nat → Q) (now : Z) : Handler RoomRef :=
  do ca <- code_loop 10 rnd (generateRoomCode (rnd 0%nat)) 0%nat in
  let code := ca.1 in
  let attempts := ca.2 in
  if decide (attempts = 10%nat) then throw "Failed to generate unique room code"
  else
    let expiresAt := now + 24 * 60 * 60 * 1000 in
    do roomId <- db_insert_room
                   (mkRoom code category hostId active expiresAt
                           (default 10 maxParticipants) now) in
    do _ <- db_insert_participant (mkRoomParticipant roomId hostId now None) in
    ret (mkRoomRef roomId code).

(** The room a query returns: the stored one, or a copy whose status is
    overridden ([{ ...room, status: "expired" }]). *)
Definition with_computed_status (now : Z) (room : Doc Room) : Doc Room :=
  if decide (expiresAt (fields room) < now ∧ status (fields room) = active)
  then mkDoc (_id room) (set_status expired (fields room))
  else room.

Definition getRoomByCode (code : string) (now : Z) : Handler (option (Doc Room)) :=
  do room <- first (rooms_by_code code) in
  match room with
  | None => ret None
  | Some room => ret (Some (with_computed_status now room))
  end.

Definition getRoom (roomId : Id) (now : Z) : Handler (option (Doc Room)) :=
  do room <- db_get_room roomId in
  match room with
  | None => ret None
  | Some room => ret (Some (with_computed_status now room))
  end.

Definition joinRoom (roomId : Id) (participantId : string) (now : Z)
  : Handler Success :=
  do room <- db_get_room roomId in
  match room with
  | None => throw "Room not found"
  | Some room =>
      if decide (status (fields room) ≠ active)
      then throw ("Room is " +:+ status_name (status (fields room)))
      else if decide (expiresAt (fields room) < now) then
        do _ <- db_patch_room (_id room) (set_status expired) in
        throw "Room has expired"
      else
        do existingParticipant <-
          first (filter_q (λ p, rp_participantId (fields p) = participantId)
                          (participants_by_room roomId)) in
        match existingParticipant with
        | Some _ => throw "Already joined this room"
        | None =>
            do participants <- participants_by_room roomId in
            let participantCount := Z.of_nat (length participants) in
            if decide (participantCount >= maxParticipants (fields room))
            then throw "Room is full"
            else
              do _ <- db_insert_participant
                        (mkRoomParticipant roomId participantId now None) in
              ret (mkSuccess true)
        end
  end.

Definition joinRoomByCode (roomCode : string) (participantId : string) (now : Z)
  : Handler RoomRef :=
  do room <- first (rooms_by_code roomCode) in
  match room with
  | None => throw "Room not found"
  | Some room =>
      if decide (status (fields room) ≠ active)
      then throw ("Room is " +:+ status_name (status (fields room)))
      else if decide (expiresAt (fields room) < now) then
        do _ <- db_patch_room (_id room) (set_status expired) in
        throw "Room has expired"
      else
        do existingParticipant <-
          first (filter_q (λ p, rp_participantId (fields p) = participantId)
                          (participants_by_room (_id room))) in
        match existingParticipant with
        | Some _ => throw "Already joined this room"
        | None =>
            do participants <- participants_by_room (_id room) in
            let participantCount := Z.of_nat (length participants) in
            if decide (participantCount >= maxParticipants (fields room))
            then throw "Room is full"
            else
              do _ <- db_insert_participant
                        (mkRoomParticipant (_id room) participantId now None) in
              ret (mkRoomRef (_id room) (code (fields room)))
        end
  end.

Definition leaveRoom (roomId : Id) (participantId : string) : Handler Success :=
  do participant <-
    first (filter_q (λ p, rp_participantId (fields p) = participantId)
                    (participants_by_room roomId)) in
  match participant with
  | None => throw "Not a participant in this room"
  | Some participant =>
      do _ <- db_delete_participant (_id participant) in
      do remainingParticipants <- participants_by_room roomId in
      do _ <- (if decide (length remainingParticipants = 0%nat)
               then db_patch_room roomId (set_status completed)
               else ret ()) in
      ret (mkSuccess true)
  end.

Definition getParticipants (roomId : Id) : Handler (list (Doc RoomParticipant)) :=
  participants_by_room roomId.

Definition markVotingComplete (roomId : Id) (participantId : string) (now : Z)
  : Handler Success :=
  do participant <-
    first (filter_q (λ p, rp_participantId (fields p) = participantId)
                    (participants_by_room roomId)) in
  match participant with
  | None => throw "Not a participant in this room"
  | Some participant =>
      if truthy (votingCompletedAt (fields participant))
      then throw "Voting already completed"
      else
        do _ <- db_patch_participant (_id participant)
                  (set_votingCompletedAt (Some now)) in
        ret (mkSuccess true)
  end.

End Rooms.

(** ** [convex/votes.ts] *)

Module Votes.

Record SubmitVoteResult := mkSubmitVoteResult { voteId : Id; updated : bool }.

Definition submitVote (roomId movieId : Id) (participantId : string)
    (voteType : VoteType) (now : Z) : Handler SubmitVoteResult :=
  do room <- db_get_room roomId in
  match room with
  | None => throw "Room not found"
  | Some room =>
      if decide (status (fields room) ≠ active)
      then throw ("Room is " +:+ status_name (status (fields room)))
      else if decide (expiresAt (fields room) < now) then
        do _ <- db_patch_room (_id room) (set_status expired) in
        throw "Room has expired"
      else
        do participant <-
          first (filter_q (λ p, rp_participantId (fields p) = participantId)
                          (participants_by_room roomId)) in
        match participant with
        | None => throw "Not a participant in this room"
        | Some _ =>
            do movie <- db_get_movie movieId in
            match movie with
            | None => throw "Movie not found"
            | Some _ =>
                do existingVote <-
                  first (filter_q
                           (λ v, v_movieId (fields v) = movieId
                                 ∧ v_participantId (fields v) = participantId)
                           (votes_by_room roomId)) in
                match existingVote with
                | Some existingVote =>
                    do _ <- db_patch_vote (_id existingVote) (set_vote voteType now) in
                    ret (mkSubmitVoteResult (_id existingVote) true)
                | None =>
                    do voteId <- db_insert_vote
                                   (mkVote roomId movieId participantId voteType now) in
                    ret (mkSubmitVoteResult voteId false)
                end
            end
        end
  end.

Definition getVotes (roomId : Id) : Handler (list (Doc Vote)) :=
  votes_by_room roomId.

(** *** [getResults] *)

Record MovieData := mkMovieData {
  md_movieId : Id;
  md_likes : nat;
  md_dislikes : nat;
  md_voters : gset string
}.

(** The body of the [reduce] callback after the entry exists: one counter
    is incremented and the voter added to the set. *)
Definition count_vote (vote : Doc Vote) (d : MovieData) : MovieData :=
  let d := if decide (voteType (fields vote) = like)
           then mkMovieData (md_movieId d) (S (md_likes d)) (md_dislikes d) (md_voters d)
           else mkMovieData (md_movieId d) (md_likes d) (S (md_dislikes d)) (md_voters d) in
  mkMovieData (md_movieId d) (md_likes d) (md_dislikes d)
              ({[ v_participantId (fields vote) ]} ∪ md_voters d).

Definition group_step (acc : Obj MovieData) (vote : Doc Vote) : Obj MovieData :=
  let movieIdStr := v_movieId (fields vote) in
  let acc := match obj_get movieIdStr acc with
             | None => obj_set movieIdStr (mkMovieData (v_movieId (fields vote)) 0 0 ∅) acc
             | Some _ => acc
             end in
  obj_modify movieIdStr (count_vote vote) acc.

Record ResultEntry := mkResultEntry {
  movie : option (Doc Movie);
  likes : nat;
  dislikes : nat;
  totalVotes : nat;
  matchScore : Z;
  isMatch : bool
}.

Definition matchScore_of (likes totalParticipants : nat) : Z :=
  if decide (0 < totalParticipants)%nat
  then JS.round_percent (Z.of_nat likes) (Z.of_nat totalParticipants)
  else 0.

Definition isMatch_of (d : MovieData) (totalParticipants : nat) : bool :=
  bool_decide (size (md_voters d) = totalParticipants)
  && bool_decide (md_likes d = totalParticipants)
  && bool_decide (md_dislikes d = 0%nat).

Definition getResults (roomId : Id) : Handler (list ResultEntry) :=
  do votes <- votes_by_room roomId in
  do participants <- participants_by_room roomId in
  let totalParticipants := length participants in
  let movieVotes := foldl group_step [] votes in
  do results <-
    mapM (λ movieData,
            do movie <- db_get_movie (md_movieId movieData) in
            let isMatch := isMatch_of movieData totalParticipants in
            let matchScore := matchScore_of (md_likes movieData) totalParticipants in
            ret (mkResultEntry movie (md_likes movieData) (md_dislikes movieData)
                               (size (md_voters movieData)) matchScore isMatch))
         (Object_values movieVotes) in
  ret (Array_sort (λ a b, matchScore b - matchScore a) results).

(** *** [getDetailedResults] *)

Record VoteDetail := mkVoteDetail { vd_participantId : string; vd_vote : bool }.

Record DetailedData := mkDetailedData {
  dd_movieId : Id;
  dd_likes : nat;
  dd_dislikes : nat;
  dd_votingDetails : list VoteDetail
}.

Definition detail_vote (vote : Doc Vote) (d : DetailedData) : DetailedData :=
  let d := mkDetailedData (dd_movieId d) (dd_likes d) (dd_dislikes d)
             (dd_votingDetails d ++
                [mkVoteDetail (v_participantId (fields vote))
                              (bool_decide (voteType (fields vote) = like))]) in
  if decide (voteType (fields vote) = like)
  then mkDetailedData (dd_movieId d) (S (dd_likes d)) (dd_dislikes d) (dd_votingDetails d)
  else mkDetailedData (dd_movieId d) (dd_likes d) (S (dd_dislikes d)) (dd_votingDetails d).

Definition detailed_step (acc : Obj DetailedData) (vote : Doc Vote) : Obj DetailedData :=
  let movieIdStr := v_movieId (fields vote) in
  let acc := match obj_get movieIdStr acc with
             | None => obj_set movieIdStr (mkDetailedData (v_movieId (fields vote)) 0 0 []) acc
             | Some _ => acc
             end in
  obj_modify movieIdStr (detail_vote vote) acc.

Record DetailedEntry := mkDetailedEntry {
  de_movie : option (Doc Movie);
  de_totalVotes : nat;
  positiveVotes : nat;
  negativeVotes : nat;
  matchPercentage : Z;
  votingDetails : list VoteDetail
}.

Definition matchPercentage_of (likes totalVotes : nat) : Z :=
  if decide (0 < totalVotes)%nat
  then JS.round_percent (Z.of_nat likes) (Z.of_nat totalVotes)
  else 0.

Record ParticipantInfo := mkParticipantInfo {
  pi_participantId : string;
  pi_votingCompletedAt : option Z
}.

Record DetailedResults := mkDetailedResults {
  results : list DetailedEntry;
  participants : list ParticipantInfo
}.

(** [b.matchPercentage - a.matchPercentage || b.positiveVotes - a.positiveVotes] *)
Definition detailed_cmp (a b : DetailedEntry) : Z :=
  let d := matchPercentage b - matchPercentage a in
  if decide (d ≠ 0) then d
  else Z.of_nat (positiveVotes b) - Z.of_nat (positiveVotes a).

Definition getDetailedResults (roomId : Id) : Handler DetailedResults :=
  do votes <- votes_by_room roomId in
  do participants <- participants_by_room roomId in
  let movieVotes := foldl detailed_step [] votes in
  do results <-
    mapM (λ movieData,
            do movie <- db_get_movie (dd_movieId movieData) in
            let totalVotes := length (dd_votingDetails movieData) in
            let matchPercentage := matchPercentage_of (dd_likes movieData) totalVotes in
            ret (mkDetailedEntry movie totalVotes (dd_likes movieData)
                                 (dd_dislikes movieData) matchPercentage
                                 (dd_votingDetails movieData)))
         (filter (λ movieData, (0 < dd_likes movieData)%nat) (Object_values movieVotes)) in
  ret (mkDetailedResults
         (Array_sort detailed_cmp results)
         ((λ p, mkParticipantInfo (rp_participantId (fields p))
                                  (votingCompletedAt (fields p))) <$> participants)).

Definition markVotingComplete (roomId : Id) (participantName : string) (now : Z)
  : Handler Success :=
  do participant <-
    first (filter_q (λ p, rp_participantId (fields p) = participantName)
                    (participants_by_room roomId)) in
  match participant with
  | None => throw "Participant not found in room"
  | Some participant =>
      do _ <- db_patch_participant (_id participant)
                (set_votingCompletedAt (Some now)) in
      ret (mkSuccess true)
  end.

Definition resetVotingCompletion (roomId : Id) (participantId : string)
  : Handler Success :=
  do participant <-
    first (filter_q (λ p, rp_participantId (fields p) = participantId)
                    (participants_by_room roomId)) in
  match participant with
  | None => throw "Participant not found in room"
  | Some participant =>
      do _ <- db_patch_participant (_id participant)
                (set_votingCompletedAt None) in
      ret (mkSuccess true)
  end.

(** *** [getVotingProgress] *)

Record VotingProgress := mkVotingProgress {
  vp_totalParticipants : nat;
  vp_completedParticipants : nat;
  vp_pendingParticipants : nat;
  vp_completionPercentage : Z;
  vp_isAllComplete : bool;
  vp_participantIds : list string;
  vp_completedParticipantIds : list string;
  vp_pendingParticipantIds : list string
}.

(** [p.votingCompletedAt !== undefined] holds for every stored number,
    [0] included. *)
Definition getVotingProgress (roomId : Id) : Handler VotingProgress :=
  do participants <- participants_by_room roomId in
  let totalParticipants := length participants in
  let completedParticipants :=
    filter (λ p, votingCompletedAt (fields p) ≠ None) participants in
  let pendingParticipants :=
    filter (λ p, votingCompletedAt (fields p) = None) participants in
  let completionPercentage :=
    if decide (0 < totalParticipants)%nat
    then JS.round_percent (Z.of_nat (length completedParticipants))
                          (Z.of_nat totalParticipants)
    else 0 in
  let isAllComplete :=
    bool_decide (0 < totalParticipants)%nat
    && bool_decide (length completedParticipants = totalParticipants) in
  ret (mkVotingProgress
         totalParticipants
         (length completedParticipants)
         (length pendingParticipants)
         completionPercentage
         isAllComplete
         ((λ p, rp_participantId (fields p)) <$> participants)
         ((λ p, rp_participantId (fields p)) <$> completedParticipants)
         ((λ p, rp_participantId (fields p)) <$> pendingParticipants)).

End Votes.

(** ** The client hooks ([app/hooks]) *)

(** The hooks are React functions; what is modelled is the value each one
    computes from the result of its query, [None] standing for the
    [undefined] a query gives while it loads. *)
Module Hooks.

(** *** [useVotingCompletion] *)

Record VotingCompletionStatus := mkVotingCompletionStatus {
  completedParticipants : nat;
  totalParticipants : nat;
  completionPercentage : Z;
  isAllComplete : bool;
  isLoading : bool;
  error : option string;
  completedParticipantIds : list string;
  pendingParticipantIds : list string;
  participantIds : list string
}.

Definition useVotingCompletion (votingProgress : option Votes.VotingProgress)
  : VotingCompletionStatus :=
  match votingProgress with
  | None => mkVotingCompletionStatus 0 0 0 false true None [] [] []
  | Some votingProgress =>
      let totalCount := length (Votes.vp_participantIds votingProgress) in
      let completedCount := length (Votes.vp_completedParticipantIds votingProgress) in
      let completionPercentage :=
        if decide (0 < totalCount)%nat
        then JS.round_percent (Z.of_nat completedCount) (Z.of_nat totalCount)
        else 0 in
      let isAllComplete :=
        bool_decide (0 < totalCount)%nat && bool_decide (completedCount = totalCount) in
      mkVotingCompletionStatus completedCount totalCount completionPercentage
        isAllComplete false None
        (Votes.vp_completedParticipantIds votingProgress)
        (Votes.vp_pendingParticipantIds votingProgress)
        (Votes.vp_participantIds votingProgress)
  end.

(** *** [useDetailedResults] *)

(** The completion figures of the hook and the roster they are computed
    from; its [results] field relabels the entries of the query one by one
    and is left out. *)
Record DetailedCompletion := mkDetailedCompletion {
  dc_participants : list Votes.ParticipantInfo;
  dc_isLoading : bool;
  dc_completedParticipants : nat;
  dc_totalParticipants : nat;
  dc_completionPercentage : Z;
  dc_isAllComplete : bool
}.

Definition useDetailedResults (data : option Votes.DetailedResults) : DetailedCompletion :=
  let isLoading := if data is None then true else false in
  let participants :=
    match data with
    | None => []
    | Some data =>
        (λ p, Votes.mkParticipantInfo (Votes.pi_participantId p)
                                      (Votes.pi_votingCompletedAt p))
          <$> Votes.participants data
    end in
  let total := length participants in
  let completed :=
    length (filter (λ p, Votes.pi_votingCompletedAt p ≠ None) participants) in
  let completionPercentage :=
    if decide (0 < total)%nat
    then JS.round_percent (Z.of_nat completed) (Z.of_nat total)
    else 0 in
  let isAllComplete := bool_decide (0 < total)%nat && bool_decide (completed = total) in
  mkDetailedCompletion participants isLoading completed total completionPercentage
                       isAllComplete.

(** *** [useVoting] *)

(** [useQuery(api.votes.getVotes, ...) || []], then the caller's own rows. *)
Definition myVotes (votes : option (list (Doc Vote))) (participantId : string)
  : list (Doc Vote) :=
  filter (λ vote, v_participantId (fields vote) = participantId) (default [] votes).

Definition hasVoted (myVotes : list (Doc Vote)) (movieId : Id) : bool :=
  existsb (λ vote, bool_decide (v_movieId (fields vote) = movieId)) myVotes.

Definition getVoteType (myVotes : list (Doc Vote)) (movieId : Id) : option VoteType :=
  match List.find (λ v, bool_decide (v_movieId (fields v) = movieId)) myVotes with
  | None => None
  | Some vote => Some (voteType (fields vote))
  end.

Record VotingProgress := mkVotingProgress {
  totalMovies : nat;
  votedMovies : nat;
  remainingMovies : Z;
  progressPercentage : Z
}.

Definition getVotingProgress {M} (myVotes : list (Doc Vote)) (movies : list M)
  : VotingProgress :=
  let votedMovies := length myVotes in
  let totalMovies := length movies in
  let remainingMovies := Z.max 0 (Z.of_nat totalMovies - Z.of_nat votedMovies) in
  let progressPercentage :=
    if decide (0 < totalMovies)%nat
    then JS.round_percent (Z.of_nat votedMovies) (Z.of_nat totalMovies)
    else 0 in
  mkVotingProgress totalMovies votedMovies remainingMovies progressPercentage.

End Hooks.

(** ** The tables beside the voting core *)

(** [convex/votingMovies.ts], [convex/messages.ts], [convex/voteReactions.ts]
    and the typing status of [convex/presence.ts] use five more tables.  Their handlers run over the
    whole store; document ids still come from the one counter. *)

Record RoomMovie := mkRoomMovie {
  rm_roomId : Id;
  rm_movieId : Id;
  position : nat
}.

(** The text of a message is a JavaScript string: its UTF-16 code units. *)
Record Message := mkMessage {
  m_roomId : Id;
  m_participantId : string;
  message : list Z;
  m_createdAt : Z
}.

Record MessageReaction := mkMessageReaction {
  mr_messageId : Id;
  mr_participantId : string;
  mr_emoji : string;
  mr_createdAt : Z
}.

Record TypingStatus := mkTypingStatus {
  ts_roomId : Id;
  ts_participantId : string;
  updatedAt : Z
}.

Record VoteReaction := mkVoteReaction {
  vr_roomId : Id;
  vr_movieId : Id;
  vr_participantId : string;
  reaction : VoteType;
  vr_createdAt : Z
}.

Record Store := mkStore {
  core : Db;
  roomMovies : Table RoomMovie;
  messages : Table Message;
  messageReactions : Table MessageReaction;
  typingStatus : Table TypingStatus;
  voteReactions : Table VoteReaction
}.

Definition Mutation (A : Type) := Store → Outcome A * Store.

Definition retS {A} (a : A) : Mutation A := λ s, (Return a, s).
Definition throwS {A} (e : Error) : Mutation A := λ s, (Throw e, s).
Definition bindS {A B} (m : Mutation A) (k : A → Mutation B) : Mutation B :=
  λ s, match m s with
       | (Return a, s') => k a s'
       | (Throw e, s') => (Throw e, s')
       end.

Notation "'await' x <- m 'in' k" := (bindS m (λ x, k))
  (at level 10, x name, m at level 100, k at level 200,
   format "'[v' 'await'  x  <-  m  'in'  '/' k ']'").

Definition outcomeS {A} (h : Mutation A) (s : Store) : Outcome A := fst (h s).
Definition storeS {A} (h : Mutation A) (s : Store) : Store := snd (h s).

(** A handler of the voting core, run on the whole store. *)
Definition lift {A} (h : Handler A) : Mutation A :=
  λ s, (fst (h (core s)),
        mkStore (snd (h (core s))) (roomMovies s) (messages s) (messageReactions s)
                (typingStatus s) (voteReactions s)).

(** The core once the counter has handed out [nextId]. *)
Definition tick (db : Db) : Db :=
  mkDb (rooms db) (roomParticipants db) (movies db) (votes db) (S (nextId db)).

(** Reads.  An index lists its rows by the indexed fields, then by creation
    time: [by_room] on [roomMovies] and [typingStatus] keeps the order of
    creation, [by_room] on [messages] orders by [createdAt] first. *)
Definition movies_by_tmdb_id (t : Z) : Handler (list (Doc Movie)) :=
  λ db, (Return (filter (λ m, tmdbId (fields m) = t) (movies db)), db).
Definition roomMovies_by_room (id : Id) : Mutation (list (Doc RoomMovie)) :=
  λ s, (Return (filter (λ rm, rm_roomId (fields rm) = id) (roomMovies s)), s).
Definition messages_by_room (id : Id) : Mutation (list (Doc Message)) :=
  λ s, (Return (Array_sort (λ a b, m_createdAt (fields a) - m_createdAt (fields b))
                           (filter (λ m, m_roomId (fields m) = id) (messages s))), s).
Definition reactions_by_participant_and_message (participantId : string) (messageId : Id)
  : Mutation (list (Doc MessageReaction)) :=
  λ s, (Return (filter (λ r, mr_participantId (fields r) = participantId
                             ∧ mr_messageId (fields r) = messageId)
                       (messageReactions s)), s).
Definition all_reactions : Mutation (list (Doc MessageReaction)) :=
  λ s, (Return (messageReactions s), s).
Definition typing_by_participant_and_room (participantId : string) (roomId : Id)
  : Mutation (list (Doc TypingStatus)) :=
  λ s, (Return (filter (λ t, ts_participantId (fields t) = participantId
                             ∧ ts_roomId (fields t) = roomId)
                       (typingStatus s)), s).
Definition typing_by_room (roomId : Id) : Mutation (list (Doc TypingStatus)) :=
  λ s, (Return (filter (λ t, ts_roomId (fields t) = roomId) (typingStatus s)), s).
Definition voteReactions_by_room (roomId : Id) : Mutation (list (Doc VoteReaction)) :=
  λ s, (Return (filter (λ r, vr_roomId (fields r) = roomId) (voteReactions s)), s).
Definition all_voteReactions : Mutation (list (Doc VoteReaction)) :=
  λ s, (Return (voteReactions s), s).

(** Writes. *)
Definition db_insert_movie (m : Movie) : Handler Id :=
  λ db, (Return (nextId db),
         mkDb (rooms db) (roomParticipants db) (tbl_insert (nextId db) m (movies db))
              (votes db) (S (nextId db))).
Definition insert_roomMovie (x : RoomMovie) : Mutation Id :=
  λ s, (Return (nextId (core s)),
        mkStore (tick (core s)) (tbl_insert (nextId (core s)) x (roomMovies s))
                (messages s) (messageReactions s) (typingStatus s) (voteReactions s)).
Definition insert_message (x : Message) : Mutation Id :=
  λ s, (Return (nextId (core s)),
        mkStore (tick (core s)) (roomMovies s)
                (tbl_insert (nextId (core s)) x (messages s))
                (messageReactions s) (typingStatus s) (voteReactions s)).
Definition insert_reaction (x : MessageReaction) : Mutation Id :=
  λ s, (Return (nextId (core s)),
        mkStore (tick (core s)) (roomMovies s) (messages s)
                (tbl_insert (nextId (core s)) x (messageReactions s)) (typingStatus s) (voteReactions s)).
Definition delete_reaction (id : Id) : Mutation () :=
  λ s, match tbl_get id (messageReactions s) with
       | None => (Throw "Delete on nonexistent document", s)
       | Some _ =>
           (Return (), mkStore (core s) (roomMovies s) (messages s)
                               (tbl_delete id (messageReactions s)) (typingStatus s) (voteReactions s))
       end.
Definition insert_typing (x : TypingStatus) : Mutation Id :=
  λ s, (Return (nextId (core s)),
        mkStore (tick (core s)) (roomMovies s) (messages s) (messageReactions s)
                (tbl_insert (nextId (core s)) x (typingStatus s)) (voteReactions s)).
Definition patch_typing (id : Id) (f : TypingStatus → TypingStatus) : Mutation () :=
  λ s, match tbl_get id (typingStatus s) with
       | None => (Throw "Update on nonexistent document", s)
       | Some _ =>
           (Return (), mkStore (core s) (roomMovies s) (messages s) (messageReactions s)
                               (tbl_patch id f (typingStatus s)) (voteReactions s))
       end.
Definition delete_typing (id : Id) : Mutation () :=
  λ s, match tbl_get id (typingStatus s) with
       | None => (Throw "Delete on nonexistent document", s)
       | Some _ =>
           (Return (), mkStore (core s) (roomMovies s) (messages s) (messageReactions s)
                               (tbl_delete id (typingStatus s)) (voteReactions s))
       end.

Definition insert_voteReaction (x : VoteReaction) : Mutation Id :=
  λ s, (Return (nextId (core s)),
        mkStore (tick (core s)) (roomMovies s) (messages s) (messageReactions s)
                (typingStatus s) (tbl_insert (nextId (core s)) x (voteReactions s))).
Definition delete_voteReaction (id : Id) : Mutation () :=
  λ s, match tbl_get id (voteReactions s) with
       | None => (Throw "Delete on nonexistent document", s)
       | Some _ =>
           (Return (), mkStore (core s) (roomMovies s) (messages s) (messageReactions s)
                               (typingStatus s) (tbl_delete id (voteReactions s)))
       end.

Definition set_updatedAt (t : Z) (x : TypingStatus) : TypingStatus :=
  mkTypingStatus (ts_roomId x) (ts_participantId x) t.

Definition filterS {A} (P : A → Prop) `{!∀ x, Decision (P x)}
    (q : Mutation (list A)) : Mutation (list A) :=
  await l <- q in retS (filter P l).
Definition firstS {A} (q : Mutation (list A)) : Mutation (option A) :=
  await l <- q in retS (head l).

Fixpoint mapMS {A B} (f : A → Mutation B) (l : list A) : Mutation (list B) :=
  match l with
  | [] => retS []
  | x :: l' => await y <- f x in await ys <- mapMS f l' in retS (y :: ys)
  end.

(** ** [convex/votingMovies.ts] *)

Module VotingMovies.

(** The optional fields of the arguments and [createdAt] are stored with the
    movie; the record [Movie] keeps the two fields that identify it. *)
Definition addMovie (tmdbId : Z) (title : string) : Handler Id :=
  do existingMovie <- first (movies_by_tmdb_id tmdbId) in
  match existingMovie with
  | Some existingMovie => ret (_id existingMovie)
  | None =>
      do movieId <- db_insert_movie (mkMovie tmdbId title) in
      ret movieId
  end.

Record LinkResult := mkLinkResult { success : bool; count : nat }.

(** The loop [for (let i = 0; i < movieIds.length; i++)], from index [i]. *)
Fixpoint link_from (roomId : Id) (i : nat) (movieIds : list Id) : Mutation () :=
  match movieIds with
  | [] => retS ()
  | movieId :: rest =>
      await _ <- insert_roomMovie (mkRoomMovie roomId movieId i) in
      link_from roomId (S i) rest
  end.

Definition linkMoviesToRoom (roomId : Id) (movieIds : list Id) : Mutation LinkResult :=
  await _ <- link_from roomId 0 movieIds in
  retS (mkLinkResult true (length movieIds)).

Definition getMovie (movieId : Id) : Handler (option (Doc Movie)) :=
  db_get_movie movieId.

Definition getMovieByTmdbId (tmdbId : Z) : Handler (option (Doc Movie)) :=
  first (movies_by_tmdb_id tmdbId).

Definition getRoomMovies (roomId : Id) : Mutation (list (Doc Movie)) :=
  await roomMovies <- roomMovies_by_room roomId in
  await movies <- mapMS (λ rm, lift (db_get_movie (rm_movieId (fields rm)))) roomMovies in
  retS (omap id movies).

End VotingMovies.

(** ** [convex/voteReactions.ts] *)

Module VoteReactions.

Definition recordVoteReaction (roomId movieId : Id) (participantId : string)
    (reaction : VoteType) (now : Z) : Mutation Id :=
  await reactionId <-
    insert_voteReaction (mkVoteReaction roomId movieId participantId reaction now) in
  retS reactionId.

(** [{ ...reaction, movieTitle }] *)
Record EnrichedReaction := mkEnrichedReaction {
  er_reaction : Doc VoteReaction;
  movieTitle : string
}.

(** [movie?.title || "Unknown Movie"]: the empty title is falsy. *)
Definition movieTitle_of (movie : option (Doc Movie)) : string :=
  match movie with
  | None => "Unknown Movie"
  | Some movie =>
      if decide (title (fields movie) = EmptyString) then "Unknown Movie"
      else title (fields movie)
  end.

Definition getRecentReactions (roomId : Id) (now : Z) : Mutation (list EnrichedReaction) :=
  let fiveSecondsAgo := now - 5000 in
  await reactions <-
    filterS (λ r, vr_createdAt (fields r) >= fiveSecondsAgo)
            (voteReactions_by_room roomId) in
  await enrichedReactions <-
    mapMS (λ reaction,
             await movie <- lift (db_get_movie (vr_movieId (fields reaction))) in
             retS (mkEnrichedReaction reaction (movieTitle_of movie)))
          reactions in
  retS enrichedReactions.

Record CleanupResult := mkCleanupResult { deleted : nat }.

(** [for (const reaction of oldReactions) await ctx.db.delete(reaction._id)] *)
Fixpoint delete_each (oldReactions : list (Doc VoteReaction)) : Mutation () :=
  match oldReactions with
  | [] => retS ()
  | reaction :: rest =>
      await _ <- delete_voteReaction (_id reaction) in
      delete_each rest
  end.

Definition cleanupOldReactions (now : Z) : Mutation CleanupResult :=
  let fiveSecondsAgo := now - 5000 in
  await oldReactions <-
    filterS (λ r, vr_createdAt (fields r) < fiveSecondsAgo) all_voteReactions in
  await _ <- delete_each oldReactions in
  retS (mkCleanupResult (length oldReactions)).

End VoteReactions.

(** ** Typing status ([convex/presence.ts]) *)

(** [heartbeat], [list] and [disconnect] hand their arguments to the
    presence component and are not modelled. *)
Module Presence.

Definition setTypingStatus (roomId : Id) (participantId : string) (isTyping : bool)
    (now : Z) : Mutation () :=
  if isTyping then
    await existing <- firstS (typing_by_participant_and_room participantId roomId) in
    match existing with
    | Some existing => patch_typing (_id existing) (set_updatedAt now)
    | None =>
        await _ <- insert_typing (mkTypingStatus roomId participantId now) in
        retS ()
    end
  else
    await existing <- firstS (typing_by_participant_and_room participantId roomId) in
    match existing with
    | Some existing => delete_typing (_id existing)
    | None => retS ()
    end.

Definition getTypingUsers (roomId : Id) (now : Z) : Mutation (list string) :=
  let threeSecondsAgo := now - 3000 in
  await typingUsers <-
    filterS (λ t, updatedAt (fields t) >= threeSecondsAgo) (typing_by_room roomId) in
  retS ((λ t, ts_participantId (fields t)) <$> typingUsers).

End Presence.

(** ** [convex/messages.ts] *)

Module Messages.

(** The code units [String.prototype.trim] strips: the white space and the
    line terminators of ECMAScript. *)
Definition is_white_space (c : Z) : bool :=
  bool_decide (c ∈ [9; 10; 11; 12; 13; 32; 160; 5760; 8232; 8233; 8239; 8287; 12288; 65279])
  || ((8192 <=? c) && (c <=? 8202)).

Fixpoint trimStart (s : list Z) : list Z :=
  match s with
  | [] => []
  | c :: s' => if is_white_space c then trimStart s' else s
  end.

Definition trim (s : list Z) : list Z := reverse (trimStart (reverse (trimStart s))).

Definition sendMessage (roomId : Id) (participantId : string) (message : list Z)
    (now : Z) : Mutation Id :=
  let trimmedMessage := trim message in
  if decide (trimmedMessage = []) then throwS "Message cannot be empty"
  else if decide (500 < length trimmedMessage)%nat
  then throwS "Message too long (max 500 characters)"
  else
    await messageId <- insert_message (mkMessage roomId participantId trimmedMessage now) in
    retS messageId.

Definition getMessages (roomId : Id) : Mutation (list (Doc Message)) :=
  messages_by_room roomId.

(** [.order("desc").take(limit)] reads the index backwards; [limit] ranges
    over the counts [take] accepts. *)
Definition getRecentMessages (roomId : Id) (limit : option nat)
  : Mutation (list (Doc Message)) :=
  let limit := default 50%nat limit in
  await messages <-
    (await l <- messages_by_room roomId in retS (take limit (reverse l))) in
  retS (reverse messages).

Record ReactionResult := mkReactionResult { removed : bool }.

Definition addReaction (messageId : Id) (participantId emoji : string) (now : Z)
  : Mutation ReactionResult :=
  await existing <-
    firstS (filterS (λ r, mr_emoji (fields r) = emoji)
                    (reactions_by_participant_and_message participantId messageId)) in
  match existing with
  | Some existing =>
      await _ <- delete_reaction (_id existing) in
      retS (mkReactionResult true)
  | None =>
      await _ <- insert_reaction (mkMessageReaction messageId participantId emoji now) in
      retS (mkReactionResult false)
  end.

Record EmojiGroup := mkEmojiGroup {
  eg_emoji : string;
  eg_count : nat;
  users : list string
}.

(** [existing.count++; existing.users.push(participantId)] on the entry
    [find] returned, which is the first one with the emoji. *)
Fixpoint update_first (emoji : string) (f : EmojiGroup → EmojiGroup)
    (arr : list EmojiGroup) : list EmojiGroup :=
  match arr with
  | [] => []
  | r :: arr' =>
      if decide (eg_emoji r = emoji) then f r :: arr'
      else r :: update_first emoji f arr'
  end.

Definition add_reaction_to (reaction : Doc MessageReaction) (arr : list EmojiGroup)
  : list EmojiGroup :=
  match List.find (λ r, bool_decide (eg_emoji r = mr_emoji (fields reaction))) arr with
  | Some _ =>
      update_first (mr_emoji (fields reaction))
        (λ existing, mkEmojiGroup (eg_emoji existing) (S (eg_count existing))
                       (users existing ++ [mr_participantId (fields reaction)]))
        arr
  | None =>
      arr ++ [mkEmojiGroup (mr_emoji (fields reaction)) 1
                           [mr_participantId (fields reaction)]]
  end.

Definition reaction_step (grouped : Obj (list EmojiGroup)) (reaction : Doc MessageReaction)
  : Obj (list EmojiGroup) :=
  let msgId := mr_messageId (fields reaction) in
  let grouped := match obj_get msgId grouped with
                 | None => obj_set msgId [] grouped
                 | Some _ => grouped
                 end in
  obj_modify msgId (add_reaction_to reaction) grouped.

(** [q.or(...)] over no message id is false. *)
Definition getMessageReactions (messageIds : list Id) : Mutation (Obj (list EmojiGroup)) :=
  await reactions <-
    filterS (λ r, mr_messageId (fields r) ∈ messageIds) all_reactions in
  retS (foldl reaction_step [] reactions).

End Messages.

(** * Vocabulary of the properties *)

(** ** Reading and expiring a room *)

(** What a room query reports for the stored room [r] at time [now]. *)
Definition lazy_expiry_view (now : Z) (r : Doc Room)
    (o : Outcome (option (Doc Room))) : Prop :=
  (status (fields r) = active → expiresAt (fields r) < now →
     o = Return (Some (mkDoc (_id r) (set_status expired (fields r)))))
  ∧ (¬ (status (fields r) = active ∧ expiresAt (fields r) < now) →
     o = Return (Some r))
  ∧ (∀ r', o = Return (Some r') →
     expiresAt (fields r') < now → status (fields r') ≠ active).

(** The store after [ctx.db.patch(id, { status: "expired" })]. *)
Definition expire_room (id : Id) (db : Db) : Db :=
  mkDb (tbl_patch id (set_status expired) (rooms db)) (roomParticipants db)
       (movies db) (votes db) (nextId db).

(** ** Membership and completion *)

(** The store after [ctx.db.patch(id, { votingCompletedAt: t })]. *)
Definition complete_participant (id : Id) (t : option Z) (db : Db) : Db :=
  mkDb (rooms db) (tbl_patch id (set_votingCompletedAt t) (roomParticipants db))
       (movies db) (votes db) (nextId db).

(** The membership row both handlers look up. *)
Definition membership (roomId : Id) (participantId : string) (db : Db)
  : option (Doc RoomParticipant) :=
  head (filter (λ p, rp_participantId (fields p) = participantId)
               (filter (λ p, rp_roomId (fields p) = roomId) (roomParticipants db))).


(** ** Room codes *)



(** The room [createRoom] stores when it settles on [code]. *)
Definition new_room (code category hostId : string) (maxParticipants : option Z)
    (now : Z) : Room :=
  mkRoom code category hostId active (now + 24 * 60 * 60 * 1000)
         (default 10 maxParticipants) now.

Definition room_codes (db : Db) : list string := (λ r, code (fields r)) <$> rooms db.

(** ** Calls, traces and effects *)

(** The mutations a client can call, with their arguments. *)
Inductive Call :=
| CreateRoom (category hostId : string) (maxParticipants : option Z) (rnd : nat → Q)
| JoinRoom (roomId : Id) (participantId : string)
| JoinRoomByCode (roomCode participantId : string)
| LeaveRoom (roomId : Id) (participantId : string)
| SubmitVote (roomId movieId : Id) (participantId : string) (voteType : VoteType)
| MarkVotingComplete (roomId : Id) (participantId : string)
| MarkVotingCompleteVotes (roomId : Id) (participantName : string)
| ResetVotingCompletion (roomId : Id) (participantId : string).

(** The store a call leaves when it runs at time [now]. *)
Definition exec (c : Call) (now : Z) (db : Db) : Db :=
  match c with
  | CreateRoom category hostId maxParticipants rnd =>
      store (Rooms.createRoom category hostId maxParticipants rnd now) db
  | JoinRoom roomId participantId => store (Rooms.joinRoom roomId participantId now) db
  | JoinRoomByCode roomCode participantId =>
      store (Rooms.joinRoomByCode roomCode participantId now) db
  | LeaveRoom roomId participantId => store (Rooms.leaveRoom roomId participantId) db
  | SubmitVote roomId movieId participantId voteType =>
      store (Votes.submitVote roomId movieId participantId voteType now) db
  | MarkVotingComplete roomId participantId =>
      store (Rooms.markVotingComplete roomId participantId now) db
  | MarkVotingCompleteVotes roomId participantName =>
      store (Votes.markVotingComplete roomId participantName now) db
  | ResetVotingCompletion roomId participantId =>
      store (Votes.resetVotingCompletion roomId participantId) db
  end.

(** A trace is a sequence of calls, each with the time it runs at. *)
Definition run (trace : list (Call * Z)) (db : Db) : Db :=
  foldl (λ db cn, exec cn.1 cn.2 db) db trace.

(** The primitive writes. *)
Definition add_room (r : Room) (db : Db) : Db :=
  mkDb (tbl_insert (nextId db) r (rooms db)) (roomParticipants db)
       (movies db) (votes db) (S (nextId db)).
Definition add_participant (p : RoomParticipant) (db : Db) : Db :=
  mkDb (rooms db) (tbl_insert (nextId db) p (roomParticipants db))
       (movies db) (votes db) (S (nextId db)).
Definition add_vote (v : Vote) (db : Db) : Db :=
  mkDb (rooms db) (roomParticipants db) (movies db)
       (tbl_insert (nextId db) v (votes db)) (S (nextId db)).
Definition remove_participant (id : Id) (db : Db) : Db :=
  mkDb (rooms db) (tbl_delete id (roomParticipants db)) (movies db) (votes db) (nextId db).
Definition complete_room (id : Id) (db : Db) : Db :=
  mkDb (tbl_patch id (set_status completed) (rooms db)) (roomParticipants db)
       (movies db) (votes db) (nextId db).
Definition patch_vote (id : Id) (ty : VoteType) (t : Z) (db : Db) : Db :=
  mkDb (rooms db) (roomParticipants db) (movies db)
       (tbl_patch id (set_vote ty t) (votes db)) (nextId db).

(** What a call can do to the store, as a whole. *)
Inductive Effect :=
| Stay
| Created (r : Room) (host : string) (now : Z)
| Expired (id : Id)
| Joined (p : RoomParticipant)
| Left (id : Id)
| LeftLast (id : Id) (roomId : Id)
| Marked (id : Id) (t : option Z)
| Voted (v : Vote)
| Revoted (id : Id) (ty : VoteType) (t : Z).

Definition apply_effect (e : Effect) (db : Db) : Db :=
  match e with
  | Stay => db
  | Created r host now =>
      add_participant (mkRoomParticipant (nextId db) host now None) (add_room r db)
  | Expired id => expire_room id db
  | Joined p => add_participant p db
  | Left id => remove_participant id db
  | LeftLast id roomId => complete_room roomId (remove_participant id db)
  | Marked id t => complete_participant id t db
  | Voted v => add_vote v db
  | Revoted id ty t => patch_vote id ty t db
  end.

Definition participants_of (roomId : Id) (db : Db) : list (Doc RoomParticipant) :=
  filter (λ p, rp_roomId (fields p) = roomId) (roomParticipants db).

(** The votes of one participant on one movie in one room. *)
Definition votes_of (roomId movieId : Id) (participantId : string) (db : Db)
  : list (Doc Vote) :=
  filter (λ v, v_movieId (fields v) = movieId ∧ v_participantId (fields v) = participantId)
         (filter (λ v, v_roomId (fields v) = roomId) (votes db)).

(** The conditions under which the handlers produce each effect. *)
Definition effect_ok (db : Db) (e : Effect) : Prop :=
  match e with
  | Stay => True
  | Created r host now => status r = active ∧ code r ∉ room_codes db
  | Expired id =>
      ∃ room, room ∈ rooms db ∧ _id room = id ∧ status (fields room) = active
  | Joined p =>
      ∃ room, room ∈ rooms db ∧ _id room = rp_roomId p
              ∧ status (fields room) = active
              ∧ Z.of_nat (length (participants_of (rp_roomId p) db))
                < maxParticipants (fields room)
              ∧ membership (rp_roomId p) (rp_participantId p) db = None
  | Left id => ∃ p, p ∈ roomParticipants db ∧ _id p = id
  | LeftLast id roomId =>
      (∃ p, p ∈ roomParticipants db ∧ _id p = id ∧ rp_roomId (fields p) = roomId)
      ∧ participants_of roomId (remove_participant id db) = []
  | Marked id t => True
  | Voted v =>
      votes_of (v_roomId v) (v_movieId v) (v_participantId v) db = []
      ∧ is_Some (tbl_get (v_movieId v) (movies db))
      ∧ is_Some (membership (v_roomId v) (v_participantId v) db)
  | Revoted id ty t => ∃ v, v ∈ votes db ∧ _id v = id
  end.

(** Which effects each call can have. *)
Definition may (c : Call) (now : Z) (e : Effect) : Prop :=
  match c, e with
  | _, Stay => True
  | CreateRoom cat hid maxP _, Created r host t =>
      category r = cat ∧ hostId r = hid ∧ host = hid
      ∧ maxParticipants r = default 10 maxP
      ∧ expiresAt r = now + 86400000 ∧ createdAt r = now ∧ t = now
  | JoinRoom roomId _, Expired id => id = roomId
  | JoinRoom roomId participantId, Joined p =>
      p = mkRoomParticipant roomId participantId now None
  | JoinRoomByCode _ _, Expired _ => True
  | JoinRoomByCode _ participantId, Joined p =>
      rp_participantId p = participantId ∧ joinedAt p = now ∧ votingCompletedAt p = None
  | LeaveRoom _ _, Left _ => True
  | LeaveRoom roomId _, LeftLast _ id => id = roomId
  | SubmitVote roomId _ _ _, Expired id => id = roomId
  | SubmitVote roomId movieId participantId voteType, Voted v =>
      v = mkVote roomId movieId participantId voteType now
  | SubmitVote roomId movieId participantId voteType, Revoted _ ty t =>
      ty = voteType ∧ t = now
  | MarkVotingComplete _ _, Marked _ t => t = Some now
  | MarkVotingCompleteVotes _ _, Marked _ t => t = Some now
  | ResetVotingCompletion _ _, Marked _ t => t = None
  | _, _ => False
  end.

(** ** Invariants of the store *)

(** Every document carries an [_id] handed out before [nextId], each only
    once, and every membership row points below [nextId]. *)
Definition db_wf (db : Db) : Prop :=
  tbl_wf (nextId db) (rooms db)
  ∧ tbl_wf (nextId db) (roomParticipants db)
  ∧ tbl_wf (nextId db) (movies db)
  ∧ tbl_wf (nextId db) (votes db)
  ∧ ∀ p, p ∈ roomParticipants db → (rp_roomId (fields p) < nextId db)%nat.



Definition vote_keys_unique (db : Db) : Prop :=
  ∀ roomId movieId participantId,
    (length (votes_of roomId movieId participantId db) ≤ 1)%nat.

(** ** Grouping *)

(** The distinct keys of a list, in the order of their first occurrence. *)
Definition keys_seen (ks : list Id) : list Id :=
  foldl (λ seen k, if decide (k ∈ seen) then seen else seen ++ [k]) [] ks.

Section GroupingDefs.
Context {V D : Type} (key : V → Id) (init : Id → D) (step : V → D → D).

(** The callback: create the entry of [key v] when it is missing, then
    update it with [v]. *)
Definition upsert_step (acc : Obj D) (v : V) : Obj D :=
  let acc := match obj_get (key v) acc with
             | None => obj_set (key v) (init (key v)) acc
             | Some _ => acc
             end in
  obj_modify (key v) (step v) acc.

(** The value the fold builds for the key [k]. *)
Definition aggregate (k : Id) (l : list V) : D :=
  foldl (λ d v, step v d) (init k) (filter (λ v, key v = k) l).

End GroupingDefs.

(** ** Results as the specification words them *)

(** The vote rows of a room on one movie. *)
Definition votes_on (roomId movieId : Id) (db : Db) : list (Doc Vote) :=
  filter (λ v, v_movieId (fields v) = movieId)
         (filter (λ v, v_roomId (fields v) = roomId) (votes db)).

Definition likes_on (roomId movieId : Id) (db : Db) : nat :=
  length (filter (λ v, voteType (fields v) = like) (votes_on roomId movieId db)).

Definition dislikes_on (roomId movieId : Id) (db : Db) : nat :=
  length (filter (λ v, voteType (fields v) = dislike) (votes_on roomId movieId db)).

(** The distinct participants who voted on the movie. *)
Definition voters_on (roomId movieId : Id) (db : Db) : gset string :=
  list_to_set ((λ v, v_participantId (fields v)) <$> votes_on roomId movieId db).

(** The entry of a movie as the specification words it: likes and dislikes
    count the movie's vote rows by type, [totalVotes] counts its distinct
    voters, [matchScore] is [round(likes / totalParticipants * 100)], or [0]
    without participants, and [isMatch] asks for every participant to have
    voted, every participant to have liked and nobody to have disliked. *)
Definition spec_results_entry (roomId movieId : Id) (db : Db) : Votes.ResultEntry :=
  let totalParticipants := length (participants_of roomId db) in
  Votes.mkResultEntry
    (tbl_get movieId (movies db))
    (likes_on roomId movieId db)
    (dislikes_on roomId movieId db)
    (size (voters_on roomId movieId db))
    (if decide (totalParticipants = 0%nat) then 0
     else JS.round_percent (Z.of_nat (likes_on roomId movieId db))
                           (Z.of_nat totalParticipants))
    (bool_decide (size (voters_on roomId movieId db) = totalParticipants
                  ∧ likes_on roomId movieId db = totalParticipants
                  ∧ dislikes_on roomId movieId db = 0%nat)).

(** The movies with at least one vote row in the room, first voted first. *)
Definition movies_voted (roomId : Id) (db : Db) : list Id :=
  keys_seen ((λ v, v_movieId (fields v))
               <$> filter (λ v, v_roomId (fields v) = roomId) (votes db)).

(** The entry of a movie in the detailed results, as the specification
    words it: [matchPercentage] is [round(likes / votes on this movie * 100)]. *)
Definition spec_detailed_entry (roomId movieId : Id) (db : Db) : Votes.DetailedEntry :=
  let totalVotes := length (votes_on roomId movieId db) in
  Votes.mkDetailedEntry
    (tbl_get movieId (movies db))
    totalVotes
    (likes_on roomId movieId db)
    (dislikes_on roomId movieId db)
    (if decide (totalVotes = 0%nat) then 0
     else JS.round_percent (Z.of_nat (likes_on roomId movieId db)) (Z.of_nat totalVotes))
    ((λ v, Votes.mkVoteDetail (v_participantId (fields v))
                              (bool_decide (voteType (fields v) = like)))
       <$> votes_on roomId movieId db).

(** ** Example stores and traces *)

Definition expired_db : Db :=
  mkDb [mkDoc 0%nat (mkRoom "4821" "comedy" "ann" active 86400000 10 0)]
       [mkDoc 1%nat (mkRoomParticipant 0%nat "ann" 0 None)] [] [] 2%nat.

Definition completed_db : Db :=
  mkDb [mkDoc 0%nat (mkRoom "4821" "comedy" "ann" active 86400000 10 0)]
       [mkDoc 1%nat (mkRoomParticipant 0%nat "ann" 0 (Some 500))] [] [] 2%nat.


Definition half : nat → Q := λ _, (1 # 2)%Q.



Definition expired_then_left_trace : list (Call * Z) :=
  [(CreateRoom "comedy" "ann" None half, 0); (JoinRoom 0%nat "bob", 86400001)].

Definition cinema_db : Db :=
  mkDb [] [] [mkDoc 0%nat (mkMovie 603 "The Matrix")] [] 1%nat.

(** Ann creates a room, Bob and Cy join, all three like the movie, Cy
    leaves. *)
Definition departed_voter_db : Db :=
  run [(CreateRoom "action" "ann" None half, 0);
       (JoinRoom 1%nat "bob", 1); (JoinRoom 1%nat "cy", 2);
       (SubmitVote 1%nat 0%nat "ann" like, 3);
       (SubmitVote 1%nat 0%nat "bob" like, 4);
       (SubmitVote 1%nat 0%nat "cy" like, 5);
       (LeaveRoom 1%nat "cy", 6)] cinema_db.

Definition two_of_three_db : Db :=
  run [(CreateRoom "action" "ann" None half, 0);
       (JoinRoom 1%nat "bob", 1); (JoinRoom 1%nat "cy", 2);
       (SubmitVote 1%nat 0%nat "ann" like, 3);
       (SubmitVote 1%nat 0%nat "bob" like, 4)] cinema_db.

Definition voting_db : Db :=
  run [(CreateRoom "action" "ann" None half, 0)] cinema_db.

(** ** Membership rows and references *)

(** The membership rows of one participant in one room. *)
Definition members_of (roomId : Id) (participantId : string) (db : Db)
  : list (Doc RoomParticipant) :=
  filter (λ p, rp_participantId (fields p) = participantId) (participants_of roomId db).

(** No participant has two membership rows in one room. *)
Definition members_unique (db : Db) : Prop :=
  ∀ roomId participantId, (length (members_of roomId participantId db) ≤ 1)%nat.

(** Every vote row points to a stored room and a stored movie. *)
Definition votes_refer (db : Db) : Prop :=
  ∀ v, v ∈ votes db →
    is_Some (tbl_get (v_roomId (fields v)) (rooms db))
    ∧ is_Some (tbl_get (v_movieId (fields v)) (movies db)).

Definition three_friends_trace : list (Call * Z) :=
  [(CreateRoom "action" "ann" None half, 0);
   (JoinRoom 0%nat "bob", 1); (JoinRoom 0%nat "cy", 2)].

(** ** What a client sees *)

(** What [useQuery] hands to a hook once the query has run on the store. *)
Definition useQuery {A} (q : Handler A) (db : Db) : option A :=
  match outcome q db with
  | Return a => Some a
  | Throw _ => None
  end.

(** The rows [useVoting] keeps for one participant of one room. *)
Definition my_votes (roomId : Id) (participantId : string) (db : Db) : list (Doc Vote) :=
  Hooks.myVotes (useQuery (Votes.getVotes roomId) db) participantId.

(** A room of [total] participants of whom the first [done] have completed
    voting. *)
Definition crowd_db (total done : nat) : Db :=
  mkDb [mkDoc 0%nat (mkRoom "4821" "comedy" "p1" active 86400000 (Z.of_nat total) 0)]
       ((λ i, mkDoc (S i) (mkRoomParticipant 0%nat ("p" +:+ JS.toString (Z.of_nat i)) 0
                             (if decide (i < done)%nat then Some 1 else None)))
          <$> seq 0 total)
       [] [] (S total).

(** ** The whole store *)

Definition empty_store : Store := mkStore empty_db [] [] [] [] [].

(** No two stored movies share a TMDB id. *)
Definition tmdb_unique (db : Db) : Prop :=
  ∀ t, (length (filter (λ m, tmdbId (fields m) = t) (movies db)) ≤ 1)%nat.

(** The movie ids linked to a room, in the order of the links. *)
Definition linked_movies (roomId : Id) (s : Store) : list Id :=
  (λ rm, rm_movieId (fields rm))
    <$> filter (λ rm, rm_roomId (fields rm) = roomId) (roomMovies s).

(** The typing rows of one participant in one room. *)
Definition typing_of (roomId : Id) (participantId : string) (s : Store)
  : list (Doc TypingStatus) :=
  filter (λ t, ts_participantId (fields t) = participantId ∧ ts_roomId (fields t) = roomId)
         (typingStatus s).

Definition typing_unique (s : Store) : Prop :=
  ∀ roomId participantId, (length (typing_of roomId participantId s) ≤ 1)%nat.

(** The reactions of one participant to one message with one emoji. *)
Definition reactions_of (messageId : Id) (participantId emoji : string) (s : Store)
  : list (Doc MessageReaction) :=
  filter (λ r, mr_emoji (fields r) = emoji)
         (filter (λ r, mr_participantId (fields r) = participantId
                       ∧ mr_messageId (fields r) = messageId)
                 (messageReactions s)).

Definition reactions_unique (s : Store) : Prop :=
  ∀ messageId participantId emoji,
    (length (reactions_of messageId participantId emoji s) ≤ 1)%nat.

(** A text as [sendMessage] stores it: not empty, at most 500 code units,
    no white space at either end. *)
Definition stored_text (t : list Z) : Prop :=
  t ≠ [] ∧ (length t ≤ 500)%nat
  ∧ (∀ c, head t = Some c → Messages.is_white_space c = false)
  ∧ (∀ c, last t = Some c → Messages.is_white_space c = false).

(** Ids are unique in every table and below the counter. *)
Definition store_wf (s : Store) : Prop :=
  db_wf (core s)
  ∧ tbl_wf (nextId (core s)) (roomMovies s)
  ∧ tbl_wf (nextId (core s)) (messages s)
  ∧ tbl_wf (nextId (core s)) (messageReactions s)
  ∧ tbl_wf (nextId (core s)) (typingStatus s)
  ∧ tbl_wf (nextId (core s)) (voteReactions s).

(** [participantId] is among the users [getTypingUsers] reports at time [t]. *)
Definition is_typing (roomId : Id) (t : Z) (s : Store) (participantId : string) : Prop :=
  ∃ users, outcomeS (Presence.getTypingUsers roomId t) s = Return users
           ∧ participantId ∈ users.

(** ** Reactions grouped *)

(** The distinct strings of a list, in the order of their first occurrence. *)
Definition first_seen (ks : list string) : list string :=
  foldl (λ seen k, if decide (k ∈ seen) then seen else seen ++ [k]) [] ks.

(** The reactions to one message, in the order of the table. *)
Definition reactions_on (messageId : Id) (s : Store) : list (Doc MessageReaction) :=
  filter (λ r, mr_messageId (fields r) = messageId) (messageReactions s).

(** One group per emoji used on the message, first used first, with the
    participants who used it in the order of their reactions. *)
Definition spec_groups (rs : list (Doc MessageReaction)) : list Messages.EmojiGroup :=
  (λ e, let rs_e := filter (λ r, mr_emoji (fields r) = e) rs in
        Messages.mkEmojiGroup e (length rs_e)
                              ((λ r, mr_participantId (fields r)) <$> rs_e))
    <$> first_seen ((λ r, mr_emoji (fields r)) <$> rs).

(** The mutations beside the voting core, and the calls of the core. *)
Inductive Op :=
| Core (c : Call)
| AddMovie (tmdbId : Z) (title : string)
| LinkMoviesToRoom (roomId : Id) (movieIds : list Id)
| SendMessage (roomId : Id) (participantId : string) (message : list Z)
| AddReaction (messageId : Id) (participantId emoji : string)
| SetTypingStatus (roomId : Id) (participantId : string) (isTyping : bool)
| RecordVoteReaction (roomId movieId : Id) (participantId : string) (reaction : VoteType)
| CleanupOldReactions.

Definition with_core (db : Db) (s : Store) : Store :=
  mkStore db (roomMovies s) (messages s) (messageReactions s) (typingStatus s) (voteReactions s).

(** The store an operation leaves when it runs at time [now]. *)
Definition execS (o : Op) (now : Z) (s : Store) : Store :=
  match o with
  | Core c => with_core (exec c now (core s)) s
  | AddMovie tmdbId title => storeS (lift (VotingMovies.addMovie tmdbId title)) s
  | LinkMoviesToRoom roomId movieIds =>
      storeS (VotingMovies.linkMoviesToRoom roomId movieIds) s
  | SendMessage roomId participantId message =>
      storeS (Messages.sendMessage roomId participantId message now) s
  | AddReaction messageId participantId emoji =>
      storeS (Messages.addReaction messageId participantId emoji now) s
  | SetTypingStatus roomId participantId isTyping =>
      storeS (Presence.setTypingStatus roomId participantId isTyping now) s
  | RecordVoteReaction roomId movieId participantId reaction =>
      storeS (VoteReactions.recordVoteReaction roomId movieId participantId reaction now) s
  | CleanupOldReactions => storeS (VoteReactions.cleanupOldReactions now) s
  end.

Definition runS (trace : list (Op * Z)) (s : Store) : Store :=
  foldl (λ s o, execS o.1 o.2 s) s trace.

(** What every store reached from the empty one satisfies. *)
Definition store_ok (s : Store) : Prop :=
  store_wf s
  ∧ members_unique (core s) ∧ vote_keys_unique (core s) ∧ tmdb_unique (core s)
  ∧ typing_unique s ∧ reactions_unique s
  ∧ Forall (λ m, stored_text (message (fields m))) (messages s).

(** Ann opens a room for two films, writes, reacts and types. *)
Definition evening_trace : list (Op * Z) :=
  [(Core (CreateRoom "action" "ann" None half), 0);
   (AddMovie 603 "The Matrix", 1); (AddMovie 604 "The Matrix Reloaded", 2);
   (LinkMoviesToRoom 0%nat [2%nat; 3%nat], 3);
   (SendMessage 0%nat "ann" [32; 104; 105; 32], 4);
   (AddReaction 6%nat "ann" "+1", 5);
   (SetTypingStatus 0%nat "ann" true, 6);
   (RecordVoteReaction 0%nat 2%nat "ann" like, 7);
   (CleanupOldReactions, 6000)].

(** * Properties *)

(** ** Lists and tables *)

Section HeadFilter.
Context {A : Type} (P : A → Prop) {Pdec : ∀ x, Decision (P x)}.

Lemma head_filter_Some (l : list A) (x : A) :
  head (filter P l) = Some x → x ∈ l ∧ P x.
Proof.
  intros H. apply head_Some_elem_of in H.
  apply list_elem_of_filter in H. tauto.
Qed.

Lemma head_filter_None (l : list A) :
  head (filter P l) = None ↔ ∀ x, x ∈ l → ¬ P x.
Proof.
  rewrite head_None. split.
  - intros H x Hx HP. by eapply filter_nil_not_elem_of.
  - intros H. induction l as [|y l IH]; [done|].
    rewrite filter_cons_False; [|apply H; left].
    apply IH. intros x Hx. apply H. by right.
Qed.

Lemma head_filter_is_Some (l : list A) (x : A) :
  x ∈ l → P x → is_Some (head (filter P l)).
Proof.
  intros Hx HP. destruct (head (filter P l)) eqn:E; [by eexists|].
  rewrite head_filter_None in E. by destruct (E x).
Qed.
End HeadFilter.

Section TableFacts.
Context {A : Type}.
Implicit Types (t : Table A) (d : Doc A) (id : Id) (f : A → A).

Lemma tbl_get_Some id t d : tbl_get id t = Some d → d ∈ t ∧ _id d = id.
Proof. unfold tbl_get. apply (head_filter_Some (λ d, _id d = id)). Qed.

Lemma tbl_get_None id t : tbl_get id t = None ↔ ∀ d, d ∈ t → _id d ≠ id.
Proof. unfold tbl_get. apply (head_filter_None (λ d, _id d = id)). Qed.

Lemma tbl_get_elem_of t d : d ∈ t → is_Some (tbl_get (_id d) t).
Proof. intros Hd. by apply (head_filter_is_Some (λ d', _id d' = _id d) _ d). Qed.

Lemma tbl_get_patch id id' f t :
  tbl_get id (tbl_patch id' f t)
  = (λ d, if decide (_id d = id') then mkDoc (_id d) (f (fields d)) else d)
      <$> tbl_get id t.
Proof.
  unfold tbl_get, tbl_patch. induction t as [|d t IH]; [done|].
  rewrite fmap_cons, !filter_cons. cbn.
  destruct (decide (_id d = id')); cbn; destruct (decide (_id d = id)); cbn;
    rewrite ?decide_True, ?decide_False by done; done.
Qed.

Lemma tbl_patch_ids id f t : _id <$> tbl_patch id f t = _id <$> t.
Proof.
  unfold tbl_patch. rewrite <- list_fmap_compose. apply list_fmap_ext.
  intros _ d _. cbn. by destruct (decide (_id d = id)).
Qed.

Lemma tbl_patch_length id f t : length (tbl_patch id f t) = length t.
Proof. apply length_fmap. Qed.

Lemma tbl_patch_absent id f t : tbl_get id t = None → tbl_patch id f t = t.
Proof.
  rewrite tbl_get_None. intros H. unfold tbl_patch.
  induction t as [|d t IH]; [done|]. rewrite fmap_cons.
  rewrite decide_False by (apply H; left). f_equal.
  apply IH. intros d' Hd'. apply H. by right.
Qed.

Lemma tbl_wf_get n t d : tbl_wf n t → d ∈ t → tbl_get (_id d) t = Some d.
Proof.
  intros [Hnd _] Hd. unfold tbl_get.
  induction t as [|d' t IH]; [by apply elem_of_nil in Hd|].
  rewrite fmap_cons in Hnd. apply NoDup_cons in Hnd as [Hnotin Hnd].
  apply elem_of_cons in Hd as [->|Hd].
  - by rewrite filter_cons_True.
  - rewrite filter_cons_False; [by apply IH|].
    intros Heq. apply Hnotin. rewrite Heq. by apply list_elem_of_fmap_2.
Qed.

Lemma tbl_wf_patch n id f t : tbl_wf n t → tbl_wf n (tbl_patch id f t).
Proof.
  intros [Hnd Hlt]. split; [by rewrite tbl_patch_ids|].
  intros d Hd. apply list_elem_of_fmap in Hd as (d' & -> & Hd').
  specialize (Hlt d' Hd'). by destruct (decide (_id d' = id)).
Qed.

Lemma tbl_wf_delete n id t : tbl_wf n t → tbl_wf n (tbl_delete id t).
Proof.
  intros [Hnd Hlt]. split.
  - unfold tbl_delete. clear Hlt. induction t as [|d t IH]; [done|].
    rewrite fmap_cons in Hnd. apply NoDup_cons in Hnd as [Hnotin Hnd].
    rewrite filter_cons. destruct (decide (_id d ≠ id)); [|by apply IH].
    rewrite fmap_cons. apply NoDup_cons. split; [|by apply IH].
    intros Hin. apply Hnotin. apply list_elem_of_fmap in Hin as (d' & E & Hd').
    apply list_elem_of_filter in Hd' as [_ Hd']. rewrite E.
    by apply list_elem_of_fmap_2.
  - intros d Hd. apply list_elem_of_filter in Hd as [_ Hd]. by apply Hlt.
Qed.

Lemma tbl_wf_insert n a t : tbl_wf n t → tbl_wf (S n) (tbl_insert n a t).
Proof.
  intros [Hnd Hlt]. unfold tbl_insert. split.
  - rewrite fmap_app. apply NoDup_app. split; [done|]. split.
    + intros i Hi Hi'. cbn in Hi'. apply list_elem_of_singleton in Hi'. subst i.
      apply list_elem_of_fmap in Hi as (d & E & Hd). specialize (Hlt d Hd). lia.
    + cbn. apply NoDup_singleton.
  - intros d Hd. apply elem_of_app in Hd as [Hd|Hd].
    + specialize (Hlt d Hd). lia.
    + apply list_elem_of_singleton in Hd. subst d. cbn. lia.
Qed.

Lemma tbl_wf_mono n m t : (n ≤ m)%nat → tbl_wf n t → tbl_wf m t.
Proof. intros Hnm [Hnd Hlt]. split; [done|]. intros d Hd. specialize (Hlt d Hd). lia. Qed.
End TableFacts.

(** Unfolding a handler down to the store operations. *)
Ltac run_handler :=
  unfold outcome, store, first, filter_q, bind, ret, throw,
    db_get_room, db_get_movie, rooms_by_code, participants_by_room, votes_by_room,
    db_insert_room, db_insert_participant, db_insert_vote,
    db_patch_room, db_patch_participant, db_patch_vote, db_delete_participant in *;
  cbn [fst snd] in *.

(** ** Reading a room: lazy expiry *)

Lemma with_computed_status_view now r :
  lazy_expiry_view now r (Return (Some (Rooms.with_computed_status now r))).
Proof.
  unfold lazy_expiry_view, Rooms.with_computed_status.
  destruct (decide (expiresAt (fields r) < now ∧ status (fields r) = active))
    as [[Hlt Hact]|Hn].
  - split; [done|split; [tauto|]]. intros r' [= <-] _. cbn. congruence.
  - split; [tauto|split; [done|]]. intros r' [= <-] Hlt Hact. tauto.
Qed.


(** C8: [getRoom] and [getRoomByCode] leave the store, the stored status
    included, exactly as it was; for the room they find they return a copy
    with status [expired] when the stored status is [active] and
    [expiresAt < now], and the stored document otherwise, so neither reports
    [active] for a room past its [expiresAt]. *)
Theorem room_queries_side_effect_free (db : Db) (now : Z) :
  (∀ roomId, store (Rooms.getRoom roomId now) db = db)
  ∧ (∀ c, store (Rooms.getRoomByCode c now) db = db)
  ∧ (∀ roomId r, tbl_get roomId (rooms db) = Some r →
       lazy_expiry_view now r (outcome (Rooms.getRoom roomId now) db))
  ∧ (∀ c r, head (filter (λ r, code (fields r) = c) (rooms db)) = Some r →
       lazy_expiry_view now r (outcome (Rooms.getRoomByCode c now) db))
  ∧ (∀ roomId, tbl_get roomId (rooms db) = None →
       outcome (Rooms.getRoom roomId now) db = Return None)
  ∧ (∀ c, head (filter (λ r, code (fields r) = c) (rooms db)) = None →
       outcome (Rooms.getRoomByCode c now) db = Return None).
Proof.
  split; [|split; [|split; [|split; [|split]]]].
  - intros roomId. unfold Rooms.getRoom. run_handler.
    by destruct (tbl_get roomId (rooms db)).
  - intros c. unfold Rooms.getRoomByCode. run_handler.
    by destruct (head (filter _ (rooms db))).
  - intros roomId r H. unfold Rooms.getRoom. run_handler. rewrite H. cbn.
    apply with_computed_status_view.
  - intros c r H. unfold Rooms.getRoomByCode. run_handler. rewrite H. cbn.
    apply with_computed_status_view.
  - intros roomId H. unfold Rooms.getRoom. run_handler. by rewrite H.
  - intros c H. unfold Rooms.getRoomByCode. run_handler. by rewrite H.
Qed.

(** ** Joining an expired room *)




(** ** Completion tracking: the two [markVotingComplete] *)

Lemma membership_elem_of roomId participantId db p :
  membership roomId participantId db = Some p →
  p ∈ roomParticipants db
  ∧ rp_roomId (fields p) = roomId ∧ rp_participantId (fields p) = participantId.
Proof.
  intros H. apply head_filter_Some in H as [H ?].
  apply list_elem_of_filter in H as [? ?]. done.
Qed.

Lemma complete_participant_sets id t db p :
  p ∈ roomParticipants (complete_participant id t db) → _id p = id →
  votingCompletedAt (fields p) = t.
Proof.
  cbn. intros Hp Hid. apply list_elem_of_fmap in Hp as (p0 & -> & _).
  destruct (decide (_id p0 = id)); [done|]. cbn in Hid. done.
Qed.

(** C9: on a participant whose [votingCompletedAt] is already set (to a
    clock value, which is not [0]), [rooms.markVotingComplete] throws and
    leaves the store as it was, while [votes.markVotingComplete] succeeds and
    overwrites the timestamp with [now]; on a participant whose
    [votingCompletedAt] is unset, both set it to [now] and succeed. *)
Theorem markVotingComplete_disagree
    (db : Db) (roomId : Id) (participantId : string) (now : Z)
    (p : Doc RoomParticipant) :
  membership roomId participantId db = Some p →
  (∀ t, votingCompletedAt (fields p) = Some t → t ≠ 0 →
     outcome (Rooms.markVotingComplete roomId participantId now) db
       = Throw "Voting already completed"
     ∧ store (Rooms.markVotingComplete roomId participantId now) db = db
     ∧ outcome (Votes.markVotingComplete roomId participantId now) db
       = Return (mkSuccess true)
     ∧ store (Votes.markVotingComplete roomId participantId now) db
       = complete_participant (_id p) (Some now) db)
  ∧ (votingCompletedAt (fields p) = None →
     outcome (Rooms.markVotingComplete roomId participantId now) db
       = Return (mkSuccess true)
     ∧ store (Rooms.markVotingComplete roomId participantId now) db
       = complete_participant (_id p) (Some now) db
     ∧ outcome (Votes.markVotingComplete roomId participantId now) db
       = Return (mkSuccess true)
     ∧ store (Votes.markVotingComplete roomId participantId now) db
       = complete_participant (_id p) (Some now) db)
  ∧ (∀ p', p' ∈ roomParticipants (complete_participant (_id p) (Some now) db) →
     _id p' = _id p → votingCompletedAt (fields p') = Some now).
Proof.
  intros Hm. pose proof (membership_elem_of _ _ _ _ Hm) as (Hin & _ & _).
  destruct (tbl_get_elem_of _ _ Hin) as [p2 Hp2].
  unfold membership in Hm.
  split; [|split].
  - intros t Ht Hnz.
    unfold Rooms.markVotingComplete, Votes.markVotingComplete. run_handler.
    rewrite Hm. cbn. rewrite Ht. cbn. rewrite bool_decide_true by done.
    by rewrite Hp2.
  - intros Hnone.
    unfold Rooms.markVotingComplete, Votes.markVotingComplete. run_handler.
    rewrite Hm. cbn. rewrite Hnone. cbn. by rewrite Hp2.
  - intros p' Hp' Hid. by eapply complete_participant_sets.
Qed.

Lemma markVotingComplete_disagree_witness :
  outcome (Rooms.markVotingComplete 0%nat "ann" 900) completed_db
    = Throw "Voting already completed"
  ∧ outcome (Votes.markVotingComplete 0%nat "ann" 900) completed_db
    = Return (mkSuccess true)
  ∧ roomParticipants (store (Votes.markVotingComplete 0%nat "ann" 900) completed_db)
    = [mkDoc 1%nat (mkRoomParticipant 0%nat "ann" 0 (Some 900))].
Proof.
  pose proof (markVotingComplete_disagree completed_db 0%nat "ann" 900
                (mkDoc 1%nat (mkRoomParticipant 0%nat "ann" 0 (Some 500)))
                eq_refl) as (Hset & _ & _).
  destruct (Hset 500 eq_refl ltac:(lia)) as (H1 & _ & H3 & H4).
  split; [exact H1|]. split; [exact H3|]. rewrite H4. reflexivity.
Defined.

(** ** [submitVote]: absent room, absent movie *)



(** ** Room codes *)





(** ** [createRoom]: allocating the code *)

Lemma code_taken (c : string) (db : Db) :
  head (filter (λ r, code (fields r) = c) (rooms db)) = None ↔ c ∉ room_codes db.
Proof.
  rewrite head_filter_None. unfold room_codes. split.
  - intros H Hin. apply list_elem_of_fmap in Hin as (r & -> & Hr). by apply (H r).
  - intros H r Hr Hc. apply H. rewrite <- Hc. by apply (list_elem_of_fmap_2 (λ r, code (fields r))).
Qed.

(** The loop stops at the first of the draws [0..9] whose code is free, or
    at [attempts = 10] when there is none; it never writes. *)
Lemma code_loop_spec (fuel : nat) (rnd : nat → Q) (attempts : nat) (db : Db) :
  (10 - attempts ≤ fuel)%nat → (attempts ≤ 10)%nat →
  ∃ a, Rooms.code_loop fuel rnd (Rooms.generateRoomCode (rnd attempts)) attempts db
       = (Return (Rooms.generateRoomCode (rnd a), a), db)
       ∧ (attempts ≤ a ≤ 10)%nat
       ∧ (∀ k, (attempts ≤ k < a)%nat → Rooms.generateRoomCode (rnd k) ∈ room_codes db)
       ∧ ((a < 10)%nat → Rooms.generateRoomCode (rnd a) ∉ room_codes db).
Proof.
  revert attempts. induction fuel as [|fuel IH]; intros attempts Hfuel Hle.
  - exists attempts. cbn. unfold ret. repeat split; try lia.
  - cbn [Rooms.code_loop]. destruct (decide (attempts < 10)%nat) as [Hlt|Hge].
    + run_handler.
      destruct (head (filter _ (rooms db))) as [r|] eqn:Hhead.
      * destruct (IH (S attempts)) as (a & Heq & Ha & Htaken & Hfree); [lia|lia|].
        exists a. split; [exact Heq|]. split; [lia|]. split; [|done].
        intros k Hk. destruct (decide (k = attempts)) as [->|Hne].
        -- destruct (decide (Rooms.generateRoomCode (rnd attempts) ∈ room_codes db))
             as [|Hnot]; [done|].
           apply code_taken in Hnot. congruence.
        -- apply Htaken. lia.
      * exists attempts. split; [done|]. split; [lia|]. split; [lia|].
        intros _. by apply code_taken.
    + exists attempts. unfold ret. repeat split; try lia.
Qed.

(** The loop needs no more than ten rounds: more fuel changes nothing. *)
Lemma code_loop_fuel (fuel : nat) (rnd : nat → Q) (db : Db) :
  (10 ≤ fuel)%nat →
  Rooms.code_loop fuel rnd (Rooms.generateRoomCode (rnd 0%nat)) 0 db
  = Rooms.code_loop 10 rnd (Rooms.generateRoomCode (rnd 0%nat)) 0 db.
Proof.
  intros Hfuel.
  destruct (code_loop_spec fuel rnd 0 db) as (a & -> & Ha & Ht & Hf); [lia|lia|].
  destruct (code_loop_spec 10 rnd 0 db) as (b & -> & Hb & Ht' & Hf'); [lia|lia|].
  assert (a = b) as ->; [|done].
  destruct (decide (a < b)%nat) as [Hab|Hab].
  { exfalso. apply Hf; [lia|]. apply Ht'. lia. }
  destruct (decide (b < a)%nat) as [Hba|Hba]; [|lia].
  exfalso. apply Hf'; [lia|]. apply Ht. lia.
Qed.


(** ** Every call has one of the effects *)

Lemma tbl_get_self {A} (id : Id) (t : Table A) (d : Doc A) :
  tbl_get id t = Some d → tbl_get (_id d) t = Some d.
Proof. intros H. pose proof (tbl_get_Some _ _ _ H) as [_ ->]. done. Qed.

Lemma createRoom_effect category hostId maxP rnd now db :
  ∃ e, may (CreateRoom category hostId maxP rnd) now e ∧ effect_ok db e
       ∧ store (Rooms.createRoom category hostId maxP rnd now) db = apply_effect e db.
Proof.
  destruct (code_loop_spec 10 rnd 0 db) as (a & Hloop & Ha & Htaken & Hfree);
    [lia|lia|].
  unfold Rooms.createRoom, store, bind. rewrite Hloop. cbn [fst snd].
  destruct (decide (a = 10%nat)) as [->|Hne].
  - exists Stay. done.
  - exists (Created (new_room (Rooms.generateRoomCode (rnd a)) category hostId maxP now)
                    hostId now).
    split; [cbn; repeat split; lia|]. split; [|done].
    cbn. split; [done|]. apply Hfree. lia.
Qed.

Lemma joinRoom_effect roomId participantId now db :
  ∃ e, may (JoinRoom roomId participantId) now e ∧ effect_ok db e
       ∧ store (Rooms.joinRoom roomId participantId now) db = apply_effect e db.
Proof.
  unfold Rooms.joinRoom. run_handler.
  destruct (tbl_get roomId (rooms db)) as [room|] eqn:Hroom; [|by exists Stay].
  pose proof (tbl_get_Some _ _ _ Hroom) as [Hin Hid].
  destruct (decide (status (fields room) ≠ active)) as [|Hact]; [by exists Stay|].
  apply dec_stable in Hact.
  destruct (decide (expiresAt (fields room) < now)).
  { rewrite (tbl_get_self _ _ _ Hroom). cbn. exists (Expired roomId).
    split; [done|]. split; [by exists room|]. by rewrite Hid. }
  destruct (head (filter _ (filter _ (roomParticipants db)))) eqn:Hmem;
    [by exists Stay|].
  cbn. destruct (decide (_ >= _)) as [|Hcap]; [by exists Stay|].
  exists (Joined (mkRoomParticipant roomId participantId now None)).
  split; [done|]. split; [|done].
  exists room. cbn. unfold participants_of. repeat split; try done. lia.
Qed.

Lemma joinRoomByCode_effect roomCode participantId now db :
  ∃ e, may (JoinRoomByCode roomCode participantId) now e ∧ effect_ok db e
       ∧ store (Rooms.joinRoomByCode roomCode participantId now) db = apply_effect e db.
Proof.
  unfold Rooms.joinRoomByCode. run_handler.
  destruct (head (filter _ (rooms db))) as [room|] eqn:Hroom; [|by exists Stay].
  cbn. pose proof (head_filter_Some _ _ _ Hroom) as [Hin Hcode].
  destruct (decide (status (fields room) ≠ active)) as [|Hact]; [by exists Stay|].
  apply dec_stable in Hact.
  destruct (decide (expiresAt (fields room) < now)).
  { destruct (tbl_get_elem_of _ _ Hin) as [r2 ->]. cbn. exists (Expired (_id room)).
    split; [done|]. split; [by exists room|done]. }
  destruct (head (filter _ (filter _ (roomParticipants db)))) eqn:Hmem;
    [by exists Stay|].
  cbn. destruct (decide (_ >= _)) as [|Hcap]; [by exists Stay|].
  exists (Joined (mkRoomParticipant (_id room) participantId now None)).
  split; [done|]. split; [|done].
  exists room. cbn. unfold participants_of. repeat split; try done. lia.
Qed.

Lemma leaveRoom_effect roomId participantId now db :
  ∃ e, may (LeaveRoom roomId participantId) now e ∧ effect_ok db e
       ∧ store (Rooms.leaveRoom roomId participantId) db = apply_effect e db.
Proof.
  unfold Rooms.leaveRoom. run_handler.
  destruct (head (filter _ (filter _ (roomParticipants db)))) as [p|] eqn:Hmem;
    [|by exists Stay].
  cbn. pose proof (membership_elem_of _ _ _ _ Hmem) as (Hin & Hroom & _).
  destruct (tbl_get_elem_of _ _ Hin) as [p2 ->]. cbn.
  destruct (decide (length _ = 0%nat)) as [Hlen|Hlen].
  - apply nil_length_inv in Hlen. cbn.
    destruct (tbl_get roomId (rooms db)) eqn:Hget; cbn.
    + exists (LeftLast (_id p) roomId). split; [done|]. split; [|done].
      split; [by exists p|exact Hlen].
    + exists (Left (_id p)). split; [done|]. split; [by exists p|done].
  - exists (Left (_id p)). split; [done|]. split; [by exists p|done].
Qed.

Lemma submitVote_effect roomId movieId participantId voteType now db :
  ∃ e, may (SubmitVote roomId movieId participantId voteType) now e ∧ effect_ok db e
       ∧ store (Votes.submitVote roomId movieId participantId voteType now) db
         = apply_effect e db.
Proof.
  unfold Votes.submitVote. run_handler.
  destruct (tbl_get roomId (rooms db)) as [room|] eqn:Hroom; [|by exists Stay].
  pose proof (tbl_get_Some _ _ _ Hroom) as [Hin Hid].
  destruct (decide (status (fields room) ≠ active)) as [|Hact]; [by exists Stay|].
  apply dec_stable in Hact.
  destruct (decide (expiresAt (fields room) < now)).
  { rewrite (tbl_get_self _ _ _ Hroom). cbn. exists (Expired roomId).
    split; [done|]. split; [by exists room|]. by rewrite Hid. }
  destruct (head (filter _ (filter _ (roomParticipants db)))) as [p|] eqn:Hmem;
    [|by exists Stay].
  cbn. destruct (tbl_get movieId (movies db)) as [m|] eqn:Hmovie; [|by exists Stay].
  cbn. destruct (head (filter _ (filter _ (votes db)))) as [v|] eqn:Hvote; cbn.
  - pose proof (head_filter_Some _ _ _ Hvote) as [Hv _].
    apply list_elem_of_filter in Hv as [_ Hv].
    destruct (tbl_get_elem_of _ _ Hv) as [v2 ->]. cbn.
    exists (Revoted (_id v) voteType now). split; [done|]. split; [by exists v|done].
  - exists (Voted (mkVote roomId movieId participantId voteType now)).
    split; [done|]. split; [|done]. cbn. unfold votes_of, membership.
    rewrite Hmem. apply head_None in Hvote. by rewrite Hvote.
Qed.

Lemma markVotingComplete_effect roomId participantId now db :
  ∃ e, may (MarkVotingComplete roomId participantId) now e ∧ effect_ok db e
       ∧ store (Rooms.markVotingComplete roomId participantId now) db = apply_effect e db.
Proof.
  unfold Rooms.markVotingComplete. run_handler.
  destruct (head (filter _ (filter _ (roomParticipants db)))) as [p|] eqn:Hmem;
    [|by exists Stay].
  cbn. destruct (truthy _); [by exists Stay|].
  pose proof (membership_elem_of _ _ _ _ Hmem) as (Hin & _ & _).
  destruct (tbl_get_elem_of _ _ Hin) as [p2 ->]. cbn.
  by exists (Marked (_id p) (Some now)).
Qed.

Lemma markVotingCompleteVotes_effect roomId participantName now db :
  ∃ e, may (MarkVotingCompleteVotes roomId participantName) now e ∧ effect_ok db e
       ∧ store (Votes.markVotingComplete roomId participantName now) db
         = apply_effect e db.
Proof.
  unfold Votes.markVotingComplete. run_handler.
  destruct (head (filter _ (filter _ (roomParticipants db)))) as [p|] eqn:Hmem;
    [|by exists Stay].
  cbn. pose proof (membership_elem_of _ _ _ _ Hmem) as (Hin & _ & _).
  destruct (tbl_get_elem_of _ _ Hin) as [p2 ->]. cbn.
  by exists (Marked (_id p) (Some now)).
Qed.

Lemma resetVotingCompletion_effect roomId participantId now db :
  ∃ e, may (ResetVotingCompletion roomId participantId) now e ∧ effect_ok db e
       ∧ store (Votes.resetVotingCompletion roomId participantId) db = apply_effect e db.
Proof.
  unfold Votes.resetVotingCompletion. run_handler.
  destruct (head (filter _ (filter _ (roomParticipants db)))) as [p|] eqn:Hmem;
    [|by exists Stay].
  cbn. pose proof (membership_elem_of _ _ _ _ Hmem) as (Hin & _ & _).
  destruct (tbl_get_elem_of _ _ Hin) as [p2 ->]. cbn.
  by exists (Marked (_id p) None).
Qed.

Lemma exec_effect (c : Call) (now : Z) (db : Db) :
  ∃ e, may c now e ∧ effect_ok db e ∧ exec c now db = apply_effect e db.
Proof.
  destruct c; cbn [exec].
  - apply createRoom_effect.
  - apply joinRoom_effect.
  - apply joinRoomByCode_effect.
  - apply leaveRoom_effect.
  - apply submitVote_effect.
  - apply markVotingComplete_effect.
  - apply markVotingCompleteVotes_effect.
  - apply resetVotingCompletion_effect.
Qed.

(** ** More on tables *)

Section TableFacts2.
Context {A : Type}.
Implicit Types (t : Table A) (d : Doc A) (id : Id) (f : A → A).

Lemma tbl_wf_inj n t d1 d2 :
  tbl_wf n t → d1 ∈ t → d2 ∈ t → _id d1 = _id d2 → d1 = d2.
Proof.
  intros Hwf H1 H2 Heq.
  pose proof (tbl_wf_get _ _ _ Hwf H1) as E1.
  pose proof (tbl_wf_get _ _ _ Hwf H2) as E2.
  rewrite Heq in E1. congruence.
Qed.

Lemma filter_tbl_patch (Q : A → Prop) {Qdec : ∀ a, Decision (Q a)} id f t :
  (∀ a, Q (f a) ↔ Q a) →
  filter (λ d, Q (fields d)) (tbl_patch id f t)
  = tbl_patch id f (filter (λ d, Q (fields d)) t).
Proof.
  intros Hf. unfold tbl_patch. induction t as [|d t IH]; [done|].
  rewrite fmap_cons, !filter_cons.
  destruct (decide (_id d = id)); cbn.
  - destruct (decide (Q (f (fields d)))) as [HQ|HQ];
      destruct (decide (Q (fields d))) as [HQ'|HQ'].
    + rewrite fmap_cons, decide_True by done. by rewrite IH.
    + exfalso. apply HQ'. by apply Hf.
    + exfalso. apply HQ. by apply Hf.
    + done.
  - destruct (decide (Q (fields d))); [|done].
    rewrite fmap_cons, decide_False by done. by rewrite IH.
Qed.

Lemma tbl_patch_elem_of id f t d :
  d ∈ tbl_patch id f t →
  ∃ d0, d0 ∈ t ∧ _id d = _id d0
        ∧ (d = d0 ∨ (_id d0 = id ∧ fields d = f (fields d0))).
Proof.
  intros Hd. apply list_elem_of_fmap in Hd as (d0 & -> & Hd0).
  exists d0. split; [done|]. destruct (decide (_id d0 = id)); cbn; auto.
Qed.

Lemma tbl_delete_elem_of id t d : d ∈ tbl_delete id t → d ∈ t.
Proof. intros Hd. by apply list_elem_of_filter in Hd as [_ ?]. Qed.

Lemma filter_tbl_delete_length (P : Doc A → Prop) {Pdec : ∀ d, Decision (P d)} id t :
  (length (filter P (tbl_delete id t)) ≤ length (filter P t))%nat.
Proof.
  unfold tbl_delete. rewrite list_filter_filter.
  induction t as [|d t IH]; [done|].
  rewrite !filter_cons. destruct (decide (P d ∧ _id d ≠ id)) as [[HP _]|Hn].
  - rewrite decide_True by done. cbn. lia.
  - destruct (decide (P d)); cbn; lia.
Qed.
End TableFacts2.

(** ** Well-formedness is preserved *)

Lemma empty_db_wf : db_wf empty_db.
Proof.
  unfold db_wf, tbl_wf, empty_db. cbn.
  repeat split; try apply NoDup_nil_2; intros ? H; by apply elem_of_nil in H.
Qed.

Ltac split_wf :=
  unfold db_wf, add_participant, add_room, add_vote, remove_participant,
    complete_room, expire_room, complete_participant, patch_vote;
  cbn [rooms roomParticipants movies votes nextId];
  split; [|split; [|split; [|split]]].

Lemma effect_wf (db : Db) (e : Effect) :
  db_wf db → effect_ok db e → db_wf (apply_effect e db).
Proof.
  intros (Hr & Hp & Hm & Hv & Href) Hok. destruct e; cbn [apply_effect].
  - done.
  - split_wf.
    + apply (tbl_wf_mono (S (nextId db))); [lia|]. by apply tbl_wf_insert.
    + apply tbl_wf_insert. by apply (tbl_wf_mono (nextId db)); [lia|].
    + apply (tbl_wf_mono (nextId db)); [lia|done].
    + apply (tbl_wf_mono (nextId db)); [lia|done].
    + intros p Hin. apply elem_of_app in Hin as [Hin|Hin].
      * specialize (Href p Hin). lia.
      * apply list_elem_of_singleton in Hin. subst p. cbn. lia.
  - split_wf; try done. by apply tbl_wf_patch.
  - destruct Hok as (room & Hin & Hid & _). split_wf.
    + apply (tbl_wf_mono (nextId db)); [lia|done].
    + by apply tbl_wf_insert.
    + apply (tbl_wf_mono (nextId db)); [lia|done].
    + apply (tbl_wf_mono (nextId db)); [lia|done].
    + intros q Hq. apply elem_of_app in Hq as [Hq|Hq].
      * specialize (Href q Hq). lia.
      * apply list_elem_of_singleton in Hq. subst q. cbn. rewrite <- Hid.
        destruct Hr as [_ Hlt]. specialize (Hlt room Hin). lia.
  - split_wf; try done; [by apply tbl_wf_delete|].
    intros q Hq. apply Href. by eapply tbl_delete_elem_of.
  - split_wf; try done; [by apply tbl_wf_patch|by apply tbl_wf_delete|].
    intros q Hq. apply Href. by eapply tbl_delete_elem_of.
  - split_wf; try done; [by apply tbl_wf_patch|].
    intros q Hq. apply tbl_patch_elem_of in Hq as (q0 & Hq0 & _ & [->|[_ ->]]);
      by apply Href.
  - split_wf.
    + apply (tbl_wf_mono (nextId db)); [lia|done].
    + apply (tbl_wf_mono (nextId db)); [lia|done].
    + apply (tbl_wf_mono (nextId db)); [lia|done].
    + by apply tbl_wf_insert.
    + intros q Hq. specialize (Href q Hq). lia.
  - split_wf; try done. by apply tbl_wf_patch.
Qed.

Lemma exec_wf (c : Call) (now : Z) (db : Db) : db_wf db → db_wf (exec c now db).
Proof.
  intros Hwf. destruct (exec_effect c now db) as (e & _ & Hok & ->).
  by apply effect_wf.
Qed.

Lemma run_wf (trace : list (Call * Z)) (db : Db) : db_wf db → db_wf (run trace db).
Proof.
  revert db. induction trace as [|[c now] trace IH]; intros db Hwf; [done|].
  cbn. apply IH. by apply exec_wf.
Qed.

(** ** Codes stay distinct *)




Lemma createRoom_success category hostId maxP rnd now db ref :
  outcome (Rooms.createRoom category hostId maxP rnd now) db = Return ref →
  (roomCode ref ∉ room_codes db)
  ∧ roomId ref = nextId db
  ∧ store (Rooms.createRoom category hostId maxP rnd now) db
    = apply_effect (Created (new_room (roomCode ref) category hostId maxP now) hostId now) db.
Proof.
  destruct (code_loop_spec 10 rnd 0 db) as (a & Hloop & Ha & Htaken & Hfree);
    [lia|lia|].
  unfold Rooms.createRoom, outcome, store, bind. rewrite Hloop. cbn [fst snd].
  destruct (decide (a = 10%nat)) as [->|Hne]; [done|].
  cbn. intros [= <-]. cbn. split; [apply Hfree; lia|done].
Qed.



(** ** Capacity *)

Lemma participants_of_insert roomId n p t :
  filter (λ q, rp_roomId (fields q) = roomId) (tbl_insert n p t)
  = filter (λ q, rp_roomId (fields q) = roomId) t
    ++ (if decide (rp_roomId p = roomId) then [mkDoc n p] else []).
Proof. unfold tbl_insert. by rewrite filter_app, filter_singleton. Qed.









(** ** Status transitions *)

Lemma tbl_get_insert_old {A} (n : Id) (a : A) (t : Table A) (d : Doc A) :
  tbl_get (_id d) t = Some d → tbl_get (_id d) (tbl_insert n a t) = Some d.
Proof.
  unfold tbl_get, tbl_insert. intros H. rewrite filter_app.
  apply head_Some in H as [l' ->]. done.
Qed.

(** One effect changes the stored status of a room only from [active] to
    [expired], or to [completed] when the last participant leaves. *)
Lemma effect_status (db : Db) (e : Effect) (r : Doc Room) :
  db_wf db → effect_ok db e → r ∈ rooms db →
  ∃ r', tbl_get (_id r) (rooms (apply_effect e db)) = Some r'
        ∧ (status (fields r') = status (fields r)
           ∨ (status (fields r) = active ∧ status (fields r') = expired
              ∧ e = Expired (_id r))
           ∨ (status (fields r') = completed
              ∧ ∃ id, e = LeftLast id (_id r))).
Proof.
  intros (Hr & _) Hok Hin. pose proof (tbl_wf_get _ _ _ Hr Hin) as Hget.
  destruct e as [|r0 host t0|id|p|id|id rid|id t0|v|id ty t0]; cbn [apply_effect];
    try (exists r; split; [exact Hget|by left]).
  - exists r. split; [|by left].
    unfold add_participant, add_room. cbn [rooms]. by apply tbl_get_insert_old.
  - unfold expire_room. cbn [rooms]. rewrite tbl_get_patch, Hget. cbn.
    destruct (decide (_id r = id)) as [<-|Hne].
    + eexists. split; [done|]. right. left. cbn.
      destruct Hok as (room & Hroom & Hid & Hact).
      assert (room = r) as -> by (by eapply tbl_wf_inj). done.
    + exists r. split; [done|by left].
  - unfold complete_room, remove_participant. cbn [rooms].
    rewrite tbl_get_patch, Hget. cbn.
    destruct (decide (_id r = rid)) as [<-|Hne].
    + eexists. split; [done|]. right. right. cbn. split; [done|by exists id].
    + exists r. split; [done|by left].
Qed.

Lemma exec_status (c : Call) (now : Z) (db : Db) (r : Doc Room) :
  db_wf db → r ∈ rooms db → status (fields r) ≠ active →
  ∃ r', tbl_get (_id r) (rooms (exec c now db)) = Some r'
        ∧ (status (fields r') = status (fields r)
           ∨ (status (fields r) = expired ∧ status (fields r') = completed
              ∧ (∃ participantId, c = LeaveRoom (_id r) participantId)
              ∧ participants_of (_id r) (exec c now db) = [])).
Proof.
  intros Hwf Hin Hst. destruct (exec_effect c now db) as (e & Hmay & Hok & ->).
  destruct (effect_status db e r Hwf Hok Hin) as (r' & Hget & H).
  exists r'. split; [done|].
  destruct H as [H|[(Hact & _)|(Hcompl & id & ->)]]; [by left|done|].
  destruct (status (fields r)) eqn:Hs; [done|left; congruence|].
  right. split; [done|]. split; [done|].
  destruct c as [| | |rid pid| | | |]; cbn in Hmay; try done. subst rid.
  split; [by eexists|]. by destruct Hok as [_ ?].
Qed.

Lemma run_status (trace : list (Call * Z)) (db : Db) (r : Doc Room) :
  db_wf db → r ∈ rooms db → status (fields r) ≠ active →
  ∃ r', tbl_get (_id r) (rooms (run trace db)) = Some r'
        ∧ status (fields r') ≠ active
        ∧ (status (fields r) = completed → status (fields r') = completed).
Proof.
  revert db r. induction trace as [|[c now] trace IH]; intros db r Hwf Hin Hst.
  - exists r. split; [|done]. destruct Hwf as [Hr _]. by eapply tbl_wf_get.
  - cbn. destruct (exec_status c now db r Hwf Hin Hst) as (r1 & Hget & H).
    pose proof (tbl_get_Some _ _ _ Hget) as [Hin1 Hid1].
    assert (Hst1 : status (fields r1) ≠ active).
    { destruct H as [->|(_ & -> & _)]; done. }
    destruct (IH (exec c now db) r1 (exec_wf c now db Hwf) Hin1 Hst1)
      as (r' & Hget' & Hst' & Hcompl).
    exists r'. rewrite <- Hid1. split; [done|]. split; [done|].
    intros Hc. apply Hcompl. destruct H as [->|(He & _)]; [done|congruence].
Qed.




(** ** Grouping by key: the [reduce] of the two result queries *)

Lemma keys_seen_snoc ks k :
  keys_seen (ks ++ [k])
  = if decide (k ∈ keys_seen ks) then keys_seen ks else keys_seen ks ++ [k].
Proof. unfold keys_seen. by rewrite foldl_app. Qed.

Lemma keys_seen_elem_of ks k : k ∈ keys_seen ks ↔ k ∈ ks.
Proof.
  induction ks as [|k' ks IH] using rev_ind.
  - done.
  - rewrite keys_seen_snoc. destruct (decide (k' ∈ keys_seen ks)) as [Hin|Hnin].
    + rewrite IH, elem_of_app, list_elem_of_singleton. split; [tauto|].
      intros [? | ->]; [done|]. by apply IH.
    + by rewrite !elem_of_app, IH.
Qed.

Lemma keys_seen_NoDup ks : NoDup (keys_seen ks).
Proof.
  induction ks as [|k ks IH] using rev_ind.
  - apply NoDup_nil_2.
  - rewrite keys_seen_snoc. destruct (decide (k ∈ keys_seen ks)); [done|].
    apply NoDup_app. split; [done|]. split; [|apply NoDup_singleton].
    intros k' Hk' Hk. apply list_elem_of_singleton in Hk. by subst k'.
Qed.

Section Grouping.
Context {V D : Type} (key : V → Id) (init : Id → D) (step : V → D → D).
Local Abbreviation upsert_step := (upsert_step key init step).
Local Abbreviation aggregate := (aggregate key init step).

Lemma obj_get_keys (o : Obj D) (k : Id) : obj_get k o = None ↔ k ∉ o.*1.
Proof.
  unfold obj_get. rewrite fmap_None, head_filter_None. split.
  - intros H Hin. apply list_elem_of_fmap in Hin as ([k' d] & -> & Hin). by apply (H _ Hin).
  - intros H [k' d] Hin Heq. cbn in Heq. subst k'.
    apply H. by apply (list_elem_of_fmap_2 fst) in Hin.
Qed.

Lemma obj_set_new (o : Obj D) (k : Id) (d : D) :
  obj_get k o = None → obj_set k d o = o ++ [(k, d)].
Proof. unfold obj_set. by intros ->. Qed.

Lemma group_fold (l : list V) :
  foldl upsert_step [] l = (λ k, (k, aggregate k l)) <$> keys_seen (key <$> l).
Proof.
  induction l as [|v l IH] using rev_ind; [done|].
  rewrite foldl_app, IH, fmap_app. cbn [foldl fmap list_fmap].
  rewrite keys_seen_snoc.
  unfold upsert_step.
  set (acc := (λ k, (k, aggregate k l)) <$> keys_seen (key <$> l)).
  assert (Hkeys : acc.*1 = keys_seen (key <$> l)).
  { unfold acc. rewrite <- list_fmap_compose. apply list_fmap_id. }
  assert (Hold : ∀ k, k ≠ key v → aggregate k (l ++ [v]) = aggregate k l).
  { intros k Hk. unfold aggregate.
    by rewrite filter_app, filter_singleton_False, app_nil_r. }
  assert (Hnew : aggregate (key v) (l ++ [v]) = step v (aggregate (key v) l)).
  { unfold aggregate. by rewrite filter_app, filter_singleton_True, foldl_app. }
  assert (Hmod : obj_modify (key v) (step v) acc
                 = (λ k, (k, aggregate k (l ++ [v]))) <$> keys_seen (key <$> l)).
  { unfold obj_modify, acc. rewrite <- list_fmap_compose. apply list_fmap_ext.
    intros _ k _. cbn. destruct (decide (k = key v)) as [->|Hne].
    - by rewrite Hnew.
    - by rewrite Hold. }
  destruct (decide (key v ∈ keys_seen (key <$> l))) as [Hin|Hnin].
  - destruct (obj_get (key v) acc) eqn:Hget.
    + exact Hmod.
    + apply obj_get_keys in Hget. by rewrite Hkeys in Hget.
  - assert (Hget : obj_get (key v) acc = None) by (by apply obj_get_keys; rewrite Hkeys).
    rewrite Hget, (obj_set_new _ _ _ Hget). unfold obj_modify.
    rewrite fmap_app. fold (obj_modify (key v) (step v) acc). rewrite Hmod.
    rewrite fmap_app. f_equal. cbn. rewrite decide_True by done. do 2 f_equal.
    rewrite Hnew. f_equal. unfold aggregate.
    assert (Hnone : filter (λ v', key v' = key v) l = []).
    { apply head_None, head_filter_None. intros v' Hv' Heq. apply Hnin.
      apply keys_seen_elem_of. rewrite <- Heq. by apply list_elem_of_fmap_2. }
    by rewrite Hnone.
Qed.
End Grouping.

(** ** Sorting *)

Section SortFacts.
Context {A : Type} (cmp : A → A → Z).

Lemma insert_by_perm (x : A) (l : list A) : insert_by cmp x l ≡ₚ x :: l.
Proof.
  induction l as [|y l IH]; [done|]. cbn.
  destruct (decide (cmp x y ≤ 0)); [done|].
  rewrite IH. apply Permutation_swap.
Qed.

Lemma Array_sort_perm (l : list A) : Array_sort cmp l ≡ₚ l.
Proof.
  induction l as [|x l IH]; [done|]. cbn.
  rewrite insert_by_perm. by rewrite IH.
Qed.

(** When the comparator is a total preorder, the result is ordered by it. *)
Context (R : A → A → Prop).
Context (cmp_le : ∀ x y, cmp x y ≤ 0 → R x y).
Context (cmp_gt : ∀ x y, ¬ cmp x y ≤ 0 → R y x).
Context (R_trans : ∀ x y z, R x y → R y z → R x z).

Lemma insert_by_sorted (x : A) (l : list A) :
  StronglySorted R l → StronglySorted R (insert_by cmp x l).
Proof.
  induction 1 as [|y l Hl IH Hy]; cbn.
  - repeat constructor.
  - destruct (decide (cmp x y ≤ 0)) as [Hle|Hgt].
    + constructor; [by constructor|]. constructor; [by apply cmp_le|].
      eapply Forall_impl; [exact Hy|]. intros z Hz.
      eapply R_trans; [|exact Hz]. by apply cmp_le.
    + constructor; [done|]. rewrite insert_by_perm. constructor; [|done].
      by apply cmp_gt.
Qed.

Lemma Array_sort_sorted (l : list A) : StronglySorted R (Array_sort cmp l).
Proof.
  induction l as [|x l IH]; cbn; [constructor|]. by apply insert_by_sorted.
Qed.
End SortFacts.

(** ** Reading in a loop *)

Lemma mapM_pure {A B} (f : A → Handler B) (g : A → B) (l : list A) (db : Db) :
  (∀ x, f x db = (Return (g x), db)) → mapM f l db = (Return (g <$> l), db).
Proof.
  intros Hf. induction l as [|x l IH]; [done|].
  cbn [mapM]. unfold bind, ret. by rewrite Hf, IH.
Qed.

(** ** [getResults] *)

Lemma count_vote_fold (l : list (Doc Vote)) (d : Votes.MovieData) :
  let d' := foldl (λ d v, Votes.count_vote v d) d l in
  Votes.md_movieId d' = Votes.md_movieId d
  ∧ Votes.md_likes d'
    = (Votes.md_likes d + length (filter (λ v, voteType (fields v) = like) l))%nat
  ∧ Votes.md_dislikes d'
    = (Votes.md_dislikes d + length (filter (λ v, voteType (fields v) = dislike) l))%nat
  ∧ Votes.md_voters d'
    = (list_to_set ((λ v, v_participantId (fields v)) <$> l)) ∪ Votes.md_voters d.
Proof.
  revert d. induction l as [|v l IH]; intros d; cbn [foldl].
  - cbn. repeat split; try lia. by rewrite (left_id_L ∅ (∪)).
  - destruct (IH (Votes.count_vote v d)) as (H1 & H2 & H3 & H4).
    cbn zeta. rewrite H1, H2, H3, H4. rewrite !filter_cons.
    unfold Votes.count_vote.
    destruct (voteType (fields v)) eqn:Hty;
      repeat case_decide; try done; cbn;
      (split; [done|]; split; [lia|]; split; [lia|];
       rewrite (assoc_L (∪)); f_equal; apply (comm_L (∪))).
Qed.

Lemma movies_voted_spec (roomId : Id) (db : Db) :
  NoDup (movies_voted roomId db)
  ∧ ∀ m, m ∈ movies_voted roomId db ↔ votes_on roomId m db ≠ [].
Proof.
  split; [apply keys_seen_NoDup|]. intros m. unfold movies_voted, votes_on.
  rewrite keys_seen_elem_of, list_elem_of_fmap. split.
  - intros (v & -> & Hv) Hnil.
    by eapply (filter_nil_not_elem_of (λ v', v_movieId (fields v') = v_movieId (fields v))).
  - intros Hne. destruct (filter _ (filter _ (votes db))) as [|v l] eqn:E; [done|].
    assert (Hv : v ∈ v :: l) by left. rewrite <- E in Hv.
    apply list_elem_of_filter in Hv as [Hm Hv]. by exists v.
Qed.

Lemma bool_decide_ext_and3 (P Q R : Prop)
    {dP : Decision P} {dQ : Decision Q} {dR : Decision R} :
  bool_decide P && bool_decide Q && bool_decide R = bool_decide (P ∧ Q ∧ R).
Proof.
  destruct (decide P), (decide Q), (decide R);
    rewrite ?(bool_decide_true P), ?(bool_decide_false P),
            ?(bool_decide_true Q), ?(bool_decide_false Q),
            ?(bool_decide_true R), ?(bool_decide_false R) by done; cbn;
    symmetry; (apply bool_decide_eq_true_2 || apply bool_decide_eq_false_2); tauto.
Qed.

Lemma group_step_upsert :
  Votes.group_step
  = upsert_step (λ v : Doc Vote, v_movieId (fields v))
                (λ k, Votes.mkMovieData k 0 0 ∅) Votes.count_vote.
Proof. reflexivity. Qed.

Lemma aggregate_votes (roomId m : Id) (db : Db) :
  let d := aggregate (λ v : Doc Vote, v_movieId (fields v))
                     (λ k, Votes.mkMovieData k 0 0 ∅) Votes.count_vote m
                     (filter (λ v, v_roomId (fields v) = roomId) (votes db)) in
  Votes.md_movieId d = m
  ∧ Votes.md_likes d = likes_on roomId m db
  ∧ Votes.md_dislikes d = dislikes_on roomId m db
  ∧ Votes.md_voters d = voters_on roomId m db.
Proof.
  cbn zeta. unfold aggregate.
  destruct (count_vote_fold
              (filter (λ v, v_movieId (fields v) = m)
                      (filter (λ v, v_roomId (fields v) = roomId) (votes db)))
              (Votes.mkMovieData m 0 0 ∅)) as (H1 & H2 & H3 & H4).
  cbn zeta in *. rewrite H1, H2, H3, H4. cbn.
  unfold likes_on, dislikes_on, voters_on, votes_on.
  repeat split. apply (right_id_L ∅ (∪)).
Qed.

Lemma getResults_run (roomId : Id) (db : Db) :
  Votes.getResults roomId db
  = (Return (Array_sort (λ a b, Votes.matchScore b - Votes.matchScore a)
                        ((λ m, spec_results_entry roomId m db)
                           <$> movies_voted roomId db)),
     db).
Proof.
  unfold Votes.getResults. run_handler.
  set (vs := filter (λ v, v_roomId (fields v) = roomId) (votes db)).
  set (total := length (filter (λ p, rp_roomId (fields p) = roomId) (roomParticipants db))).
  rewrite (mapM_pure _
             (λ movieData,
                Votes.mkResultEntry
                  (tbl_get (Votes.md_movieId movieData) (movies db))
                  (Votes.md_likes movieData) (Votes.md_dislikes movieData)
                  (size (Votes.md_voters movieData))
                  (Votes.matchScore_of (Votes.md_likes movieData) total)
                  (Votes.isMatch_of movieData total))) by done.
  do 3 f_equal.
  rewrite group_step_upsert, group_fold. unfold Object_values.
  rewrite <- !list_fmap_compose. apply list_fmap_ext. intros _ m _. cbn.
  destruct (aggregate_votes roomId m db) as (H1 & H2 & H3 & H4). cbn zeta in *.
  fold vs in H1, H2, H3, H4. rewrite H1.
  unfold spec_results_entry, Votes.matchScore_of, Votes.isMatch_of, participants_of.
  fold total. rewrite H2, H3, H4. f_equal.
  - destruct (decide (0 < total)%nat), (decide (total = 0%nat)); try done; lia.
  - apply bool_decide_ext_and3.
Qed.


(** Scenario 3 of the specification: three participants, two like, one
    dislikes. *)
Example round_percent_two_of_three : JS.round_percent 2 3 = 67.
Proof. vm_compute. reflexivity. Qed.

(** In rooms of fewer than forty participants the score computed in doubles
    is the exact quotient rounded half up. *)
Lemma round_percent_exact (likes total : Z) :
  0 < total < 40 → 0 ≤ likes ≤ 2 * total →
  JS.round_percent likes total = (200 * likes + total) / (2 * total).
Proof.
  intros Ht Hl.
  assert (H : forallb (λ t, forallb (λ l, JS.round_percent l t
                                          =? (200 * l + t) / (2 * t))
                                    (seqZ 0 (2 * t + 1)))
                      (seqZ 1 39) = true) by (vm_compute; reflexivity).
  rewrite forallb_forall in H. specialize (H total).
  rewrite forallb_forall in H. apply Z.eqb_eq. apply H.
  - apply list_elem_of_In, elem_of_seqZ. lia.
  - apply list_elem_of_In, elem_of_seqZ. lia.
Qed.

(** From forty participants on the two can differ: [23 / 40 * 100] is
    [57.49999999999999] in doubles. *)
Example round_percent_23_of_40 :
  JS.round_percent 23 40 = 57 ∧ (200 * 23 + 40) / (2 * 40) = 58.
Proof. split; vm_compute; reflexivity. Qed.

(** ** [getDetailedResults] *)

Lemma detail_vote_fold (l : list (Doc Vote)) (d : Votes.DetailedData) :
  let d' := foldl (λ d v, Votes.detail_vote v d) d l in
  Votes.dd_movieId d' = Votes.dd_movieId d
  ∧ Votes.dd_likes d'
    = (Votes.dd_likes d + length (filter (λ v, voteType (fields v) = like) l))%nat
  ∧ Votes.dd_dislikes d'
    = (Votes.dd_dislikes d + length (filter (λ v, voteType (fields v) = dislike) l))%nat
  ∧ Votes.dd_votingDetails d'
    = Votes.dd_votingDetails d
      ++ ((λ v, Votes.mkVoteDetail (v_participantId (fields v))
                                   (bool_decide (voteType (fields v) = like))) <$> l).
Proof.
  revert d. induction l as [|v l IH]; intros d; cbn [foldl].
  - cbn. rewrite app_nil_r. repeat split; lia.
  - destruct (IH (Votes.detail_vote v d)) as (H1 & H2 & H3 & H4).
    cbn zeta. rewrite H1, H2, H3, H4. rewrite !filter_cons, fmap_cons.
    unfold Votes.detail_vote.
    destruct (voteType (fields v)) eqn:Hty;
      repeat case_decide; try done; cbn;
      (split; [done|]; split; [lia|]; split; [lia|]; by rewrite <- app_assoc).
Qed.

Lemma detailed_step_upsert :
  Votes.detailed_step
  = upsert_step (λ v : Doc Vote, v_movieId (fields v))
                (λ k, Votes.mkDetailedData k 0 0 []) Votes.detail_vote.
Proof. reflexivity. Qed.

Lemma aggregate_details (roomId m : Id) (db : Db) :
  let d := aggregate (λ v : Doc Vote, v_movieId (fields v))
                     (λ k, Votes.mkDetailedData k 0 0 []) Votes.detail_vote m
                     (filter (λ v, v_roomId (fields v) = roomId) (votes db)) in
  Votes.dd_movieId d = m
  ∧ Votes.dd_likes d = likes_on roomId m db
  ∧ Votes.dd_dislikes d = dislikes_on roomId m db
  ∧ Votes.dd_votingDetails d
    = (λ v, Votes.mkVoteDetail (v_participantId (fields v))
                               (bool_decide (voteType (fields v) = like)))
        <$> votes_on roomId m db.
Proof.
  cbn zeta. unfold aggregate.
  destruct (detail_vote_fold
              (filter (λ v, v_movieId (fields v) = m)
                      (filter (λ v, v_roomId (fields v) = roomId) (votes db)))
              (Votes.mkDetailedData m 0 0 [])) as (H1 & H2 & H3 & H4).
  cbn zeta in *. rewrite H1, H2, H3, H4. cbn. done.
Qed.

Lemma filter_fmap_comm {A B} (f : A → B) (P : B → Prop) {Pdec : ∀ b, Decision (P b)}
    (l : list A) :
  filter P (f <$> l) = f <$> filter (λ a, P (f a)) l.
Proof.
  induction l as [|a l IH]; [done|].
  rewrite fmap_cons, !filter_cons. destruct (decide (P (f a))); by rewrite IH.
Qed.

Lemma getDetailedResults_run (roomId : Id) (db : Db) :
  Votes.getDetailedResults roomId db
  = (Return (Votes.mkDetailedResults
               (Array_sort Votes.detailed_cmp
                  ((λ m, spec_detailed_entry roomId m db)
                     <$> filter (λ m, (0 < likes_on roomId m db)%nat)
                                (movies_voted roomId db)))
               ((λ p, Votes.mkParticipantInfo (rp_participantId (fields p))
                                              (votingCompletedAt (fields p)))
                  <$> participants_of roomId db)),
     db).
Proof.
  unfold Votes.getDetailedResults. run_handler.
  set (vs := filter (λ v, v_roomId (fields v) = roomId) (votes db)).
  rewrite (mapM_pure _
             (λ movieData,
                Votes.mkDetailedEntry
                  (tbl_get (Votes.dd_movieId movieData) (movies db))
                  (length (Votes.dd_votingDetails movieData))
                  (Votes.dd_likes movieData) (Votes.dd_dislikes movieData)
                  (Votes.matchPercentage_of (Votes.dd_likes movieData)
                     (length (Votes.dd_votingDetails movieData)))
                  (Votes.dd_votingDetails movieData))) by done.
  do 4 f_equal.
  rewrite detailed_step_upsert, group_fold. unfold Object_values.
  rewrite <- list_fmap_compose, filter_fmap_comm, <- list_fmap_compose.
  assert (Hfilter :
    filter (λ m, (0 < Votes.dd_likes
                        (snd (m, aggregate (λ v : Doc Vote, v_movieId (fields v))
                                   (λ k, Votes.mkDetailedData k 0 0 [])
                                   Votes.detail_vote m vs)))%nat)
           (keys_seen ((λ v : Doc Vote, v_movieId (fields v)) <$> vs))
    = filter (λ m, (0 < likes_on roomId m db)%nat) (movies_voted roomId db)).
  { apply list_filter_iff. intros m. cbn.
    destruct (aggregate_details roomId m db) as (_ & H2 & _). cbn zeta in H2.
    fold vs in H2. by rewrite H2. }
  unfold compose. cbn [snd] in *.
  etrans; [|apply (f_equal (fmap _) Hfilter)].
  apply list_fmap_ext. intros _ m _. cbn.
  destruct (aggregate_details roomId m db) as (H1 & H2 & H3 & H4). cbn zeta in *.
  fold vs in H1, H2, H3, H4. rewrite H1, H2, H3, H4.
  unfold spec_detailed_entry, Votes.matchPercentage_of. rewrite length_fmap.
  f_equal.
  destruct (decide (0 < length (votes_on roomId m db))%nat),
           (decide (length (votes_on roomId m db) = 0%nat)); try done; lia.
Qed.

(** ** The two scores compared *)

(** C2, as stated, fails: here every current participant voted on the
    movie, and the two queries still report different scores for it. *)
Lemma scores_differ_though_everyone_voted :
  (λ p, rp_participantId (fields p)) <$> participants_of 1%nat departed_voter_db
  = ["ann"; "bob"]
  ∧ (λ v, v_participantId (fields v)) <$> votes_on 1%nat 0%nat departed_voter_db
    = ["ann"; "bob"; "cy"]
  ∧ Votes.matchScore <$> default [] (match outcome (Votes.getResults 1%nat) departed_voter_db with
                                     | Return rs => Some rs
                                     | Throw _ => None
                                     end)
    = [150]
  ∧ Votes.matchPercentage
      <$> default [] (match outcome (Votes.getDetailedResults 1%nat) departed_voter_db with
                      | Return ds => Some (Votes.results ds)
                      | Throw _ => None
                      end)
    = [100].
Proof. repeat split; vm_compute; reflexivity. Qed.

(** One like among twelve votes in a room of thirteen: fewer voters than
    participants, and the same score from both formulas. *)
Example scores_agree_though_not_everyone_voted :
  Votes.matchScore_of 1 13 = 8 ∧ Votes.matchPercentage_of 1 12 = 8.
Proof. split; vm_compute; reflexivity. Qed.

Lemma likes_on_movies_voted (roomId m : Id) (db : Db) :
  (0 < likes_on roomId m db)%nat → m ∈ movies_voted roomId db.
Proof.
  intros H. apply movies_voted_spec. intros Hnil.
  unfold likes_on in H. rewrite Hnil in H. cbn in H. lia.
Qed.

(** C2, amended: for a movie with at least one like both queries list the
    movie; [getResults] scores it [round(likes / participants * 100)] ([0]
    without participants) and [getDetailedResults]
    [round(likes / votes on the movie * 100)]; the two scores are equal
    whenever the movie has as many vote rows as the room has participants,
    and they can differ otherwise (two likes from two of three participants
    score 67 and 100). *)
Theorem results_scores_compared (db : Db) (roomId m : Id) :
  (0 < likes_on roomId m db)%nat →
  (∃ rs ds,
     outcome (Votes.getResults roomId) db = Return rs
     ∧ outcome (Votes.getDetailedResults roomId) db = Return ds
     ∧ spec_results_entry roomId m db ∈ rs
     ∧ spec_detailed_entry roomId m db ∈ Votes.results ds)
  ∧ Votes.matchScore (spec_results_entry roomId m db)
    = Votes.matchScore_of (likes_on roomId m db) (length (participants_of roomId db))
  ∧ Votes.matchPercentage (spec_detailed_entry roomId m db)
    = Votes.matchPercentage_of (likes_on roomId m db) (length (votes_on roomId m db))
  ∧ (length (votes_on roomId m db) = length (participants_of roomId db) →
     Votes.matchScore (spec_results_entry roomId m db)
     = Votes.matchPercentage (spec_detailed_entry roomId m db))
  ∧ Votes.matchScore_of 2 3 = 67 ∧ Votes.matchPercentage_of 2 2 = 100.
Proof.
  intros Hlikes. pose proof (likes_on_movies_voted _ _ _ Hlikes) as Hin.
  assert (Hscore : Votes.matchScore (spec_results_entry roomId m db)
                   = Votes.matchScore_of (likes_on roomId m db)
                                         (length (participants_of roomId db))).
  { unfold spec_results_entry, Votes.matchScore_of. cbn.
    destruct (decide (0 < length (participants_of roomId db))%nat),
             (decide (length (participants_of roomId db) = 0%nat)); try done; lia. }
  assert (Hperc : Votes.matchPercentage (spec_detailed_entry roomId m db)
                  = Votes.matchPercentage_of (likes_on roomId m db)
                                             (length (votes_on roomId m db))).
  { unfold spec_detailed_entry, Votes.matchPercentage_of. cbn.
    destruct (decide (0 < length (votes_on roomId m db))%nat),
             (decide (length (votes_on roomId m db) = 0%nat)); try done; lia. }
  split; [|split; [done|split; [done|split; [|split; vm_compute; reflexivity]]]].
  - eexists _, _. unfold outcome.
    rewrite getResults_run, getDetailedResults_run. cbn [fst].
    split; [done|]. split; [done|]. cbn [Votes.results]. split.
    + rewrite Array_sort_perm. by apply (list_elem_of_fmap_2 (λ m, spec_results_entry roomId m db)).
    + rewrite Array_sort_perm.
      apply (list_elem_of_fmap_2 (λ m, spec_detailed_entry roomId m db)).
      by apply list_elem_of_filter.
  - intros Heq. rewrite Hscore, Hperc, Heq. done.
Qed.

Lemma results_scores_compared_witness :
  Votes.matchScore (spec_results_entry 1%nat 0%nat two_of_three_db) = 67
  ∧ Votes.matchPercentage (spec_detailed_entry 1%nat 0%nat two_of_three_db) = 100.
Proof.
  assert (Hlikes : (0 < likes_on 1%nat 0%nat two_of_three_db)%nat)
    by (vm_compute; lia).
  destruct (results_scores_compared two_of_three_db 1%nat 0%nat Hlikes)
    as (_ & Hs & Hp & _).
  rewrite Hs, Hp. split; vm_compute; reflexivity.
Defined.

(** ** Votes: one row per participant, movie and room *)

Lemma votes_of_patch roomId movieId participantId id ty t db :
  votes_of roomId movieId participantId (patch_vote id ty t db)
  = tbl_patch id (set_vote ty t) (votes_of roomId movieId participantId db).
Proof.
  unfold votes_of, patch_vote. cbn [votes].
  pose proof (filter_tbl_patch (λ a, v_roomId a = roomId) id (set_vote ty t) (votes db))
    as H1. cbn beta in H1. rewrite H1 by done.
  pose proof (filter_tbl_patch
                (λ a, v_movieId a = movieId ∧ v_participantId a = participantId)
                id (set_vote ty t)
                (filter (λ v, v_roomId (fields v) = roomId) (votes db))) as H2.
  cbn beta in H2. by rewrite H2.
Qed.

Lemma votes_of_add roomId movieId participantId v db :
  votes_of roomId movieId participantId (add_vote v db)
  = votes_of roomId movieId participantId db
    ++ (if decide (v_roomId v = roomId
                   ∧ v_movieId v = movieId ∧ v_participantId v = participantId)
        then [mkDoc (nextId db) v] else []).
Proof.
  unfold votes_of, add_vote, tbl_insert. cbn [votes].
  rewrite !filter_app. f_equal. rewrite filter_cons, filter_nil. cbn.
  destruct (decide (v_roomId v = roomId)) as [Hr|Hr].
  - rewrite filter_cons, filter_nil. cbn.
    destruct (decide (v_movieId v = movieId ∧ v_participantId v = participantId));
      [by rewrite decide_True|by rewrite decide_False by tauto].
  - rewrite filter_nil. by rewrite decide_False by tauto.
Qed.

Lemma effect_vote_keys (db : Db) (e : Effect) :
  vote_keys_unique db → effect_ok db e → vote_keys_unique (apply_effect e db).
Proof.
  intros Hu Hok.
  destruct e as [|r0 host t0|id|p|id|id rid|id t0|v|id ty t0];
    cbn [apply_effect]; try exact Hu; intros r m q.
  - rewrite votes_of_add. destruct (decide _) as [(<- & <- & <-)|_].
    + destruct Hok as [-> _]. cbn. lia.
    + rewrite app_nil_r. apply Hu.
  - rewrite votes_of_patch, tbl_patch_length. apply Hu.
Qed.

Lemma run_vote_keys (trace : list (Call * Z)) (db : Db) :
  vote_keys_unique db → vote_keys_unique (run trace db).
Proof.
  revert db. induction trace as [|[c now] trace IH]; intros db Hu; [done|].
  cbn. apply IH. destruct (exec_effect c now db) as (e & _ & Hok & Heq).
  rewrite Heq. by apply effect_vote_keys.
Qed.

(** When [submitVote] returns, it either patched the one existing row of the
    triple or inserted a row. *)
Lemma submitVote_returns roomId movieId participantId ty now db res :
  outcome (Votes.submitVote roomId movieId participantId ty now) db = Return res →
  (∃ v, head (votes_of roomId movieId participantId db) = Some v
        ∧ res = Votes.mkSubmitVoteResult (_id v) true
        ∧ store (Votes.submitVote roomId movieId participantId ty now) db
          = patch_vote (_id v) ty now db)
  ∨ (votes_of roomId movieId participantId db = []
     ∧ res = Votes.mkSubmitVoteResult (nextId db) false
     ∧ store (Votes.submitVote roomId movieId participantId ty now) db
       = add_vote (mkVote roomId movieId participantId ty now) db).
Proof.
  unfold Votes.submitVote, votes_of. run_handler.
  destruct (tbl_get roomId (rooms db)) as [room|] eqn:Hroom; [|done].
  destruct (decide (status (fields room) ≠ active)); [done|].
  destruct (decide (expiresAt (fields room) < now)).
  { cbn. by destruct (tbl_get (_id room) (rooms db)). }
  destruct (head (filter _ (filter _ (roomParticipants db)))) as [p|]; [|done].
  cbn. destruct (tbl_get movieId (movies db)) as [mv|]; [|done].
  cbn. destruct (head (filter _ (filter _ (votes db)))) as [v|] eqn:Hvote; cbn.
  - pose proof (head_filter_Some _ _ _ Hvote) as [Hv _].
    apply list_elem_of_filter in Hv as [_ Hv].
    destruct (tbl_get_elem_of _ _ Hv) as [v2 ->]. cbn.
    intros [= <-]. left. by exists v.
  - intros [= <-]. right. by apply head_None in Hvote.
Qed.

(** When the checks of [submitVote] pass, it returns. *)
Lemma submitVote_passes roomId movieId participantId ty now db room :
  tbl_get roomId (rooms db) = Some room →
  status (fields room) = active →
  ¬ expiresAt (fields room) < now →
  is_Some (membership roomId participantId db) →
  is_Some (tbl_get movieId (movies db)) →
  ∃ res, outcome (Votes.submitVote roomId movieId participantId ty now) db = Return res.
Proof.
  intros Hroom Hact Hexp [p Hp] [mv Hmv]. unfold membership in Hp.
  unfold Votes.submitVote. run_handler. rewrite Hroom. cbn.
  rewrite decide_False by (by intros ?). rewrite decide_False by done.
  rewrite Hp. cbn. rewrite Hmv. cbn.
  destruct (head (filter _ (filter _ (votes db)))) as [v|] eqn:Hvote; cbn.
  - pose proof (head_filter_Some _ _ _ Hvote) as [Hv _].
    apply list_elem_of_filter in Hv as [_ Hv].
    destruct (tbl_get_elem_of _ _ Hv) as [v2 ->]. cbn. by eexists.
  - by eexists.
Qed.

Lemma length_le_1_head {A} (l : list A) (x : A) :
  (length l ≤ 1)%nat → head l = Some x → l = [x].
Proof. destruct l as [|y [|z l]]; cbn; intros ? [=]; [by subst|lia]. Qed.

(** After a successful [submitVote] the triple has exactly one row, and it
    holds the vote just cast. *)
Lemma submitVote_single_row roomId movieId participantId ty now db res :
  vote_keys_unique db →
  outcome (Votes.submitVote roomId movieId participantId ty now) db = Return res →
  votes_of roomId movieId participantId
           (store (Votes.submitVote roomId movieId participantId ty now) db)
  = [mkDoc (Votes.voteId res) (mkVote roomId movieId participantId ty now)].
Proof.
  intros Hu Hres. apply submitVote_returns in Hres
    as [(v & Hhead & -> & ->)|(Hnil & -> & ->)].
  - rewrite votes_of_patch.
    rewrite (length_le_1_head _ _ (Hu roomId movieId participantId) Hhead).
    cbn. rewrite decide_True by done. do 2 f_equal.
    apply head_filter_Some in Hhead as [Hin [Hm Hp]].
    apply list_elem_of_filter in Hin as [Hr _].
    unfold set_vote. by rewrite Hr, Hm, Hp.
  - rewrite votes_of_add, Hnil. cbn. by rewrite decide_True.
Qed.

Lemma votes_of_votes_on roomId movieId participantId db :
  votes_of roomId movieId participantId db
  = filter (λ v, v_participantId (fields v) = participantId) (votes_on roomId movieId db).
Proof.
  unfold votes_of, votes_on. symmetry.
  etrans; [apply list_filter_filter|]. apply list_filter_iff. intros v. tauto.
Qed.

Lemma filter_all {A} (P : A → Prop) {Pdec : ∀ x, Decision (P x)} (l : list A) :
  (∀ x, x ∈ l → P x) → filter P l = l.
Proof.
  induction l as [|x l IH]; intros H; [done|].
  rewrite filter_cons_True by (apply H; left). f_equal. apply IH.
  intros y Hy. apply H. by right.
Qed.

Lemma votes_on_patch roomId movieId id ty t db :
  votes_on roomId movieId (patch_vote id ty t db)
  = tbl_patch id (set_vote ty t) (votes_on roomId movieId db).
Proof.
  unfold votes_on, patch_vote. cbn [votes].
  pose proof (filter_tbl_patch (λ a, v_roomId a = roomId) id (set_vote ty t) (votes db))
    as H1. cbn beta in H1. rewrite H1 by done.
  pose proof (filter_tbl_patch (λ a, v_movieId a = movieId) id (set_vote ty t)
                (filter (λ v, v_roomId (fields v) = roomId) (votes db))) as H2.
  cbn beta in H2. by rewrite H2.
Qed.

Lemma votes_on_add roomId movieId v db :
  votes_on roomId movieId (add_vote v db)
  = votes_on roomId movieId db
    ++ (if decide (v_roomId v = roomId ∧ v_movieId v = movieId)
        then [mkDoc (nextId db) v] else []).
Proof.
  unfold votes_on, add_vote, tbl_insert. cbn [votes].
  rewrite !filter_app. f_equal. rewrite filter_cons, filter_nil. cbn.
  destruct (decide (v_roomId v = roomId)) as [Hr|Hr].
  - rewrite filter_cons, filter_nil. cbn.
    destruct (decide (v_movieId v = movieId));
      [by rewrite decide_True|by rewrite decide_False by tauto].
  - rewrite filter_nil. by rewrite decide_False by tauto.
Qed.

(** A successful [submitVote] adds no voter but the caller to the movie. *)
Lemma submitVote_voters roomId movieId participantId ty now db res :
  outcome (Votes.submitVote roomId movieId participantId ty now) db = Return res →
  (∀ v, v ∈ votes_on roomId movieId db → v_participantId (fields v) = participantId) →
  ∀ v, v ∈ votes_on roomId movieId
             (store (Votes.submitVote roomId movieId participantId ty now) db) →
       v_participantId (fields v) = participantId.
Proof.
  intros Hres Hall v. apply submitVote_returns in Hres
    as [(v0 & _ & _ & ->)|(_ & _ & ->)].
  - rewrite votes_on_patch. intros Hv.
    apply tbl_patch_elem_of in Hv as (v1 & Hv1 & _ & [->|[_ ->]]); by apply Hall.
  - rewrite votes_on_add. rewrite decide_True by done.
    intros [Hv|Hv]%elem_of_app; [by apply Hall|].
    apply list_elem_of_singleton in Hv. by subst v.
Qed.

(** C3: when the room exists, is active and unexpired, the caller is a
    participant and the movie exists, [submitVote] overwrites [voteType] and
    [votedAt] of the row the triple already has and returns
    [updated = true], or inserts a row and returns [updated = false] when
    the triple has none; either way the triple is left with exactly one
    row, holding the vote just cast.  So after a participant votes like and
    then dislike on a movie, the triple has one row, a dislike, and
    [getResults] lists the movie (on which nobody else voted) with no like,
    one dislike and one voter. *)
Theorem submitVote_upsert
    (db : Db) (roomId movieId : Id) (participantId : string) (now : Z) :
  vote_keys_unique db →
  (∀ ty room,
     tbl_get roomId (rooms db) = Some room →
     status (fields room) = active →
     ¬ expiresAt (fields room) < now →
     is_Some (membership roomId participantId db) →
     is_Some (tbl_get movieId (movies db)) →
     let call := Votes.submitVote roomId movieId participantId ty now in
     (∀ v, head (votes_of roomId movieId participantId db) = Some v →
        outcome call db = Return (Votes.mkSubmitVoteResult (_id v) true)
        ∧ store call db = patch_vote (_id v) ty now db)
     ∧ (votes_of roomId movieId participantId db = [] →
        outcome call db = Return (Votes.mkSubmitVoteResult (nextId db) false)
        ∧ store call db = add_vote (mkVote roomId movieId participantId ty now) db)
     ∧ (∃ id, votes_of roomId movieId participantId (store call db)
              = [mkDoc id (mkVote roomId movieId participantId ty now)])
     ∧ vote_keys_unique (store call db))
  ∧ (∀ now' r1 r2,
       let db1 := store (Votes.submitVote roomId movieId participantId like now) db in
       let db2 := store (Votes.submitVote roomId movieId participantId dislike now') db1 in
       outcome (Votes.submitVote roomId movieId participantId like now) db = Return r1 →
       outcome (Votes.submitVote roomId movieId participantId dislike now') db1
         = Return r2 →
       r2 = Votes.mkSubmitVoteResult (Votes.voteId r1) true
       ∧ votes_of roomId movieId participantId db2
         = [mkDoc (Votes.voteId r1) (mkVote roomId movieId participantId dislike now')]
       ∧ ((∀ v, v ∈ votes_on roomId movieId db →
                v_participantId (fields v) = participantId) →
          ∃ rs, outcome (Votes.getResults roomId) db2 = Return rs
                ∧ spec_results_entry roomId movieId db2 ∈ rs
                ∧ Votes.likes (spec_results_entry roomId movieId db2) = 0%nat
                ∧ Votes.dislikes (spec_results_entry roomId movieId db2) = 1%nat
                ∧ Votes.totalVotes (spec_results_entry roomId movieId db2) = 1%nat)).
Proof.
  intros Hu. split.
  - intros ty room Hroom Hact Hexp Hmem Hmovie call.
    destruct (submitVote_passes roomId movieId participantId ty now db room)
      as [res Hres]; try done.
    fold call in Hres.
    pose proof (submitVote_single_row _ _ _ _ _ _ _ Hu Hres) as Hsingle.
    pose proof (submitVote_returns _ _ _ _ _ _ _ Hres) as Hcases.
    fold call in Hsingle, Hcases.
    split; [|split; [|split]].
    + intros v Hv. destruct Hcases as [(v' & Hv' & -> & Hs)|(Hnil & _)].
      * assert (v' = v) as -> by congruence. by rewrite Hres, Hs.
      * by rewrite Hnil in Hv.
    + intros Hnil. destruct Hcases as [(v' & Hv' & _)|(_ & -> & Hs)].
      * by rewrite Hnil in Hv'.
      * by rewrite Hres, Hs.
    + by eexists.
    + destruct (submitVote_effect roomId movieId participantId ty now db)
        as (e & _ & Hok & Heq).
      unfold call. rewrite Heq. by apply effect_vote_keys.
  - intros now' r1 r2 db1 db2 H1 H2.
    assert (Hu1 : vote_keys_unique db1).
    { destruct (submitVote_effect roomId movieId participantId like now db)
        as (e & _ & Hok & Heq).
      unfold db1. rewrite Heq. by apply effect_vote_keys. }
    pose proof (submitVote_single_row _ _ _ _ _ _ _ Hu H1) as Hrow1. fold db1 in Hrow1.
    pose proof (submitVote_single_row _ _ _ _ _ _ _ Hu1 H2) as Hrow2. fold db2 in Hrow2.
    assert (Hr2 : r2 = Votes.mkSubmitVoteResult (Votes.voteId r1) true).
    { apply submitVote_returns in H2 as [(v & Hv & -> & _)|(Hnil & _)].
      - rewrite Hrow1 in Hv. by injection Hv as <-.
      - by rewrite Hrow1 in Hnil. }
    split; [done|]. split; [by rewrite Hrow2, Hr2|].
    intros Hall.
    assert (Hon : votes_on roomId movieId db2
                  = [mkDoc (Votes.voteId r2)
                           (mkVote roomId movieId participantId dislike now')]).
    { rewrite <- Hrow2, votes_of_votes_on. symmetry. apply filter_all.
      apply (submitVote_voters _ _ _ _ _ _ _ H2).
      by apply (submitVote_voters _ _ _ _ _ _ _ H1). }
    eexists. unfold outcome. rewrite getResults_run. cbn [fst].
    split; [done|]. split.
    + rewrite Array_sort_perm.
      apply (list_elem_of_fmap_2 (λ m, spec_results_entry roomId m db2)).
      apply movies_voted_spec. by rewrite Hon.
    + unfold spec_results_entry, likes_on, dislikes_on, voters_on.
      cbn [Votes.likes Votes.dislikes Votes.totalVotes]. rewrite Hon.
      split; [done|]. split; [done|]. cbn.
      rewrite (right_id_L ∅ (∪)). apply size_singleton.
Qed.

Lemma submitVote_upsert_witness :
  votes_of 1%nat 0%nat "ann"
    (store (Votes.submitVote 1%nat 0%nat "ann" dislike 6)
           (store (Votes.submitVote 1%nat 0%nat "ann" like 5) voting_db))
  = [mkDoc 3%nat (mkVote 1%nat 0%nat "ann" dislike 6)].
Proof.
  assert (Hu : vote_keys_unique voting_db).
  { apply run_vote_keys. intros r m p. cbn. lia. }
  destruct (submitVote_upsert voting_db 1%nat 0%nat "ann" 5 Hu) as [_ H].
  destruct (H 6 (Votes.mkSubmitVoteResult 3%nat false)
              (Votes.mkSubmitVoteResult 3%nat true) eq_refl eq_refl)
    as (_ & Hrow & _).
  exact Hrow.
Defined.


(** * Further properties of the modelled code *)

(** ** One membership row per participant and room *)

Lemma members_of_insert roomId participantId p db :
  members_of roomId participantId (add_participant p db)
  = members_of roomId participantId db
    ++ (if decide (rp_roomId p = roomId ∧ rp_participantId p = participantId)
        then [mkDoc (nextId db) p] else []).
Proof.
  unfold members_of, participants_of, add_participant. cbn [roomParticipants].
  rewrite participants_of_insert, filter_app. f_equal.
  destruct (decide (rp_roomId p = roomId)) as [Hr|Hr].
  - rewrite filter_cons, filter_nil. cbn.
    destruct (decide (rp_participantId p = participantId));
      [by rewrite decide_True|by rewrite decide_False by tauto].
  - rewrite filter_nil. by rewrite decide_False by tauto.
Qed.

Lemma members_of_patch_length roomId participantId id ts db :
  length (members_of roomId participantId (complete_participant id ts db))
  = length (members_of roomId participantId db).
Proof.
  unfold members_of, participants_of, complete_participant. cbn [roomParticipants].
  pose proof (filter_tbl_patch (λ a, rp_roomId a = roomId) id
                (set_votingCompletedAt ts) (roomParticipants db)) as H1.
  cbn beta in H1. rewrite H1 by done.
  pose proof (filter_tbl_patch (λ a, rp_participantId a = participantId) id
                (set_votingCompletedAt ts)
                (filter (λ p, rp_roomId (fields p) = roomId) (roomParticipants db))) as H2.
  cbn beta in H2. rewrite H2 by done. apply tbl_patch_length.
Qed.

Lemma members_of_delete_length roomId participantId id db :
  (length (members_of roomId participantId (remove_participant id db))
   ≤ length (members_of roomId participantId db))%nat.
Proof.
  unfold members_of, participants_of, remove_participant. cbn [roomParticipants].
  rewrite !list_filter_filter.
  apply (filter_tbl_delete_length
           (λ p : Doc RoomParticipant,
              rp_participantId (fields p) = participantId
              ∧ rp_roomId (fields p) = roomId)).
Qed.

Lemma effect_members_unique (db : Db) (e : Effect) :
  db_wf db → members_unique db → effect_ok db e → members_unique (apply_effect e db).
Proof.
  intros (_ & _ & _ & _ & Href) Hu Hok.
  destruct e as [|r0 host t0|id|p|id|id rid|id t0|v|id ty t0];
    cbn [apply_effect]; try exact Hu; intros r q.
  - rewrite members_of_insert. cbn [rp_roomId rp_participantId nextId add_room].
    destruct (decide _) as [[<- <-]|_].
    + assert (Hnone : members_of (nextId db) host (add_room r0 db) = []).
      { apply head_None, head_filter_None. intros p Hp _.
        apply list_elem_of_filter in Hp as [Hr Hp]. cbn in Hp.
        specialize (Href p Hp). lia. }
      rewrite Hnone. cbn. lia.
    + rewrite app_nil_r. apply (Hu r q).
  - rewrite members_of_insert. destruct (decide _) as [[<- <-]|_].
    + destruct Hok as (_ & _ & _ & _ & _ & Hmem).
      apply head_None in Hmem. unfold members_of, participants_of.
      rewrite Hmem. cbn. lia.
    + rewrite app_nil_r. apply Hu.
  - etrans; [apply members_of_delete_length|apply Hu].
  - etrans; [apply (members_of_delete_length r q id db)|apply Hu].
  - rewrite members_of_patch_length. apply Hu.
Qed.

Lemma run_members_unique (trace : list (Call * Z)) (db : Db) :
  db_wf db → members_unique db → members_unique (run trace db).
Proof.
  revert db. induction trace as [|[c now] trace IH]; intros db Hwf Hu; [done|].
  cbn. apply IH; [by apply exec_wf|].
  destruct (exec_effect c now db) as (e & _ & Hok & Heq). rewrite Heq.
  by apply effect_members_unique.
Qed.

(** X1: no trace of calls gives a participant two membership rows in one
    room; a member who joins again, by id or by code, while the room is
    active and unexpired, gets "Already joined this room" and nothing is
    written. *)
Theorem membership_stays_unique (db : Db) (trace : list (Call * Z)) :
  db_wf db → members_unique db →
  members_unique (run trace db)
  ∧ ∀ now room participantId,
      status (fields room) = active →
      ¬ expiresAt (fields room) < now →
      is_Some (membership (_id room) participantId (run trace db)) →
      (tbl_get (_id room) (rooms (run trace db)) = Some room →
         outcome (Rooms.joinRoom (_id room) participantId now) (run trace db)
           = Throw "Already joined this room"
         ∧ store (Rooms.joinRoom (_id room) participantId now) (run trace db)
           = run trace db)
      ∧ (head (filter (λ r, code (fields r) = code (fields room))
                      (rooms (run trace db))) = Some room →
         outcome (Rooms.joinRoomByCode (code (fields room)) participantId now)
                 (run trace db)
           = Throw "Already joined this room"
         ∧ store (Rooms.joinRoomByCode (code (fields room)) participantId now)
                 (run trace db)
           = run trace db).
Proof.
  intros Hwf Hu. split; [by apply run_members_unique|].
  intros now room participantId Hact Hexp [p Hp]. unfold membership in Hp.
  split; intros Hget.
  - unfold Rooms.joinRoom. run_handler. rewrite Hget. cbn.
    rewrite decide_False by (by intros ?). rewrite decide_False by done.
    by rewrite Hp.
  - unfold Rooms.joinRoomByCode. run_handler. rewrite Hget. cbn.
    rewrite decide_False by (by intros ?). rewrite decide_False by done.
    by rewrite Hp.
Qed.

Lemma empty_members_unique : members_unique empty_db.
Proof. intros r q. cbn. lia. Qed.

Lemma membership_stays_unique_witness :
  members_unique (run three_friends_trace empty_db)
  ∧ outcome (Rooms.joinRoom 0%nat "ann" 3) (run three_friends_trace empty_db)
    = Throw "Already joined this room".
Proof.
  destruct (membership_stays_unique empty_db three_friends_trace
              empty_db_wf empty_members_unique) as [H1 H2].
  split; [exact H1|].
  destruct (H2 3 (mkDoc 0%nat (mkRoom "5500" "action" "ann" active 86400000 10 0))
               "ann" eq_refl ltac:(cbn; lia) ltac:(by eexists)) as [Hjoin _].
  destruct (Hjoin eq_refl) as [Ho _]. exact Ho.
Defined.

(** ** A closed room stays closed to joins and votes *)

(** X2: once the stored status of a room is [completed] or [expired], then
    after any further calls [joinRoom] and [submitVote] on that room throw
    "Room is completed" or "Room is expired" and write nothing. *)
Theorem closed_room_rejects_join_and_vote
    (db : Db) (r : Doc Room) (trace : list (Call * Z)) :
  db_wf db → r ∈ rooms db → status (fields r) ≠ active →
  ∃ s, s ≠ active
       ∧ (∀ participantId now,
            outcome (Rooms.joinRoom (_id r) participantId now) (run trace db)
              = Throw ("Room is " +:+ status_name s)
            ∧ store (Rooms.joinRoom (_id r) participantId now) (run trace db)
              = run trace db)
       ∧ (∀ movieId participantId ty now,
            outcome (Votes.submitVote (_id r) movieId participantId ty now) (run trace db)
              = Throw ("Room is " +:+ status_name s)
            ∧ store (Votes.submitVote (_id r) movieId participantId ty now) (run trace db)
              = run trace db).
Proof.
  intros Hwf Hin Hst.
  destruct (run_status trace db r Hwf Hin Hst) as (r' & Hget & Hst' & _).
  exists (status (fields r')). split; [done|]. split.
  - intros participantId now. unfold Rooms.joinRoom. run_handler.
    rewrite Hget. cbn. by rewrite decide_True.
  - intros movieId participantId ty now. unfold Votes.submitVote. run_handler.
    rewrite Hget. cbn. by rewrite decide_True.
Qed.

Lemma closed_room_rejects_join_and_vote_witness :
  outcome (Rooms.joinRoom 0%nat "bob" 86400005)
          (run [(LeaveRoom 0%nat "ann", 86400002)] (run expired_then_left_trace empty_db))
  = Throw "Room is completed".
Proof.
  assert (Hwf : db_wf (run expired_then_left_trace empty_db))
    by (apply run_wf, empty_db_wf).
  assert (Hin : mkDoc 0%nat (mkRoom "5500" "comedy" "ann" expired 86400000 10 0)
                ∈ rooms (run expired_then_left_trace empty_db))
    by (apply list_elem_of_singleton; reflexivity).
  destruct (closed_room_rejects_join_and_vote _ _ [(LeaveRoom 0%nat "ann", 86400002)]
              Hwf Hin ltac:(discriminate)) as (s & _ & Hjoin & _).
  destruct (Hjoin "bob" 86400005) as [Ho _]. cbn [_id] in Ho.
  assert (Hs : s = completed).
  { assert (H : outcome (Rooms.joinRoom 0%nat "bob" 86400005)
                  (run [(LeaveRoom 0%nat "ann", 86400002)]
                       (run expired_then_left_trace empty_db))
                = Throw "Room is completed") by reflexivity.
    rewrite H in Ho. destruct s; [done|done|discriminate Ho]. }
  by rewrite Hs in Ho.
Defined.

(** ** Joining and leaving *)

Lemma tbl_delete_insert {A} (n : Id) (a : A) (t : Table A) :
  tbl_wf n t → tbl_delete n (tbl_insert n a t) = t.
Proof.
  intros [_ Hlt]. unfold tbl_delete, tbl_insert.
  rewrite filter_app, filter_cons, filter_nil. cbn.
  rewrite decide_False by (intros H; by apply H). rewrite app_nil_r.
  apply filter_all. intros d Hd. specialize (Hlt d Hd). lia.
Qed.

Lemma joinRoom_returns roomId participantId now db res :
  outcome (Rooms.joinRoom roomId participantId now) db = Return res →
  membership roomId participantId db = None
  ∧ is_Some (tbl_get roomId (rooms db))
  ∧ store (Rooms.joinRoom roomId participantId now) db
    = add_participant (mkRoomParticipant roomId participantId now None) db.
Proof.
  unfold Rooms.joinRoom, membership. run_handler.
  destruct (tbl_get roomId (rooms db)) as [room|] eqn:Hroom; [|done].
  destruct (decide (status (fields room) ≠ active)); [done|].
  destruct (decide (expiresAt (fields room) < now)).
  { cbn. by destruct (tbl_get (_id room) (rooms db)). }
  destruct (head (filter _ (filter _ (roomParticipants db)))) eqn:Hmem; [done|].
  cbn. destruct (decide (_ >= _)); [done|]. intros _. by split; [|split].
Qed.

(** X3: a participant who joined a room can leave it again, and the
    membership table is then what it was before the join, as are the votes;
    the rooms are unchanged too, unless the participant was alone in the
    room, in which case the room is marked completed. *)
Theorem join_then_leave (db : Db) (roomId : Id) (participantId : string) (now : Z)
    (res : Success) :
  db_wf db →
  outcome (Rooms.joinRoom roomId participantId now) db = Return res →
  let joined := store (Rooms.joinRoom roomId participantId now) db in
  outcome (Rooms.leaveRoom roomId participantId) joined = Return (mkSuccess true)
  ∧ roomParticipants (store (Rooms.leaveRoom roomId participantId) joined)
    = roomParticipants db
  ∧ votes (store (Rooms.leaveRoom roomId participantId) joined) = votes db
  ∧ (participants_of roomId db ≠ [] →
     rooms (store (Rooms.leaveRoom roomId participantId) joined) = rooms db)
  ∧ (participants_of roomId db = [] →
     rooms (store (Rooms.leaveRoom roomId participantId) joined)
     = tbl_patch roomId (set_status completed) (rooms db)).
Proof.
  intros (_ & Hp & _) Hjoin. apply joinRoom_returns in Hjoin as (Hmem & [room Hroom] & ->).
  cbn zeta. unfold membership in Hmem. apply head_None in Hmem.
  unfold Rooms.leaveRoom. run_handler. unfold add_participant.
  cbn [roomParticipants rooms votes movies nextId].
  rewrite participants_of_insert. cbn [rp_roomId]. rewrite decide_True by done.
  rewrite filter_app, Hmem. cbn [app].
  rewrite filter_cons, filter_nil. cbn [fields rp_participantId].
  rewrite decide_True by done. cbn [head _id].
  assert (Hget : tbl_get (nextId db)
                   (tbl_insert (nextId db)
                      (mkRoomParticipant roomId participantId now None)
                      (roomParticipants db))
                 = Some (mkDoc (nextId db)
                           (mkRoomParticipant roomId participantId now None))).
  { unfold tbl_get, tbl_insert. rewrite filter_app.
    assert (Hnone : filter (λ d : Doc RoomParticipant, _id d = nextId db)
                           (roomParticipants db) = []).
    { apply head_None, head_filter_None. intros d Hd Heq.
      destruct Hp as [_ Hlt]. specialize (Hlt d Hd). lia. }
    rewrite Hnone. cbn. by rewrite decide_True. }
  cbn [roomParticipants rooms votes movies nextId].
  rewrite Hget. cbn [fst snd roomParticipants rooms votes movies nextId].
  rewrite (tbl_delete_insert _ _ _ Hp).
  destruct (decide (length _ = 0%nat)) as [Hlen|Hlen].
  - apply nil_length_inv in Hlen. cbn [rooms]. rewrite Hroom. cbn.
    split; [done|]. split; [done|]. split; [done|]. split; [|done].
    intros Hne. by destruct Hne.
  - cbn. split; [done|]. split; [done|]. split; [done|]. split; [done|].
    intros Hnil. unfold participants_of in Hnil. rewrite Hnil in Hlen. done.
Qed.

Lemma join_then_leave_witness :
  roomParticipants
    (store (Rooms.leaveRoom 0%nat "dee")
           (store (Rooms.joinRoom 0%nat "dee" 3) (run three_friends_trace empty_db)))
  = roomParticipants (run three_friends_trace empty_db).
Proof.
  assert (Hwf : db_wf (run three_friends_trace empty_db))
    by (apply run_wf, empty_db_wf).
  destruct (join_then_leave (run three_friends_trace empty_db) 0%nat "dee" 3
              (mkSuccess true) Hwf eq_refl) as (_ & H & _).
  exact H.
Defined.

(** ** Creating a room and looking it up *)

Lemma tbl_get_insert_new {A} (n : Id) (a : A) (t : Table A) :
  tbl_wf n t → tbl_get n (tbl_insert n a t) = Some (mkDoc n a).
Proof.
  intros [_ Hlt]. unfold tbl_get, tbl_insert. rewrite filter_app.
  assert (Hnone : filter (λ d : Doc A, _id d = n) t = []).
  { apply head_None, head_filter_None. intros d Hd Heq. specialize (Hlt d Hd). lia. }
  rewrite Hnone. cbn. by rewrite decide_True.
Qed.

(** X4: a room that [createRoom] returned is found again, by its id and by
    its code, with the category, host and capacity it was created with; it
    reads as [active] until [expiresAt], 24 hours after its creation, and as
    [expired] afterwards; and its only participant is the host. *)
Theorem createRoom_then_lookup
    (db : Db) (category hostId : string) (maxP : option Z) (rnd : nat → Q) (now : Z)
    (ref : RoomRef) :
  db_wf db →
  outcome (Rooms.createRoom category hostId maxP rnd now) db = Return ref →
  let created := store (Rooms.createRoom category hostId maxP rnd now) db in
  let room := mkDoc (roomId ref) (new_room (roomCode ref) category hostId maxP now) in
  (∀ now', ¬ now + 86400000 < now' →
     outcome (Rooms.getRoom (roomId ref) now') created = Return (Some room)
     ∧ outcome (Rooms.getRoomByCode (roomCode ref) now') created = Return (Some room))
  ∧ (∀ now', now + 86400000 < now' →
     outcome (Rooms.getRoom (roomId ref) now') created
       = Return (Some (mkDoc (roomId ref) (set_status expired (fields room))))
     ∧ outcome (Rooms.getRoomByCode (roomCode ref) now') created
       = Return (Some (mkDoc (roomId ref) (set_status expired (fields room)))))
  ∧ outcome (Rooms.getParticipants (roomId ref)) created
    = Return [mkDoc (S (roomId ref)) (mkRoomParticipant (roomId ref) hostId now None)].
Proof.
  intros (Hr & _ & _ & _ & Href) Hres.
  apply createRoom_success in Hres as (Hfree & Hid & Hstore).
  cbn zeta. rewrite Hstore, Hid. clear Hstore Hid.
  assert (Hget : tbl_get (nextId db)
                   (rooms (apply_effect
                             (Created (new_room (roomCode ref) category hostId maxP now)
                                      hostId now) db))
                 = Some (mkDoc (nextId db)
                           (new_room (roomCode ref) category hostId maxP now))).
  { cbn. by apply tbl_get_insert_new. }
  assert (Hcode : head (filter (λ r, code (fields r) = roomCode ref)
                          (rooms (apply_effect
                             (Created (new_room (roomCode ref) category hostId maxP now)
                                      hostId now) db)))
                  = Some (mkDoc (nextId db)
                            (new_room (roomCode ref) category hostId maxP now))).
  { cbn. unfold tbl_insert. rewrite filter_app.
    apply code_taken, head_None in Hfree. rewrite Hfree. cbn.
    by rewrite decide_True. }
  split; [|split].
  - intros now' Hlive. unfold Rooms.getRoom, Rooms.getRoomByCode. run_handler.
    rewrite Hget, Hcode. cbn [fst]. unfold Rooms.with_computed_status.
    cbn [fields expiresAt new_room status].
    rewrite decide_False; [done|]. intros [Hlt _]. apply Hlive. lia.
  - intros now' Hdead. unfold Rooms.getRoom, Rooms.getRoomByCode. run_handler.
    rewrite Hget, Hcode. cbn [fst]. unfold Rooms.with_computed_status.
    cbn [fields expiresAt new_room status _id].
    rewrite decide_True; [done|]. split; [lia|done].
  - unfold Rooms.getParticipants. run_handler. cbn [apply_effect].
    unfold add_participant, add_room. cbn [roomParticipants nextId].
    rewrite participants_of_insert. cbn [rp_roomId]. rewrite decide_True by done.
    assert (Hnone : filter (λ q : Doc RoomParticipant, rp_roomId (fields q) = nextId db)
                           (roomParticipants db) = []).
    { apply head_None, head_filter_None. intros q Hq Heq.
      specialize (Href q Hq). lia. }
    by rewrite Hnone.
Qed.

Lemma createRoom_then_lookup_witness :
  outcome (Rooms.getRoomByCode "5500" 10)
          (store (Rooms.createRoom "comedy" "ann" None half 0) empty_db)
  = Return (Some (mkDoc 0%nat (mkRoom "5500" "comedy" "ann" active 86400000 10 0))).
Proof.
  destruct (createRoom_then_lookup empty_db "comedy" "ann" None half 0
              (mkRoomRef 0%nat "5500") empty_db_wf eq_refl) as (Hlive & _).
  destruct (Hlive 10 ltac:(lia)) as [_ H]. exact H.
Defined.

(** ** Votes refer to stored rooms and movies *)

Lemma tbl_get_is_Some_patch {A} (id id' : Id) (f : A → A) (t : Table A) :
  is_Some (tbl_get id t) → is_Some (tbl_get id (tbl_patch id' f t)).
Proof. intros [d Hd]. rewrite tbl_get_patch, Hd. by eexists. Qed.

Lemma tbl_get_is_Some_insert {A} (id n : Id) (a : A) (t : Table A) :
  is_Some (tbl_get id t) → is_Some (tbl_get id (tbl_insert n a t)).
Proof.
  intros [d Hd]. pose proof (tbl_get_Some _ _ _ Hd) as [_ <-].
  exists d. by apply tbl_get_insert_old.
Qed.

(** What [submitVote] can leave behind; a row is inserted only for a stored
    room and a stored movie. *)
Lemma submitVote_store_cases roomId movieId participantId ty now db :
  let after := store (Votes.submitVote roomId movieId participantId ty now) db in
  after = db
  ∨ after = expire_room roomId db
  ∨ (∃ v, v ∈ votes db ∧ after = patch_vote (_id v) ty now db)
  ∨ (is_Some (tbl_get roomId (rooms db)) ∧ is_Some (tbl_get movieId (movies db))
     ∧ after = add_vote (mkVote roomId movieId participantId ty now) db).
Proof.
  cbn zeta. unfold Votes.submitVote. run_handler.
  destruct (tbl_get roomId (rooms db)) as [room|] eqn:Hroom; [|by left].
  pose proof (tbl_get_Some _ _ _ Hroom) as [_ Hid].
  destruct (decide (status (fields room) ≠ active)); [by left|].
  destruct (decide (expiresAt (fields room) < now)).
  { rewrite (tbl_get_self _ _ _ Hroom). cbn. right. left. by rewrite Hid. }
  destruct (head (filter _ (filter _ (roomParticipants db)))) as [p|]; [|by left].
  cbn. destruct (tbl_get movieId (movies db)) as [mv|] eqn:Hmv; [|by left].
  cbn. destruct (head (filter _ (filter _ (votes db)))) as [v|] eqn:Hvote; cbn.
  - pose proof (head_filter_Some _ _ _ Hvote) as [Hv _].
    apply list_elem_of_filter in Hv as [_ Hv].
    destruct (tbl_get_elem_of _ _ Hv) as [v2 ->]. cbn.
    right. right. left. by exists v.
  - right. right. right. split; [by eexists|split; [by eexists|done]].
Qed.

Lemma votes_refer_rooms_patch id s db :
  votes_refer db →
  votes_refer (mkDb (tbl_patch id (set_status s) (rooms db)) (roomParticipants db)
                    (movies db) (votes db) (nextId db)).
Proof.
  intros H v Hv. destruct (H v Hv) as [H1 H2]. cbn. split; [|done].
  by apply tbl_get_is_Some_patch.
Qed.

Lemma exec_votes_refer (c : Call) (now : Z) (db : Db) :
  votes_refer db → votes_refer (exec c now db).
Proof.
  intros Href. destruct c as [cat hid maxP rnd|rid pid|rc pid|rid pid
                              |rid mid pid ty|rid pid|rid pid|rid pid].
  5: { cbn [exec].
       destruct (submitVote_store_cases rid mid pid ty now db)
         as [->|[->|[(v & Hv & ->)|(Hroom & Hmovie & ->)]]]; [done| | |].
       - by apply votes_refer_rooms_patch.
       - intros v' Hv'. cbn in Hv'.
         apply tbl_patch_elem_of in Hv' as (v0 & Hv0 & _ & [->|[_ Hf]]).
         + by apply Href.
         + rewrite Hf. cbn. by apply Href.
       - intros v' Hv'. cbn in Hv'. apply elem_of_app in Hv' as [Hv'|Hv'].
         + by apply Href.
         + apply list_elem_of_singleton in Hv'. subst v'. by cbn. }
  all: match goal with
       | |- votes_refer (exec ?c _ _) =>
           destruct (exec_effect c now db) as (e & Hmay & Hok & Heq)
       end; rewrite Heq;
    destruct e as [|r0 host t0|id|p|id|id rid'|id t0|v|id ty0 t0];
    cbn in Hmay; try done; cbn [apply_effect]; try done.
  all: try (by apply votes_refer_rooms_patch).
  all: try (intros v' Hv'; destruct (Href v' Hv') as [H1 H2]; cbn; split;
            [by apply tbl_get_is_Some_insert|done]).
Qed.

Lemma run_votes_refer (trace : list (Call * Z)) (db : Db) :
  votes_refer db → votes_refer (run trace db).
Proof.
  revert db. induction trace as [|[c now] trace IH]; intros db H; [done|].
  cbn. apply IH. by apply exec_votes_refer.
Qed.

Lemma votes_on_elem_of roomId movieId db v :
  v ∈ votes_on roomId movieId db →
  v ∈ votes db ∧ v_roomId (fields v) = roomId ∧ v_movieId (fields v) = movieId.
Proof.
  intros H. apply list_elem_of_filter in H as [Hm H].
  apply list_elem_of_filter in H as [Hr H]. done.
Qed.

(** X5: every vote row points to a stored room and a stored movie, and no
    trace of calls breaks that; so [getResults] and [getDetailedResults]
    never return an entry whose [movie] is null. *)
Theorem results_always_carry_the_movie (db : Db) (trace : list (Call * Z)) :
  votes_refer db →
  votes_refer (run trace db)
  ∧ ∀ roomId,
      (∀ rs e, outcome (Votes.getResults roomId) (run trace db) = Return rs →
               e ∈ rs → is_Some (Votes.movie e))
      ∧ (∀ ds e, outcome (Votes.getDetailedResults roomId) (run trace db) = Return ds →
                 e ∈ Votes.results ds → is_Some (Votes.de_movie e)).
Proof.
  intros Href. pose proof (run_votes_refer trace db Href) as Hrun.
  split; [done|]. intros roomId.
  assert (Hmovie : ∀ m, m ∈ movies_voted roomId (run trace db) →
                        is_Some (tbl_get m (movies (run trace db)))).
  { intros m Hm. apply movies_voted_spec in Hm.
    destruct (votes_on roomId m (run trace db)) as [|v l] eqn:E; [done|].
    assert (Hv : v ∈ votes_on roomId m (run trace db)) by (rewrite E; left).
    apply votes_on_elem_of in Hv as (Hv & _ & <-). by apply Hrun. }
  split.
  - intros rs e. unfold outcome. rewrite getResults_run. cbn [fst].
    intros [= <-] He. rewrite Array_sort_perm in He.
    apply list_elem_of_fmap in He as (m & -> & Hm). cbn. by apply Hmovie.
  - intros ds e. unfold outcome. rewrite getDetailedResults_run. cbn [fst].
    intros [= <-] He. cbn [Votes.results] in He. rewrite Array_sort_perm in He.
    apply list_elem_of_fmap in He as (m & -> & Hm).
    apply list_elem_of_filter in Hm as [_ Hm]. cbn. by apply Hmovie.
Qed.

Lemma results_always_carry_the_movie_witness :
  votes_refer departed_voter_db.
Proof.
  assert (H0 : votes_refer cinema_db).
  { intros v Hv. by apply elem_of_nil in Hv. }
  destruct (results_always_carry_the_movie cinema_db
              [(CreateRoom "action" "ann" None half, 0);
               (JoinRoom 1%nat "bob", 1); (JoinRoom 1%nat "cy", 2);
               (SubmitVote 1%nat 0%nat "ann" like, 3);
               (SubmitVote 1%nat 0%nat "bob" like, 4);
               (SubmitVote 1%nat 0%nat "cy" like, 5);
               (LeaveRoom 1%nat "cy", 6)] H0) as [H _].
  exact H.
Defined.

(** ** Counting the votes of a movie *)

Lemma likes_dislikes_length (l : list (Doc Vote)) :
  (length (filter (λ v, voteType (fields v) = like) l)
   + length (filter (λ v, voteType (fields v) = dislike) l))%nat
  = length l.
Proof.
  induction l as [|v l IH]; [done|]. rewrite !filter_cons.
  destruct (voteType (fields v)); repeat case_decide; try done; cbn; lia.
Qed.

Lemma NoDup_keys_of_filter {A K} `{!EqDecision K} (key : A → K) (l : list A) :
  (∀ k, (length (filter (λ x, key x = k) l) ≤ 1)%nat) → NoDup (key <$> l).
Proof.
  induction l as [|x l IH]; intros H; [apply NoDup_nil_2|].
  rewrite fmap_cons. apply NoDup_cons. split.
  - intros Hin. apply list_elem_of_fmap in Hin as (y & Hy & Hin).
    specialize (H (key x)). rewrite filter_cons_True in H by done. cbn in H.
    assert (Hlen : (0 < length (filter (λ x0, key x0 = key x) l))%nat).
    { destruct (filter (λ x0, key x0 = key x) l) eqn:E; [|cbn; lia].
      exfalso. by eapply (filter_nil_not_elem_of (λ x0, key x0 = key x)). }
    lia.
  - apply IH. intros k. specialize (H k). rewrite filter_cons in H.
    destruct (decide (key x = k)); cbn in H; lia.
Qed.

Lemma size_list_to_set_le (l : list string) :
  (size (list_to_set l : gset string) ≤ length l)%nat.
Proof.
  induction l as [|x l IH]; [done|]. cbn [list_to_set foldr length].
  change (size ({[x]} ∪ (list_to_set l : gset string)) ≤ S (length l))%nat.
  rewrite size_union_alt, size_singleton.
  pose proof (subseteq_size ((list_to_set l : gset string) ∖ {[x]}) (list_to_set l)
                ltac:(apply subseteq_difference_l; done)).
  lia.
Qed.

(** X6: in every entry of [getResults], [likes + dislikes] is the number of
    vote rows of the movie and [totalVotes] is at most that; when no
    participant has two vote rows on a movie, which [submitVote] maintains,
    [totalVotes = likes + dislikes]. *)
Theorem getResults_vote_totals (db : Db) (roomId : Id) (rs : list Votes.ResultEntry)
    (e : Votes.ResultEntry) :
  outcome (Votes.getResults roomId) db = Return rs → e ∈ rs →
  ∃ m, e = spec_results_entry roomId m db
       ∧ (Votes.likes e + Votes.dislikes e)%nat = length (votes_on roomId m db)
       ∧ (1 ≤ Votes.totalVotes e ≤ Votes.likes e + Votes.dislikes e)%nat
       ∧ (vote_keys_unique db →
          Votes.totalVotes e = (Votes.likes e + Votes.dislikes e)%nat).
Proof.
  unfold outcome. rewrite getResults_run. cbn [fst]. intros [= <-] He.
  rewrite Array_sort_perm in He. apply list_elem_of_fmap in He as (m & -> & Hm).
  exists m. split; [done|]. unfold spec_results_entry.
  cbn [Votes.likes Votes.dislikes Votes.totalVotes].
  unfold likes_on, dislikes_on, voters_on.
  pose proof (likes_dislikes_length (votes_on roomId m db)) as Hlen.
  split; [done|]. rewrite Hlen. split; [split|].
  - apply movies_voted_spec in Hm.
    destruct (votes_on roomId m db) as [|v l]; [done|].
    rewrite fmap_cons. cbn [list_to_set foldr].
    pose proof (size_union_alt ({[v_participantId (fields v)]} : gset string)
                  (list_to_set ((λ v0, v_participantId (fields v0)) <$> l))) as Hs.
    change (list_to_set (v_participantId (fields v) :: ((λ v0, v_participantId (fields v0)) <$> l)))
      with ({[v_participantId (fields v)]}
            ∪ (list_to_set ((λ v0, v_participantId (fields v0)) <$> l) : gset string)).
    rewrite Hs, size_singleton. lia.
  - etrans; [apply size_list_to_set_le|]. by rewrite length_fmap.
  - intros Hu. rewrite size_list_to_set; [by rewrite length_fmap|].
    apply NoDup_keys_of_filter. intros k.
    specialize (Hu roomId m k). by rewrite votes_of_votes_on in Hu.
Qed.

Lemma getResults_vote_totals_witness :
  ∃ rs e m, outcome (Votes.getResults 1%nat) departed_voter_db = Return rs
            ∧ e ∈ rs ∧ e = spec_results_entry 1%nat m departed_voter_db.
Proof.
  destruct (outcome (Votes.getResults 1%nat) departed_voter_db)
    as [[|e rs]|err] eqn:E; [by vm_compute in E| |by vm_compute in E].
  destruct (getResults_vote_totals _ _ _ e E ltac:(left)) as (m & H & _).
  exists (e :: rs), e, m. split; [done|]. split; [left|done].
Defined.


(** ** Completing and resetting *)

Lemma tbl_patch_patch {A} (id : Id) (f g : A → A) (t : Table A) :
  tbl_patch id g (tbl_patch id f t) = tbl_patch id (g ∘ f) t.
Proof.
  unfold tbl_patch. rewrite <- list_fmap_compose. apply list_fmap_ext.
  intros _ d _. cbn. destruct (decide (_id d = id)); cbn.
  - by rewrite decide_True.
  - by rewrite decide_False.
Qed.

Lemma tbl_patch_fixed {A} (n : Id) (p : Doc A) (f : A → A) (t : Table A) :
  tbl_wf n t → p ∈ t → f (fields p) = fields p → tbl_patch (_id p) f t = t.
Proof.
  intros Hwf Hp Hf. unfold tbl_patch.
  etrans; [|apply list_fmap_id]. apply list_fmap_ext. intros i d Hd. cbn.
  destruct (decide (_id d = _id p)) as [Heq|]; [|done].
  apply list_elem_of_lookup_2 in Hd.
  assert (d = p) as -> by (by eapply tbl_wf_inj).
  rewrite Hf. by destruct p.
Qed.

Lemma membership_complete roomId participantId id t db :
  membership roomId participantId (complete_participant id t db)
  = (λ d, if decide (_id d = id)
          then mkDoc (_id d) (set_votingCompletedAt t (fields d)) else d)
      <$> membership roomId participantId db.
Proof.
  unfold membership, complete_participant. cbn [roomParticipants].
  pose proof (filter_tbl_patch (λ a, rp_roomId a = roomId) id
                (set_votingCompletedAt t) (roomParticipants db)) as H1.
  cbn beta in H1. rewrite H1 by done.
  pose proof (filter_tbl_patch (λ a, rp_participantId a = participantId) id
                (set_votingCompletedAt t)
                (filter (λ p, rp_roomId (fields p) = roomId) (roomParticipants db))) as H2.
  cbn beta in H2. rewrite H2 by done.
  unfold tbl_patch. by destruct (filter _ (filter _ (roomParticipants db))).
Qed.

(** X8: in a store with unique ids, for a participant of the room who has
    not completed voting, [rooms.markVotingComplete] succeeds;
    [votes.resetVotingCompletion] then succeeds and leaves the store exactly
    as it was before the two calls, so that [rooms.markVotingComplete]
    succeeds once more; without the reset a second
    [rooms.markVotingComplete] throws (the clock value [now] is not [0]). *)
Theorem complete_then_reset (db : Db) (roomId : Id) (participantId : string)
    (now now' : Z) (p : Doc RoomParticipant) :
  db_wf db → membership roomId participantId db = Some p →
  votingCompletedAt (fields p) = None → now ≠ 0 →
  let db1 := store (Rooms.markVotingComplete roomId participantId now) db in
  outcome (Rooms.markVotingComplete roomId participantId now) db = Return (mkSuccess true)
  ∧ membership roomId participantId db1
    = Some (mkDoc (_id p) (set_votingCompletedAt (Some now) (fields p)))
  ∧ outcome (Rooms.markVotingComplete roomId participantId now') db1
    = Throw "Voting already completed"
  ∧ outcome (Votes.resetVotingCompletion roomId participantId) db1
    = Return (mkSuccess true)
  ∧ store (Votes.resetVotingCompletion roomId participantId) db1 = db
  ∧ outcome (Rooms.markVotingComplete roomId participantId now')
            (store (Votes.resetVotingCompletion roomId participantId) db1)
    = Return (mkSuccess true).
Proof.
  intros Hwf Hm Hnone Hnz db1.
  pose proof (membership_elem_of _ _ _ _ Hm) as (Hin & _ & _).
  destruct Hwf as (_ & Hwfp & _).
  pose proof (tbl_wf_get _ _ _ Hwfp Hin) as Hget.
  assert (Hfirst : outcome (Rooms.markVotingComplete roomId participantId now') db
                   = Return (mkSuccess true)
                   ∧ ∀ t, store (Rooms.markVotingComplete roomId participantId t) db
                          = complete_participant (_id p) (Some t) db).
  { pose proof Hm as Hm'. unfold membership in Hm'.
    unfold Rooms.markVotingComplete. run_handler.
    rewrite Hm'. cbn. rewrite Hnone. cbn. by rewrite Hget. }
  destruct Hfirst as [Hout Hstore].
  assert (Hdb1 : db1 = complete_participant (_id p) (Some now) db) by apply Hstore.
  assert (Hm1 : membership roomId participantId db1
                = Some (mkDoc (_id p) (set_votingCompletedAt (Some now) (fields p)))).
  { rewrite Hdb1, membership_complete, Hm. cbn. by rewrite decide_True. }
  assert (Hget1 : is_Some (tbl_get (_id p) (roomParticipants db1))).
  { rewrite Hdb1. cbn [complete_participant roomParticipants].
    rewrite tbl_get_patch, Hget. by eexists. }
  assert (Hreset : Votes.resetVotingCompletion roomId participantId db1
                   = (Return (mkSuccess true), db)).
  { pose proof Hm1 as Hm'. unfold membership in Hm'.
    unfold Votes.resetVotingCompletion. run_handler.
    rewrite Hm'. cbn [_id]. destruct Hget1 as [d ->]. f_equal.
    rewrite Hdb1. cbn [complete_participant rooms roomParticipants movies votes nextId].
    rewrite tbl_patch_patch.
    rewrite (tbl_patch_fixed (nextId db) p) by (try done; by destruct p as [i []]; cbn in *; subst).
    by destruct db. }
  split; [|split; [done|split; [|split; [|split]]]].
  - unfold Rooms.markVotingComplete in *. run_handler.
    pose proof Hm as Hm'. unfold membership in Hm'.
    rewrite Hm' in *. cbn in *. rewrite Hnone in *. cbn in *. by rewrite Hget in *.
  - pose proof Hm1 as Hm'. unfold membership in Hm'.
    unfold Rooms.markVotingComplete. run_handler.
    rewrite Hm'. cbn. by rewrite bool_decide_true.
  - unfold outcome. by rewrite Hreset.
  - unfold store. by rewrite Hreset.
  - unfold store at 1. rewrite Hreset. cbn [snd]. exact Hout.
Qed.

Lemma complete_then_reset_witness :
  store (Votes.resetVotingCompletion 0%nat "ann")
        (store (Rooms.markVotingComplete 0%nat "ann" 900) expired_db)
  = expired_db.
Proof.
  pose proof (complete_then_reset expired_db 0%nat "ann" 900 901
                (mkDoc 1%nat (mkRoomParticipant 0%nat "ann" 0 None))) as H.
  apply H; [|reflexivity|reflexivity|lia].
  unfold db_wf, tbl_wf, expired_db. cbn.
  repeat split; try apply NoDup_nil_2; try (apply NoDup_singleton);
    intros d Hd; repeat (apply elem_of_cons in Hd as [->|Hd]; [cbn; lia|]);
    by apply elem_of_nil in Hd.
Defined.

(** ** Voting progress *)

Lemma filter_complement_length {A} (P : A → Prop) `{!∀ x, Decision (P x)} (l : list A) :
  (length (filter P l) + length (filter (λ x, ¬ P x) l))%nat = length l.
Proof.
  induction l as [|x l IH]; [done|]. rewrite !filter_cons.
  destruct (decide (P x)), (decide (¬ P x)); try done; cbn; lia.
Qed.

Lemma filter_complement_perm {A} (P : A → Prop) `{!∀ x, Decision (P x)} (l : list A) :
  l ≡ₚ filter P l ++ filter (λ x, ¬ P x) l.
Proof.
  induction l as [|x l IH]; [done|]. rewrite !filter_cons.
  destruct (decide (P x)), (decide (¬ P x)); try done; cbn.
  - by rewrite <- IH.
  - rewrite <- Permutation_middle. by rewrite <- IH.
Qed.

Lemma filter_not_not {A} (f : A → option Z) (l : list A) :
  filter (λ x, f x = None) l = filter (λ x, ¬ f x ≠ None) l.
Proof.
  apply list_filter_iff. intros x. destruct (f x); split; try done.
  - intros H. by destruct H.
  - intros _ H. done.
Qed.

(** The percentages of rooms of fewer than two hundred participants. *)
Lemma round_percent_small (c t : Z) :
  0 < t < 200 → 0 ≤ c ≤ t →
  0 ≤ JS.round_percent c t ≤ 100
  ∧ (JS.round_percent c t = 100 ↔ c = t)
  ∧ (JS.round_percent c t = 0 ↔ c = 0).
Proof.
  intros Ht Hc.
  assert (H : forallb (λ t, forallb (λ c, let r := JS.round_percent c t in
                                          (0 <=? r) && (r <=? 100)
                                          && Bool.eqb (r =? 100) (c =? t)
                                          && Bool.eqb (r =? 0) (c =? 0))
                                    (seqZ 0 (t + 1)))
                      (seqZ 1 199) = true) by (vm_compute; reflexivity).
  rewrite forallb_forall in H. specialize (H t).
  rewrite forallb_forall in H. specialize (H ltac:(apply list_elem_of_In, elem_of_seqZ; lia) c
                                             ltac:(apply list_elem_of_In, elem_of_seqZ; lia)).
  cbn zeta in H. rewrite !andb_true_iff in H. destruct H as [[[H1 H2] H3] H4].
  apply Z.leb_le in H1, H2. apply Bool.eqb_prop in H3, H4.
  split; [lia|]. split.
  - rewrite <- Z.eqb_eq, H3. apply Z.eqb_eq.
  - rewrite <- Z.eqb_eq, H4. apply Z.eqb_eq.
Qed.

Lemma getVotingProgress_run (roomId : Id) (db : Db) :
  let ps := participants_of roomId db in
  let completed := filter (λ p, votingCompletedAt (fields p) ≠ None) ps in
  let pending := filter (λ p, votingCompletedAt (fields p) = None) ps in
  Votes.getVotingProgress roomId db
  = (Return (Votes.mkVotingProgress
               (length ps) (length completed) (length pending)
               (if decide (0 < length ps)%nat
                then JS.round_percent (Z.of_nat (length completed)) (Z.of_nat (length ps))
                else 0)
               (bool_decide (0 < length ps)%nat
                && bool_decide (length completed = length ps))
               ((λ p, rp_participantId (fields p)) <$> ps)
               ((λ p, rp_participantId (fields p)) <$> completed)
               ((λ p, rp_participantId (fields p)) <$> pending)),
     db).
Proof. reflexivity. Qed.

(** X9: [getVotingProgress] writes nothing; the participants it counts as
    completed are those of the room with any [votingCompletedAt], the
    pending ones the others: the two counts add up to [totalParticipants],
    the three id lists have the lengths of the three counts, every
    participant id is in exactly one of the two sublists (counted with
    multiplicity), and [isAllComplete] holds exactly when the room has a
    participant and none is pending; an empty room has percentage [0]. *)
Theorem getVotingProgress_partition (db : Db) (roomId : Id) :
  ∃ vp, Votes.getVotingProgress roomId db = (Return vp, db)
    ∧ Votes.vp_totalParticipants vp = length (participants_of roomId db)
    ∧ Votes.vp_completedParticipants vp
      = length (filter (λ p, is_Some (votingCompletedAt (fields p)))
                       (participants_of roomId db))
    ∧ (Votes.vp_completedParticipants vp + Votes.vp_pendingParticipants vp)%nat
      = Votes.vp_totalParticipants vp
    ∧ length (Votes.vp_participantIds vp) = Votes.vp_totalParticipants vp
    ∧ length (Votes.vp_completedParticipantIds vp) = Votes.vp_completedParticipants vp
    ∧ length (Votes.vp_pendingParticipantIds vp) = Votes.vp_pendingParticipants vp
    ∧ Votes.vp_participantIds vp
      ≡ₚ Votes.vp_completedParticipantIds vp ++ Votes.vp_pendingParticipantIds vp
    ∧ (Votes.vp_isAllComplete vp = true
       ↔ (0 < Votes.vp_totalParticipants vp)%nat ∧ Votes.vp_pendingParticipants vp = 0%nat)
    ∧ (Votes.vp_totalParticipants vp = 0%nat → Votes.vp_completionPercentage vp = 0).
Proof.
  eexists. split; [apply getVotingProgress_run|].
  cbn [Votes.vp_totalParticipants Votes.vp_completedParticipants
       Votes.vp_pendingParticipants Votes.vp_completionPercentage
       Votes.vp_isAllComplete Votes.vp_participantIds
       Votes.vp_completedParticipantIds Votes.vp_pendingParticipantIds].
  set (ps := participants_of roomId db).
  pose proof (filter_complement_length
                (λ p : Doc RoomParticipant, votingCompletedAt (fields p) ≠ None) ps) as Hlen.
  rewrite <- (filter_not_not (λ p : Doc RoomParticipant, votingCompletedAt (fields p)))
    in Hlen.
  split; [done|]. split.
  { f_equal. apply list_filter_iff. intros p.
    destruct (votingCompletedAt (fields p)); split; try done. }
  split; [done|]. rewrite !length_fmap. split; [done|]. split; [done|]. split; [done|].
  split; [|split].
  - rewrite <- fmap_app. apply fmap_Permutation.
    rewrite (filter_not_not (λ p : Doc RoomParticipant, votingCompletedAt (fields p))).
    apply filter_complement_perm.
  - rewrite andb_true_iff, !bool_decide_eq_true. lia.
  - intros ->. done.
Qed.

(** X10: in a room of fewer than two hundred participants the
    [completionPercentage] of [getVotingProgress] lies between [0] and
    [100], is [100] exactly when [isAllComplete] holds and is [0] exactly
    when nobody has completed. *)
Theorem completionPercentage_small_rooms (db : Db) (roomId : Id)
    (vp : Votes.VotingProgress) :
  outcome (Votes.getVotingProgress roomId) db = Return vp →
  (Votes.vp_totalParticipants vp < 200)%nat →
  0 ≤ Votes.vp_completionPercentage vp ≤ 100
  ∧ (Votes.vp_completionPercentage vp = 100 ↔ Votes.vp_isAllComplete vp = true)
  ∧ (Votes.vp_completionPercentage vp = 0 ↔ Votes.vp_completedParticipants vp = 0%nat).
Proof.
  unfold outcome. rewrite getVotingProgress_run. cbn [fst]. intros [= <-].
  cbn [Votes.vp_totalParticipants Votes.vp_completedParticipants
       Votes.vp_completionPercentage Votes.vp_isAllComplete].
  set (ps := participants_of roomId db).
  set (cs := filter (λ p, votingCompletedAt (fields p) ≠ None) ps).
  intros Hsmall.
  assert (Hle : (length cs ≤ length ps)%nat) by apply length_filter.
  rewrite andb_true_iff, !bool_decide_eq_true.
  destruct (decide (0 < length ps)%nat) as [Hpos|Hzero].
  - destruct (round_percent_small (Z.of_nat (length cs)) (Z.of_nat (length ps)))
      as (H1 & H2 & H3); [lia|lia|].
    split; [done|]. split.
    + rewrite H2. lia.
    + rewrite H3. lia.
  - split; [lia|]. split; [split; [lia|intros [? ?]; lia]|]. split; [lia|done].
Qed.

Lemma completionPercentage_small_rooms_witness :
  ∃ vp, outcome (Votes.getVotingProgress 0%nat) (crowd_db 3 2) = Return vp
        ∧ Votes.vp_completionPercentage vp = 67
        ∧ 0 ≤ Votes.vp_completionPercentage vp ≤ 100.
Proof.
  eexists. split; [reflexivity|]. split; [by vm_compute|].
  refine (proj1 (completionPercentage_small_rooms (crowd_db 3 2) 0%nat _ eq_refl _)).
  vm_compute. lia.
Defined.

(** From two hundred participants on the percentage reads [100] while one
    participant is still pending. *)
Example completionPercentage_199_of_200 :
  ∃ vp, outcome (Votes.getVotingProgress 0%nat) (crowd_db 200 199) = Return vp
        ∧ Votes.vp_completionPercentage vp = 100
        ∧ Votes.vp_pendingParticipants vp = 1%nat
        ∧ Votes.vp_isAllComplete vp = false.
Proof. eexists. split; [reflexivity|]. by vm_compute. Qed.

(** ** The hooks against the queries *)

(** X11: the three places that compute completion figures agree: on any
    store, what [useVotingCompletion] derives from [getVotingProgress] and
    what [useDetailedResults] derives from the roster of
    [getDetailedResults] are the counts, the percentage and the
    [isAllComplete] flag that [getVotingProgress] itself returns, and
    neither hook is loading. *)
Theorem completion_figures_agree (db : Db) (roomId : Id) :
  ∃ vp ds,
    useQuery (Votes.getVotingProgress roomId) db = Some vp
    ∧ useQuery (Votes.getDetailedResults roomId) db = Some ds
    ∧ (let s := Hooks.useVotingCompletion (Some vp) in
       Hooks.totalParticipants s = Votes.vp_totalParticipants vp
       ∧ Hooks.completedParticipants s = Votes.vp_completedParticipants vp
       ∧ Hooks.completionPercentage s = Votes.vp_completionPercentage vp
       ∧ Hooks.isAllComplete s = Votes.vp_isAllComplete vp
       ∧ Hooks.isLoading s = false)
    ∧ (let d := Hooks.useDetailedResults (Some ds) in
       Hooks.dc_totalParticipants d = Votes.vp_totalParticipants vp
       ∧ Hooks.dc_completedParticipants d = Votes.vp_completedParticipants vp
       ∧ Hooks.dc_completionPercentage d = Votes.vp_completionPercentage vp
       ∧ Hooks.dc_isAllComplete d = Votes.vp_isAllComplete vp
       ∧ Hooks.dc_isLoading d = false
       ∧ Votes.pi_participantId <$> Hooks.dc_participants d = Votes.vp_participantIds vp).
Proof.
  eexists _, _. unfold useQuery, outcome.
  rewrite getVotingProgress_run, getDetailedResults_run. cbn [fst].
  split; [done|]. split; [done|].
  set (ps := participants_of roomId db).
  assert (Hc : length (filter (λ p, Votes.pi_votingCompletedAt p ≠ None)
                 ((λ p, Votes.mkParticipantInfo (Votes.pi_participantId p)
                                                (Votes.pi_votingCompletedAt p))
                    <$> ((λ p, Votes.mkParticipantInfo (rp_participantId (fields p))
                                                       (votingCompletedAt (fields p)))
                           <$> ps)))
               = length (filter (λ p, votingCompletedAt (fields p) ≠ None) ps)).
  { induction ps as [|p ps IH]; [done|]. rewrite !fmap_cons, !filter_cons.
    cbn [Votes.pi_votingCompletedAt].
    destruct (decide (votingCompletedAt (fields p) ≠ None)); cbn; by rewrite IH. }
  split.
  - cbn. rewrite !length_fmap. done.
  - unfold Hooks.useDetailedResults.
    cbn [Votes.participants Hooks.dc_totalParticipants Hooks.dc_completedParticipants
         Hooks.dc_completionPercentage Hooks.dc_isAllComplete Hooks.dc_isLoading
         Hooks.dc_participants Votes.vp_totalParticipants Votes.vp_completedParticipants
         Votes.vp_completionPercentage Votes.vp_isAllComplete Votes.vp_participantIds].
    rewrite Hc, !length_fmap. repeat split; try done.
    rewrite <- !list_fmap_compose. by apply list_fmap_ext.
Qed.

(** ** [useVoting] against [submitVote] *)

Lemma find_head_filter {A} (P : A → Prop) `{!∀ x, Decision (P x)} (l : list A) :
  List.find (λ x, bool_decide (P x)) l = head (filter P l).
Proof.
  induction l as [|x l IH]; [done|]. cbn [List.find]. rewrite filter_cons.
  destruct (decide (P x)).
  - by rewrite bool_decide_true.
  - by rewrite bool_decide_false.
Qed.

Lemma existsb_filter {A} (P : A → Prop) `{!∀ x, Decision (P x)} (l : list A) :
  existsb (λ x, bool_decide (P x)) l = bool_decide (filter P l ≠ []).
Proof.
  induction l as [|x l IH]; [done|]. cbn [existsb]. rewrite filter_cons.
  destruct (decide (P x)).
  - by rewrite bool_decide_true.
  - by rewrite bool_decide_false.
Qed.

Lemma my_votes_on roomId participantId movieId db :
  filter (λ v, v_movieId (fields v) = movieId) (my_votes roomId participantId db)
  = votes_of roomId movieId participantId db.
Proof.
  unfold my_votes, Hooks.myVotes, useQuery, Votes.getVotes, votes_of. run_handler.
  cbn [default]. apply list_filter_filter.
Qed.

Lemma getVoteType_votes_of roomId participantId movieId db :
  Hooks.getVoteType (my_votes roomId participantId db) movieId
  = (λ v, voteType (fields v)) <$> head (votes_of roomId movieId participantId db).
Proof.
  unfold Hooks.getVoteType.
  rewrite (find_head_filter (λ v : Doc Vote, v_movieId (fields v) = movieId)).
  rewrite my_votes_on. by destruct (head _).
Qed.

Lemma hasVoted_votes_of roomId participantId movieId db :
  Hooks.hasVoted (my_votes roomId participantId db) movieId
  = bool_decide (votes_of roomId movieId participantId db ≠ []).
Proof.
  unfold Hooks.hasVoted.
  rewrite (existsb_filter (λ v : Doc Vote, v_movieId (fields v) = movieId)).
  by rewrite my_votes_on.
Qed.

(** X12: in a store with unique ids, once [submitVote] has returned, the
    hook [useVoting] of the voter reports the movie as voted with the
    submitted vote type, whatever the earlier vote was; for every other
    room, participant or movie, [hasVoted] and [getVoteType] answer as
    before the call. *)
Theorem useVoting_after_submitVote (db : Db) (roomId movieId : Id)
    (participantId : string) (ty : VoteType) (now : Z) (res : Votes.SubmitVoteResult) :
  db_wf db →
  outcome (Votes.submitVote roomId movieId participantId ty now) db = Return res →
  let after := store (Votes.submitVote roomId movieId participantId ty now) db in
  Hooks.hasVoted (my_votes roomId participantId after) movieId = true
  ∧ Hooks.getVoteType (my_votes roomId participantId after) movieId = Some ty
  ∧ ∀ roomId' participantId' movieId',
      (roomId', participantId', movieId') ≠ (roomId, participantId, movieId) →
      Hooks.hasVoted (my_votes roomId' participantId' after) movieId'
      = Hooks.hasVoted (my_votes roomId' participantId' db) movieId'
      ∧ Hooks.getVoteType (my_votes roomId' participantId' after) movieId'
        = Hooks.getVoteType (my_votes roomId' participantId' db) movieId'.
Proof.
  intros Hwf Hret after. subst after.
  destruct Hwf as (_ & _ & _ & Hwfv & _).
  setoid_rewrite hasVoted_votes_of. setoid_rewrite getVoteType_votes_of.
  destruct (submitVote_returns _ _ _ _ _ _ _ Hret) as
    [(v & Hv & _ & ->)|(Hnil & _ & ->)].
  - assert (Hin : v ∈ votes_of roomId movieId participantId db)
      by (by apply head_Some_elem_of).
    pose proof Hin as Hin'. unfold votes_of in Hin'.
    apply list_elem_of_filter in Hin' as [[Hvm Hvp] Hin'].
    apply list_elem_of_filter in Hin' as [Hvr Hvin].
    split; [|split].
    + rewrite votes_of_patch. apply bool_decide_eq_true_2. unfold tbl_patch.
      destruct (votes_of roomId movieId participantId db); [done|]. done.
    + rewrite votes_of_patch. unfold tbl_patch.
      destruct (votes_of roomId movieId participantId db) as [|v0 l]; [done|].
      injection Hv as ->. cbn. by rewrite decide_True.
    + intros r' p' m' Hne. rewrite !votes_of_patch.
      assert (Hsame : tbl_patch (_id v) (set_vote ty now) (votes_of r' m' p' db)
                      = votes_of r' m' p' db).
      { unfold tbl_patch. etrans; [|apply list_fmap_id]. apply list_fmap_ext.
        intros i d Hd. cbn. destruct (decide (_id d = _id v)) as [Heq|]; [|done].
        apply list_elem_of_lookup_2 in Hd. unfold votes_of in Hd.
        apply list_elem_of_filter in Hd as [[Hdm Hdp] Hd].
        apply list_elem_of_filter in Hd as [Hdr Hd].
        assert (d = v) as -> by (by eapply tbl_wf_inj).
        exfalso. apply Hne. congruence. }
      by rewrite Hsame.
  - split; [|split].
    + rewrite votes_of_add. cbn [v_roomId v_movieId v_participantId].
      rewrite Hnil, decide_True by done. done.
    + rewrite votes_of_add. cbn [v_roomId v_movieId v_participantId].
      rewrite Hnil, decide_True by done. done.
    + intros r' p' m' Hne. rewrite !votes_of_add.
      cbn [v_roomId v_movieId v_participantId].
      rewrite decide_False; [by rewrite app_nil_r|].
      intros (? & ? & ?). apply Hne. congruence.
Qed.

Lemma useVoting_after_submitVote_witness :
  Hooks.getVoteType
    (my_votes 1%nat "ann"
       (store (Votes.submitVote 1%nat 0%nat "ann" dislike 7) two_of_three_db))
    0%nat
  = Some dislike.
Proof.
  refine (proj1 (proj2 (useVoting_after_submitVote two_of_three_db 1%nat 0%nat "ann"
                          dislike 7 (Votes.mkSubmitVoteResult 5%nat true) _ eq_refl))).
  apply run_wf. unfold db_wf, tbl_wf, cinema_db. cbn.
  repeat split; try apply NoDup_nil_2; try (apply NoDup_singleton);
    intros d Hd; repeat (apply elem_of_cons in Hd as [->|Hd]; [cbn; lia|]);
    by apply elem_of_nil in Hd.
Defined.

Lemma filter_split_length {A} (P Q : A → Prop)
    `{!∀ x, Decision (P x)} `{!∀ x, Decision (Q x)} (l : list A) :
  (∀ x, Q x ↔ ¬ P x) →
  (length (filter P l) + length (filter Q l))%nat = length l.
Proof.
  intros HQ. induction l as [|x l IH]; [done|]. rewrite !filter_cons.
  destruct (decide (P x)), (decide (Q x)); cbn; try lia.
  - by destruct (proj1 (HQ x)).
  - by destruct n0; apply HQ.
Qed.

(** X13: when no participant has two vote rows on a movie and the hook is
    given a duplicate-free list of movies that holds every movie the
    participant voted on, the progress of [useVoting] counts movies:
    [votedMovies] is the number of listed movies with [hasVoted],
    [remainingMovies] the number of those without, and below two hundred
    movies the percentage is at most [100], reaching it exactly when no
    movie remains. *)
Theorem useVoting_progress (db : Db) (roomId : Id) (participantId : string)
    (movies : list Id) :
  vote_keys_unique db → NoDup movies →
  (∀ v, v ∈ my_votes roomId participantId db → v_movieId (fields v) ∈ movies) →
  let mv := my_votes roomId participantId db in
  let p := Hooks.getVotingProgress mv movies in
  Hooks.votedMovies p = length (filter (λ m, Hooks.hasVoted mv m = true) movies)
  ∧ Hooks.remainingMovies p
    = Z.of_nat (length (filter (λ m, Hooks.hasVoted mv m = false) movies))
  ∧ (Hooks.votedMovies p ≤ Hooks.totalMovies p)%nat
  ∧ ((0 < Hooks.totalMovies p < 200)%nat →
     0 ≤ Hooks.progressPercentage p ≤ 100
     ∧ (Hooks.progressPercentage p = 100 ↔ Hooks.remainingMovies p = 0)).
Proof.
  intros Hu Hnd Hcover mv p.
  assert (Hkeys : NoDup ((λ v, v_movieId (fields v)) <$> mv)).
  { apply NoDup_keys_of_filter. intros k. subst mv. rewrite my_votes_on. apply Hu. }
  assert (Hvoted : ∀ m, Hooks.hasVoted mv m = true
                        ↔ m ∈ (λ v, v_movieId (fields v)) <$> mv).
  { intros m. unfold Hooks.hasVoted.
    rewrite (existsb_filter (λ v : Doc Vote, v_movieId (fields v) = m)).
    rewrite bool_decide_eq_true, list_elem_of_fmap. split.
    - intros Hne. destruct (filter _ mv) as [|v l] eqn:E; [done|].
      assert (Hv : v ∈ filter (λ v, v_movieId (fields v) = m) mv) by (rewrite E; left).
      apply list_elem_of_filter in Hv as [? ?]. by exists v.
    - intros (v & -> & Hv) Hnil.
      assert (Hv' : v ∈ filter (λ v', v_movieId (fields v') = v_movieId (fields v)) mv)
        by (by apply list_elem_of_filter).
      rewrite Hnil in Hv'. by apply elem_of_nil in Hv'. }
  assert (Hperm : filter (λ m, Hooks.hasVoted mv m = true) movies
                  ≡ₚ (λ v, v_movieId (fields v)) <$> mv).
  { apply NoDup_Permutation; [by apply NoDup_filter|done|].
    intros m. rewrite list_elem_of_filter, Hvoted. split; [tauto|].
    intros Hm. split; [done|].
    apply list_elem_of_fmap in Hm as (v & -> & Hv). by apply Hcover. }
  assert (Hlen : length (filter (λ m, Hooks.hasVoted mv m = true) movies) = length mv)
    by (by rewrite Hperm, length_fmap).
  pose proof (filter_split_length (λ m, Hooks.hasVoted mv m = true)
                (λ m, Hooks.hasVoted mv m = false) movies) as Hsum.
  assert (Hneg : ∀ m, Hooks.hasVoted mv m = false ↔ ¬ Hooks.hasVoted mv m = true).
  { intros m. by destruct (Hooks.hasVoted mv m). }
  specialize (Hsum Hneg).
  subst p. unfold Hooks.getVotingProgress.
  cbn [Hooks.votedMovies Hooks.remainingMovies Hooks.totalMovies Hooks.progressPercentage].
  split; [done|]. split; [lia|]. split; [lia|].
  intros Htot. rewrite decide_True by lia.
  destruct (round_percent_small (Z.of_nat (length mv)) (Z.of_nat (length movies)))
    as (H1 & H2 & _); [lia|lia|].
  split; [done|]. rewrite H2. lia.
Qed.

Lemma useVoting_progress_witness :
  Hooks.votedMovies
    (Hooks.getVotingProgress (my_votes 1%nat "ann" two_of_three_db) [0%nat; 7%nat])
  = length (filter (λ m, Hooks.hasVoted (my_votes 1%nat "ann" two_of_three_db) m = true)
                   [0%nat; 7%nat]).
Proof.
  refine (proj1 (useVoting_progress two_of_three_db 1%nat "ann" [0%nat; 7%nat] _ _ _)).
  - apply run_vote_keys. intros r m q. cbn. lia.
  - apply NoDup_cons. split; [|apply NoDup_singleton].
    intros H. apply list_elem_of_singleton in H. lia.
  - intros v Hv. vm_compute in Hv.
    apply list_elem_of_singleton in Hv as ->. left.
Defined.

(** * The tables beside the voting core *)

Ltac run_mutation :=
  unfold outcomeS, storeS, firstS, filterS, bindS, retS, throwS, lift,
    roomMovies_by_room, messages_by_room, reactions_by_participant_and_message,
    all_reactions, typing_by_participant_and_room, typing_by_room,
    insert_roomMovie, insert_message, insert_reaction, delete_reaction,
    insert_typing, patch_typing, delete_typing,
    voteReactions_by_room, all_voteReactions, insert_voteReaction,
    delete_voteReaction in *;
  cbn [fst snd] in *.

(** ** [addMovie] *)

Lemma addMovie_run (t : Z) (title0 : string) (db : Db) :
  VotingMovies.addMovie t title0 db
  = match head (filter (λ m, tmdbId (fields m) = t) (movies db)) with
    | Some m => (Return (_id m), db)
    | None =>
        (Return (nextId db),
         mkDb (rooms db) (roomParticipants db)
              (tbl_insert (nextId db) (mkMovie t title0) (movies db))
              (votes db) (S (nextId db)))
    end.
Proof.
  unfold VotingMovies.addMovie, movies_by_tmdb_id, db_insert_movie. run_handler.
  by destruct (head _).
Qed.

(** X14: [addMovie] is get-or-create on the TMDB id.  In a store with
    unique ids it returns an id under which [getMovie] then finds a movie
    with the given TMDB id, the same movie [getMovieByTmdbId] finds; when a
    movie with the TMDB id was stored already the store is unchanged (the
    title given is ignored), otherwise one movie is appended; calling
    [addMovie] again with the same TMDB id and any title returns the same
    id and writes nothing; and TMDB ids stay unique when they were. *)
Theorem addMovie_get_or_create (db : Db) (t : Z) (title1 title2 : string) :
  db_wf db →
  let after := store (VotingMovies.addMovie t title1) db in
  ∃ id m,
    outcome (VotingMovies.addMovie t title1) db = Return id
    ∧ outcome (VotingMovies.getMovie id) after = Return (Some m)
    ∧ outcome (VotingMovies.getMovieByTmdbId t) after = Return (Some m)
    ∧ _id m = id ∧ tmdbId (fields m) = t
    ∧ (outcome (VotingMovies.getMovieByTmdbId t) db = Return (Some m) ∧ after = db
       ∨ outcome (VotingMovies.getMovieByTmdbId t) db = Return None
         ∧ m = mkDoc (nextId db) (mkMovie t title1)
         ∧ movies after = movies db ++ [m])
    ∧ VotingMovies.addMovie t title2 after = (Return id, after)
    ∧ (tmdb_unique db → tmdb_unique after).
Proof.
  intros Hwf after. destruct Hwf as (_ & _ & Hwfm & _).
  subst after. unfold outcome, store. rewrite addMovie_run.
  unfold VotingMovies.getMovie, VotingMovies.getMovieByTmdbId, movies_by_tmdb_id.
  run_handler.
  destruct (head (filter (λ m, tmdbId (fields m) = t) (movies db))) as [m|] eqn:Hhead;
    cbn [fst snd].
  - exists (_id m), m. pose proof (head_filter_Some _ _ _ Hhead) as [Hin Ht].
    rewrite (tbl_wf_get _ _ _ Hwfm Hin), Hhead.
    repeat split; try done; [by left|].
    by rewrite addMovie_run, Hhead.
  - exists (nextId db), (mkDoc (nextId db) (mkMovie t title1)). cbn [movies].
    rewrite (tbl_get_insert_new _ _ _ Hwfm).
    assert (Hnil : filter (λ m, tmdbId (fields m) = t) (movies db) = [])
      by (by apply head_None).
    assert (Hnew : filter (λ m, tmdbId (fields m) = t)
                          (tbl_insert (nextId db) (mkMovie t title1) (movies db))
                   = [mkDoc (nextId db) (mkMovie t title1)]).
    { unfold tbl_insert. rewrite filter_app, Hnil, filter_cons_True by done.
      by rewrite filter_nil. }
    rewrite Hnew. repeat split; try done; [by right| |].
    + rewrite addMovie_run. cbn [movies]. by rewrite Hnew.
    + intros Hu t'. cbn [movies]. unfold tbl_insert. rewrite filter_app, length_app.
      rewrite filter_cons, filter_nil. cbn [fields tmdbId].
      destruct (decide (t = t')) as [<-|]; cbn [length].
      * rewrite Hnil. cbn. lia.
      * specialize (Hu t'). lia.
Qed.

Lemma addMovie_get_or_create_witness :
  outcome (VotingMovies.addMovie 603 "Matrix")
          (store (VotingMovies.addMovie 603 "The Matrix") empty_db)
  = Return 0%nat.
Proof.
  destruct (addMovie_get_or_create empty_db 603 "The Matrix" "Matrix" empty_db_wf)
    as (id & m & H1 & _ & _ & _ & _ & _ & H7 & _).
  unfold outcome at 1. rewrite H7. cbn [fst]. rewrite <- H1. reflexivity.
Defined.

(** ** [linkMoviesToRoom] and [getRoomMovies] *)

Lemma mapMS_pure {A B} (f : A → Mutation B) (g : A → B) (l : list A) (s : Store) :
  (∀ x, f x s = (Return (g x), s)) → mapMS f l s = (Return (g <$> l), s).
Proof.
  intros Hf. induction l as [|x l IH]; [done|].
  cbn [mapMS]. unfold bindS, retS. by rewrite Hf, IH.
Qed.

Lemma getRoomMovies_run (roomId : Id) (s : Store) :
  VotingMovies.getRoomMovies roomId s
  = (Return (omap (λ m, tbl_get m (movies (core s))) (linked_movies roomId s)), s).
Proof.
  unfold VotingMovies.getRoomMovies, roomMovies_by_room, bindS, retS. cbn beta iota.
  rewrite (mapMS_pure _ (λ rm, tbl_get (rm_movieId (fields rm)) (movies (core s)))).
  - f_equal. f_equal. unfold linked_movies.
    generalize (filter (λ rm, rm_roomId (fields rm) = roomId) (roomMovies s)).
    intros l. induction l as [|x l IH]; [done|]. cbn. by rewrite IH.
  - intros x. unfold lift, db_get_movie. cbn. by destruct s.
Qed.

Lemma link_from_run (roomId : Id) (i : nat) (movieIds : list Id) (s : Store) :
  VotingMovies.link_from roomId i movieIds s
  = (Return (),
     mkStore (mkDb (rooms (core s)) (roomParticipants (core s)) (movies (core s))
                   (votes (core s)) (nextId (core s) + length movieIds))
             (roomMovies s
              ++ imap (λ k m, mkDoc (nextId (core s) + k)%nat
                                    (mkRoomMovie roomId m (i + k)))
                      movieIds)
             (messages s) (messageReactions s) (typingStatus s) (voteReactions s)).
Proof.
  revert i s. induction movieIds as [|m l IH]; intros i s.
  - cbn. unfold retS. rewrite Nat.add_0_r, app_nil_r. by destruct s as [[] ? ? ? ?].
  - cbn [VotingMovies.link_from]. unfold bindS, insert_roomMovie. rewrite IH.
    cbn [core roomMovies messages messageReactions typingStatus tick
         rooms roomParticipants movies votes nextId length imap].
    f_equal. f_equal.
    + f_equal. lia.
    + unfold tbl_insert. rewrite <- app_assoc. f_equal. cbn. rewrite !Nat.add_0_r.
      f_equal. apply imap_ext. intros k x _. cbn. do 2 f_equal; [lia|f_equal; lia].
Qed.

Lemma links_spec (roomId : Id) (l : list Id) (n i : nat) :
  let links := imap (λ k m, mkDoc (n + k)%nat (mkRoomMovie roomId m (i + k))) l in
  (λ rm, rm_movieId (fields rm)) <$> links = l
  ∧ (λ rm, position (fields rm)) <$> links = seq i (length l)
  ∧ Forall (λ rm, rm_roomId (fields rm) = roomId) links.
Proof.
  revert n i. induction l as [|m l IH]; intros n i; [by repeat split|].
  cbn [imap]. destruct (IH (S n) (S i)) as (H1 & H2 & H3).
  assert (Hext : imap ((λ k m0, mkDoc (n + k)%nat (mkRoomMovie roomId m0 (i + k))) ∘ S) l
                 = imap (λ k m0, mkDoc (S n + k)%nat (mkRoomMovie roomId m0 (S i + k))) l).
  { apply imap_ext. intros k x _. cbn. f_equal; [lia|f_equal; lia]. }
  cbn zeta. rewrite Hext. cbn zeta in H1, H2, H3.
  rewrite !fmap_cons, H1, H2. cbn [fields rm_movieId position length seq].
  rewrite Nat.add_0_r. split; [done|]. split; [done|]. by apply Forall_cons.
Qed.

(** X15: [linkMoviesToRoom] returns the number of ids it was given and
    appends one link per id, at positions [0, 1, ...] in the order given
    and without looking for earlier links; [getRoomMovies] of the room then
    returns what it returned before followed by the stored movies among the
    given ids, in the order given (an id without a stored movie is
    skipped); other rooms and the other tables are left alone, and
    [getRoomMovies] writes nothing. *)
Theorem linkMoviesToRoom_then_getRoomMovies (s : Store) (roomId : Id)
    (movieIds : list Id) :
  let after := storeS (VotingMovies.linkMoviesToRoom roomId movieIds) s in
  outcomeS (VotingMovies.linkMoviesToRoom roomId movieIds) s
    = Return (VotingMovies.mkLinkResult true (length movieIds))
  ∧ (∃ links, roomMovies after = roomMovies s ++ links
       ∧ (λ rm, rm_movieId (fields rm)) <$> links = movieIds
       ∧ (λ rm, position (fields rm)) <$> links = seq 0 (length movieIds)
       ∧ Forall (λ rm, rm_roomId (fields rm) = roomId) links)
  ∧ linked_movies roomId after = linked_movies roomId s ++ movieIds
  ∧ (∃ before,
       VotingMovies.getRoomMovies roomId s = (Return before, s)
       ∧ VotingMovies.getRoomMovies roomId after
         = (Return (before ++ omap (λ m, tbl_get m (movies (core s))) movieIds), after))
  ∧ (∀ roomId', roomId' ≠ roomId →
       outcomeS (VotingMovies.getRoomMovies roomId') after
       = outcomeS (VotingMovies.getRoomMovies roomId') s)
  ∧ movies (core after) = movies (core s)
  ∧ messages after = messages s
  ∧ messageReactions after = messageReactions s
  ∧ typingStatus after = typingStatus s.
Proof.
  intros after. subst after.
  assert (Hrun : VotingMovies.linkMoviesToRoom roomId movieIds s
                 = (Return (VotingMovies.mkLinkResult true (length movieIds)),
                    snd (VotingMovies.link_from roomId 0 movieIds s))).
  { unfold VotingMovies.linkMoviesToRoom, bindS, retS. by rewrite link_from_run. }
  unfold outcomeS, storeS. rewrite Hrun. clear Hrun.
  rewrite link_from_run. cbn [fst snd].
  set (links := imap (λ k m, mkDoc (nextId (core s) + k)%nat (mkRoomMovie roomId m (0 + k)))
                     movieIds).
  destruct (links_spec roomId movieIds (nextId (core s)) 0) as (Hids & Hpos & Hroom).
  fold links in Hids, Hpos, Hroom.
  assert (Hlinked : ∀ r (s' : Store),
            roomMovies s' = roomMovies s ++ links →
            linked_movies r s'
            = linked_movies r s ++ (if decide (r = roomId) then movieIds else [])).
  { intros r s' Hs'. unfold linked_movies. rewrite Hs', filter_app, fmap_app. f_equal.
    destruct (decide (r = roomId)) as [->|Hne].
    - etrans; [|exact Hids]. f_equal. apply filter_all. by apply Forall_forall.
    - assert (Hnone : filter (λ rm, rm_roomId (fields rm) = r) links = []).
      { apply head_None, head_filter_None. intros rm Hrm Heq.
        rewrite Forall_forall in Hroom. apply Hne. rewrite <- Heq. by apply Hroom. }
      by rewrite Hnone. }
  split; [done|]. split; [|split; [|split; [|split]]].
  - by exists links.
  - rewrite (Hlinked roomId) by reflexivity. by rewrite decide_True.
  - eexists. split; [apply getRoomMovies_run|].
    rewrite getRoomMovies_run. f_equal. f_equal.
    rewrite (Hlinked roomId) by reflexivity. rewrite decide_True by done.
    by rewrite omap_app.
  - intros r Hne. unfold outcomeS. rewrite !getRoomMovies_run. cbn [fst]. f_equal.
    rewrite (Hlinked r) by reflexivity. rewrite decide_False by done.
    by rewrite app_nil_r.
  - done.
Qed.

(** ** Typing status *)

Lemma is_typing_iff roomId t s participantId :
  is_typing roomId t s participantId
  ↔ ∃ d, d ∈ typingStatus s ∧ ts_roomId (fields d) = roomId
         ∧ ts_participantId (fields d) = participantId
         ∧ t - 3000 ≤ updatedAt (fields d).
Proof.
  unfold is_typing, Presence.getTypingUsers. run_mutation. split.
  - intros (users & [= <-] & Hin).
    apply list_elem_of_fmap in Hin as (d & -> & Hd).
    apply list_elem_of_filter in Hd as [Hup Hd].
    apply list_elem_of_filter in Hd as [Hr Hd].
    exists d. repeat split; try done. lia.
  - intros (d & Hd & Hr & Hp & Hup). eexists. split; [done|].
    apply list_elem_of_fmap. exists d. split; [done|].
    apply list_elem_of_filter. split; [lia|]. by apply list_elem_of_filter.
Qed.

Lemma typing_of_elem_of roomId participantId s d :
  d ∈ typing_of roomId participantId s
  ↔ d ∈ typingStatus s ∧ ts_roomId (fields d) = roomId
    ∧ ts_participantId (fields d) = participantId.
Proof. unfold typing_of. rewrite list_elem_of_filter. tauto. Qed.

Lemma setTypingStatus_run roomId participantId isTyping now s :
  Presence.setTypingStatus roomId participantId isTyping now s
  = match head (typing_of roomId participantId s), isTyping with
    | Some e, true =>
        match tbl_get (_id e) (typingStatus s) with
        | Some _ =>
            (Return (), mkStore (core s) (roomMovies s) (messages s) (messageReactions s)
                                (tbl_patch (_id e) (set_updatedAt now) (typingStatus s)) (voteReactions s))
        | None => (Throw "Update on nonexistent document", s)
        end
    | Some e, false =>
        match tbl_get (_id e) (typingStatus s) with
        | Some _ =>
            (Return (), mkStore (core s) (roomMovies s) (messages s) (messageReactions s)
                                (tbl_delete (_id e) (typingStatus s)) (voteReactions s))
        | None => (Throw "Delete on nonexistent document", s)
        end
    | None, true =>
        (Return (),
         mkStore (tick (core s)) (roomMovies s) (messages s) (messageReactions s)
                 (tbl_insert (nextId (core s))
                             (mkTypingStatus roomId participantId now) (typingStatus s)) (voteReactions s))
    | None, false => (Return (), s)
    end.
Proof.
  unfold Presence.setTypingStatus, typing_of. destruct isTyping; run_mutation;
    by destruct (head _).
Qed.

Lemma tbl_patch_rows {A} (n : Id) (e : Doc A) (f : A → A) (t : Table A) (d' : Doc A) :
  tbl_wf n t → e ∈ t →
  d' ∈ tbl_patch (_id e) f t
  ↔ (d' ∈ t ∧ _id d' ≠ _id e) ∨ d' = mkDoc (_id e) (f (fields e)).
Proof.
  intros Hwf He. unfold tbl_patch. rewrite list_elem_of_fmap. split.
  - intros (d & -> & Hd). destruct (decide (_id d = _id e)) as [Heq|Hne].
    + right. assert (d = e) as -> by (by eapply tbl_wf_inj). done.
    + by left.
  - intros [[Hd Hne] | ->].
    + exists d'. split; [|done]. by rewrite decide_False.
    + exists e. split; [|done]. by rewrite decide_True.
Qed.

Lemma tbl_delete_rows {A} (id : Id) (t : Table A) (d' : Doc A) :
  d' ∈ tbl_delete id t ↔ d' ∈ t ∧ _id d' ≠ id.
Proof. unfold tbl_delete. rewrite list_elem_of_filter. tauto. Qed.

Lemma tbl_insert_rows {A} (n : Id) (a : A) (t : Table A) (d' : Doc A) :
  d' ∈ tbl_insert n a t ↔ d' ∈ t ∨ d' = mkDoc n a.
Proof. unfold tbl_insert. rewrite elem_of_app, list_elem_of_singleton. tauto. Qed.

(** X16: in a store where typing rows have unique ids and no participant
    has two typing rows in a room, [setTypingStatus] succeeds; after
    [isTyping = true] at time [now], [getTypingUsers] at time [t] lists the
    participant exactly when [t - 3000 ≤ now]; after [isTyping = false] it
    never lists the participant; what it reports about any other
    participant or room is unchanged; and the two conditions on the store
    are kept. *)
Theorem typing_window (s : Store) (roomId : Id) (participantId : string)
    (isTyping : bool) (now : Z) :
  tbl_wf (nextId (core s)) (typingStatus s) → typing_unique s →
  let after := storeS (Presence.setTypingStatus roomId participantId isTyping now) s in
  outcomeS (Presence.setTypingStatus roomId participantId isTyping now) s = Return ()
  ∧ (∀ t, is_typing roomId t after participantId ↔ isTyping = true ∧ t - 3000 ≤ now)
  ∧ (∀ r p t, (r, p) ≠ (roomId, participantId) →
              is_typing r t after p ↔ is_typing r t s p)
  ∧ tbl_wf (nextId (core after)) (typingStatus after)
  ∧ typing_unique after.
Proof.
  intros Hwf Hu after. subst after. unfold outcomeS, storeS.
  rewrite setTypingStatus_run.
  assert (Hkeys : ∀ r p id (t' : Table TypingStatus),
            filter (λ t, ts_participantId (fields t) = p ∧ ts_roomId (fields t) = r)
                   (tbl_patch id (set_updatedAt now) t')
            = tbl_patch id (set_updatedAt now)
                (filter (λ t, ts_participantId (fields t) = p ∧ ts_roomId (fields t) = r) t')).
  { intros r p id t'.
    pose proof (filter_tbl_patch (λ a, ts_participantId a = p ∧ ts_roomId a = r) id
                  (set_updatedAt now) t') as H.
    cbn beta in H. by rewrite H. }
  destruct (head (typing_of roomId participantId s)) as [e|] eqn:Hhead.
  - assert (Hone : typing_of roomId participantId s = [e])
      by (by apply length_le_1_head).
    assert (He : e ∈ typing_of roomId participantId s) by (rewrite Hone; left).
    apply typing_of_elem_of in He as (Hein & Her & Hep).
    rewrite (tbl_wf_get _ _ _ Hwf Hein).
    assert (Hsame : ∀ d, d ∈ typingStatus s → ts_roomId (fields d) = roomId →
                         ts_participantId (fields d) = participantId → d = e).
    { intros d Hd Hr Hp.
      assert (Hd' : d ∈ typing_of roomId participantId s) by (by apply typing_of_elem_of).
      rewrite Hone in Hd'. by apply list_elem_of_singleton in Hd'. }
    assert (Hother : ∀ d r p, d ∈ typingStatus s → ts_roomId (fields d) = r →
                              ts_participantId (fields d) = p →
                              (r, p) ≠ (roomId, participantId) → _id d ≠ _id e).
    { intros d r p Hd Hr Hp Hne Hid.
      assert (d = e) as -> by (by eapply tbl_wf_inj). apply Hne. congruence. }
    destruct isTyping; cbn [fst snd]; (split; [done|]); (split; [|split; [|split]]).
    + intros t. rewrite is_typing_iff. cbn [typingStatus]. split.
      * intros (d' & Hd' & Hr & Hp & Hup). split; [done|].
        apply (tbl_patch_rows _ _ _ _ _ Hwf Hein) in Hd' as [[Hd' Hid] | ->].
        -- by rewrite (Hsame d' Hd' Hr Hp) in Hid.
        -- cbn in Hup. lia.
      * intros [_ Hup]. exists (mkDoc (_id e) (set_updatedAt now (fields e))).
        split; [|by cbn]. apply (tbl_patch_rows _ _ _ _ _ Hwf Hein). by right.
    + intros r p t Hne. rewrite !is_typing_iff. cbn [typingStatus]. split.
      * intros (d' & Hd' & Hr & Hp & Hup).
        apply (tbl_patch_rows _ _ _ _ _ Hwf Hein) in Hd' as [[Hd' Hid] | ->].
        -- by exists d'.
        -- exfalso. apply Hne. cbn in Hr, Hp. congruence.
      * intros (d & Hd & Hr & Hp & Hup). exists d. split; [|done].
        apply (tbl_patch_rows _ _ _ _ _ Hwf Hein). left. split; [done|]. by eapply Hother.
    + by apply tbl_wf_patch.
    + intros r p. unfold typing_of. cbn [typingStatus]. rewrite Hkeys, tbl_patch_length.
      apply Hu.
    + intros t. rewrite is_typing_iff. cbn [typingStatus]. split; [|by intros [? _]].
      intros (d' & Hd' & Hr & Hp & Hup).
      apply tbl_delete_rows in Hd' as [Hd' Hid].
      by rewrite (Hsame d' Hd' Hr Hp) in Hid.
    + intros r p t Hne. rewrite !is_typing_iff. cbn [typingStatus]. split.
      * intros (d' & Hd' & Hr & Hp & Hup).
        apply tbl_delete_rows in Hd' as [Hd' Hid]. by exists d'.
      * intros (d & Hd & Hr & Hp & Hup). exists d. split; [|done].
        apply tbl_delete_rows. split; [done|]. by eapply Hother.
    + by apply tbl_wf_delete.
    + intros r p. unfold typing_of. cbn [typingStatus].
      etrans; [apply filter_tbl_delete_length|]. apply Hu.
  - assert (Hnil : typing_of roomId participantId s = []) by (by apply head_None).
    assert (Hnone : ∀ d, d ∈ typingStatus s → ts_roomId (fields d) = roomId →
                         ts_participantId (fields d) = participantId → False).
    { intros d Hd Hr Hp.
      assert (Hd' : d ∈ typing_of roomId participantId s) by (by apply typing_of_elem_of).
      rewrite Hnil in Hd'. by apply elem_of_nil in Hd'. }
    destruct isTyping; cbn [fst snd]; (split; [done|]); (split; [|split; [|split]]).
    + intros t. rewrite is_typing_iff. cbn [typingStatus]. split.
      * intros (d' & Hd' & Hr & Hp & Hup). split; [done|].
        apply tbl_insert_rows in Hd' as [Hd' | ->].
        -- by destruct (Hnone d' Hd' Hr Hp).
        -- cbn in Hup. lia.
      * intros [_ Hup]. eexists. split; [apply tbl_insert_rows; by right|]. by cbn.
    + intros r p t Hne. rewrite !is_typing_iff. cbn [typingStatus]. split.
      * intros (d' & Hd' & Hr & Hp & Hup).
        apply tbl_insert_rows in Hd' as [Hd' | ->]; [by exists d'|].
        exfalso. apply Hne. cbn in Hr, Hp. congruence.
      * intros (d & Hd & Hr & Hp & Hup). exists d. split; [|done].
        apply tbl_insert_rows. by left.
    + cbn [core typingStatus tick nextId]. by apply tbl_wf_insert.
    + intros r p. unfold typing_of, tbl_insert. cbn [typingStatus].
      rewrite filter_app, length_app, filter_cons, filter_nil. cbn [fields ts_roomId ts_participantId].
      destruct (decide (participantId = p ∧ roomId = r)) as [[<- <-]|]; cbn [length].
      * fold (typing_of roomId participantId s). rewrite Hnil. cbn. lia.
      * specialize (Hu r p). unfold typing_of in Hu. lia.
    + intros t. rewrite is_typing_iff. split; [|by intros [? _]].
      intros (d' & Hd' & Hr & Hp & Hup). by destruct (Hnone d' Hd' Hr Hp).
    + done.
    + done.
    + done.
Qed.

Lemma typing_window_witness :
  is_typing 0%nat 3010 (storeS (Presence.setTypingStatus 0%nat "ann" true 10) empty_store)
            "ann".
Proof.
  assert (Hwf : tbl_wf (nextId (core empty_store)) (typingStatus empty_store)).
  { split; [apply NoDup_nil_2|]. intros d Hd. by apply elem_of_nil in Hd. }
  assert (Hu : typing_unique empty_store) by (intros r p; cbn; lia).
  apply (proj1 (proj2 (typing_window empty_store 0%nat "ann" true 10 Hwf Hu))).
  split; [reflexivity|lia].
Defined.

(** ** [sendMessage] *)

Lemma trimStart_spec (s : list Z) :
  ∃ pre, s = pre ++ Messages.trimStart s
         ∧ Forall (λ c, Messages.is_white_space c = true) pre
         ∧ ∀ c, head (Messages.trimStart s) = Some c → Messages.is_white_space c = false.
Proof.
  induction s as [|c s (pre & Hs & Hpre & Hhead)].
  - exists []. by repeat split.
  - cbn [Messages.trimStart]. destruct (Messages.is_white_space c) eqn:Hc.
    + exists (c :: pre). split; [cbn; by rewrite <- Hs|]. split; [by apply Forall_cons|done].
    + exists []. split; [done|]. split; [done|]. intros c' [= <-]. done.
Qed.

Lemma trimStart_fixed (s : list Z) :
  (∀ c, head s = Some c → Messages.is_white_space c = false) → Messages.trimStart s = s.
Proof. destruct s as [|c s]; [done|]. intros H. cbn. by rewrite (H c eq_refl). Qed.

Lemma trimStart_blank (s : list Z) :
  Forall (λ c, Messages.is_white_space c = true) s → Messages.trimStart s = [].
Proof. induction 1 as [|c s Hc _ IH]; [done|]. cbn. by rewrite Hc. Qed.

Lemma trim_spec (s : list Z) :
  (∃ pre post, s = pre ++ Messages.trim s ++ post
               ∧ Forall (λ c, Messages.is_white_space c = true) pre
               ∧ Forall (λ c, Messages.is_white_space c = true) post)
  ∧ (∀ c, head (Messages.trim s) = Some c → Messages.is_white_space c = false)
  ∧ (∀ c, last (Messages.trim s) = Some c → Messages.is_white_space c = false).
Proof.
  unfold Messages.trim.
  destruct (trimStart_spec s) as (pre & Hs & Hpre & Hhead).
  destruct (trimStart_spec (reverse (Messages.trimStart s))) as (post & Hr & Hpost & Hlast).
  set (u := Messages.trimStart s) in *.
  set (w := Messages.trimStart (reverse u)) in *.
  assert (Hu : u = reverse w ++ reverse post).
  { rewrite <- reverse_app, <- Hr. by rewrite reverse_involutive. }
  split; [|split].
  - exists pre, (reverse post). split; [by rewrite <- Hu|]. split; [done|].
    by apply Forall_reverse.
  - intros c Hc. apply Hhead. rewrite Hu.
    destruct (reverse w); [done|]. done.
  - intros c Hc. apply Hlast. by rewrite last_reverse in Hc.
Qed.

Lemma trim_blank (s : list Z) :
  Messages.trim s = [] ↔ Forall (λ c, Messages.is_white_space c = true) s.
Proof.
  split.
  - intros Hnil. destruct (trim_spec s) as ((pre & post & Hs & Hpre & Hpost) & _).
    rewrite Hs, Hnil. apply Forall_app. done.
  - intros H. unfold Messages.trim. by rewrite (trimStart_blank s H).
Qed.

Lemma trim_fixed (t : list Z) :
  (∀ c, head t = Some c → Messages.is_white_space c = false) →
  (∀ c, last t = Some c → Messages.is_white_space c = false) →
  Messages.trim t = t.
Proof.
  intros Hh Hl. unfold Messages.trim. rewrite (trimStart_fixed t Hh).
  rewrite trimStart_fixed; [apply reverse_involutive|].
  intros c Hc. apply Hl. by rewrite <- head_reverse.
Qed.

(** X17: [sendMessage] judges the text with the white space at both ends
    removed ([text] is that trimmed text between two runs of white space).
    A text of white space only is refused with "Message cannot be empty", a
    trimmed text of more than 500 code units with "Message too long (max 500
    characters)", and neither writes; any other text is stored trimmed, in
    one new message with a fresh id that is returned, and the stored text
    is not empty, has at most 500 code units, no white space at either end
    and would be stored unchanged if sent again. *)
Theorem sendMessage_validates (s : Store) (roomId : Id) (participantId : string)
    (text : list Z) (now : Z) :
  let t := Messages.trim text in
  let blank := Forall (λ c, Messages.is_white_space c = true) text in
  (∃ pre post, text = pre ++ t ++ post
               ∧ Forall (λ c, Messages.is_white_space c = true) pre
               ∧ Forall (λ c, Messages.is_white_space c = true) post)
  ∧ (blank →
     Messages.sendMessage roomId participantId text now s
     = (Throw "Message cannot be empty", s))
  ∧ (¬ blank → (500 < length t)%nat →
     Messages.sendMessage roomId participantId text now s
     = (Throw "Message too long (max 500 characters)", s))
  ∧ (¬ blank → (length t ≤ 500)%nat →
     Messages.sendMessage roomId participantId text now s
     = (Return (nextId (core s)),
        mkStore (tick (core s)) (roomMovies s)
                (messages s ++ [mkDoc (nextId (core s))
                                      (mkMessage roomId participantId t now)])
                (messageReactions s) (typingStatus s) (voteReactions s))
     ∧ stored_text t ∧ Messages.trim t = t).
Proof.
  intros t blank. subst t blank.
  destruct (trim_spec text) as (Hparts & Hhead & Hlast).
  split; [done|]. unfold Messages.sendMessage. cbn zeta.
  split; [|split].
  - intros Hb. apply trim_blank in Hb. by rewrite decide_True.
  - intros Hb Hlong. rewrite <- trim_blank in Hb.
    by rewrite decide_False, decide_True.
  - intros Hb Hshort. rewrite <- trim_blank in Hb.
    rewrite decide_False, decide_False by (done || lia).
    split; [done|]. split; [done|]. by apply trim_fixed.
Qed.

(** ** [getMessages] and [getRecentMessages] *)

(** X18: [getMessages] and [getRecentMessages] write nothing.
    [getMessages] returns the messages of the room, each once, ordered by
    [createdAt]; [getRecentMessages] returns the last [limit] of them (all
    of them when there are fewer), [limit] being [50] when it is not given,
    in the same order. *)
Theorem getRecentMessages_suffix (s : Store) (roomId : Id) (limit : option nat) :
  ∃ all,
    Messages.getMessages roomId s = (Return all, s)
    ∧ all ≡ₚ filter (λ m, m_roomId (fields m) = roomId) (messages s)
    ∧ StronglySorted (λ a b, m_createdAt (fields a) ≤ m_createdAt (fields b)) all
    ∧ Messages.getRecentMessages roomId limit s
      = (Return (drop (length all - default 50%nat limit) all), s)
    ∧ (Messages.getRecentMessages roomId (Some (length all)) s = (Return all, s))
    ∧ (∀ recent, outcomeS (Messages.getRecentMessages roomId limit) s = Return recent →
                 length recent = (length all `min` default 50%nat limit)%nat).
Proof.
  eexists. split; [reflexivity|].
  set (all := Array_sort _ _).
  assert (Hrecent : ∀ lim, Messages.getRecentMessages roomId lim s
                      = (Return (drop (length all - default 50%nat lim) all), s)).
  { intros lim. unfold Messages.getRecentMessages. run_mutation.
    fold all. by rewrite take_reverse, reverse_involutive. }
  split; [apply Array_sort_perm|]. split; [|split; [|split]].
  - apply Array_sort_sorted.
    + intros x y. lia.
    + intros x y. lia.
    + intros x y z. lia.
  - apply Hrecent.
  - rewrite Hrecent. cbn [default]. by rewrite Nat.sub_diag.
  - intros recent. unfold outcomeS. rewrite Hrecent. cbn [fst]. intros [= <-].
    rewrite length_drop. lia.
Qed.

Lemma insert_by_last {A} (cmp : A → A → Z) (y x : A) (l : list A) :
  cmp y x ≤ 0 → insert_by cmp y (l ++ [x]) = insert_by cmp y l ++ [x].
Proof.
  intros Hle. induction l as [|z l IH]; cbn.
  - by rewrite decide_True.
  - destruct (decide (cmp y z ≤ 0)); [done|]. by rewrite IH.
Qed.

Lemma Array_sort_last {A} (cmp : A → A → Z) (x : A) (l : list A) :
  (∀ y, y ∈ l → cmp y x ≤ 0) → Array_sort cmp (l ++ [x]) = Array_sort cmp l ++ [x].
Proof.
  induction l as [|y l IH]; intros H; [done|].
  change (insert_by cmp y (Array_sort cmp (l ++ [x]))
          = insert_by cmp y (Array_sort cmp l) ++ [x]).
  rewrite IH by (intros z Hz; apply H; by right).
  apply insert_by_last. apply H. left.
Qed.

(** X19: when a text that [sendMessage] accepts is sent at a time no
    earlier than the [createdAt] of the messages the room already has, the
    new message comes last in [getMessages] of the room, after the messages
    listed before in their order, and last in [getRecentMessages] for any
    positive limit; the messages of other rooms are listed as before. *)
Theorem sendMessage_then_getMessages (s : Store) (roomId : Id) (participantId : string)
    (text : list Z) (now : Z) (id : Id) :
  outcomeS (Messages.sendMessage roomId participantId text now) s = Return id →
  (∀ m, m ∈ messages s → m_roomId (fields m) = roomId → m_createdAt (fields m) ≤ now) →
  let after := storeS (Messages.sendMessage roomId participantId text now) s in
  let sent := mkDoc id (mkMessage roomId participantId (Messages.trim text) now) in
  id = nextId (core s)
  ∧ (∃ before,
       outcomeS (Messages.getMessages roomId) s = Return before
       ∧ outcomeS (Messages.getMessages roomId) after = Return (before ++ [sent]))
  ∧ (∀ limit recent,
       limit ≠ Some 0%nat →
       outcomeS (Messages.getRecentMessages roomId limit) after = Return recent →
       last recent = Some sent)
  ∧ (∀ roomId', roomId' ≠ roomId →
       outcomeS (Messages.getMessages roomId') after
       = outcomeS (Messages.getMessages roomId') s).
Proof.
  intros Hret Hclock after sent. subst after sent.
  unfold outcomeS, storeS in *. revert Hret.
  unfold Messages.sendMessage. cbn zeta.
  destruct (decide (Messages.trim text = [])); [done|].
  destruct (decide (500 < length (Messages.trim text))%nat); [done|].
  run_mutation. intros [= <-]. split; [done|].
  set (sent := mkDoc (nextId (core s))
                     (mkMessage roomId participantId (Messages.trim text) now)).
  assert (Hall : Array_sort (λ a b, m_createdAt (fields a) - m_createdAt (fields b))
                   (filter (λ m, m_roomId (fields m) = roomId)
                           (tbl_insert (nextId (core s))
                              (mkMessage roomId participantId (Messages.trim text) now)
                              (messages s)))
                 = Array_sort (λ a b, m_createdAt (fields a) - m_createdAt (fields b))
                     (filter (λ m, m_roomId (fields m) = roomId) (messages s))
                   ++ [sent]).
  { unfold tbl_insert. rewrite filter_app, filter_cons_True, filter_nil by done.
    apply Array_sort_last. intros y Hy. apply list_elem_of_filter in Hy as [Hr Hy].
    specialize (Hclock y Hy Hr). cbn. lia. }
  split; [|split].
  - eexists. split; [reflexivity|]. unfold Messages.getMessages. run_mutation.
    cbn [messages]. by rewrite Hall.
  - intros limit recent Hlim. unfold Messages.getRecentMessages. run_mutation.
    cbn [messages]. rewrite Hall. intros [= <-].
    rewrite take_reverse, reverse_involutive.
    destruct (default 50%nat limit) as [|k] eqn:Hk; [by destruct limit as [[|?]|]|].
    rewrite length_app. cbn [length].
    rewrite drop_app_le by lia. apply last_snoc.
  - intros r Hne. unfold Messages.getMessages. run_mutation. cbn [messages].
    unfold tbl_insert. rewrite filter_app, filter_cons_False, filter_nil by (cbn; congruence).
    by rewrite app_nil_r.
Qed.

Lemma sendMessage_then_getMessages_witness :
  outcomeS (Messages.getMessages 0%nat)
           (storeS (Messages.sendMessage 0%nat "ann" [32; 104; 105; 32] 4) empty_store)
  = Return [mkDoc 0%nat (mkMessage 0%nat "ann" [104; 105] 4)].
Proof.
  destruct (sendMessage_then_getMessages empty_store 0%nat "ann" [32; 104; 105; 32] 4 0%nat
              eq_refl)
    as (_ & (before & Hb & Ha) & _).
  - intros m Hm. by apply elem_of_nil in Hm.
  - rewrite Ha. injection Hb as <-. reflexivity.
Defined.

(** ** Reactions *)

Lemma reactions_of_alt messageId participantId emoji0 s :
  reactions_of messageId participantId emoji0 s
  = filter (λ r, mr_emoji (fields r) = emoji0
                 ∧ mr_participantId (fields r) = participantId
                   ∧ mr_messageId (fields r) = messageId)
           (messageReactions s).
Proof. unfold reactions_of. apply list_filter_filter. Qed.

Lemma reactions_of_elem_of messageId participantId emoji0 s d :
  d ∈ reactions_of messageId participantId emoji0 s
  ↔ d ∈ messageReactions s ∧ mr_messageId (fields d) = messageId
    ∧ mr_participantId (fields d) = participantId ∧ mr_emoji (fields d) = emoji0.
Proof. rewrite reactions_of_alt, list_elem_of_filter. tauto. Qed.

Lemma filter_tbl_delete_same {A} (P : Doc A → Prop) `{!∀ d, Decision (P d)}
    (id : Id) (t : Table A) :
  (∀ d, d ∈ t → P d → _id d ≠ id) → filter P (tbl_delete id t) = filter P t.
Proof.
  intros Hkeep. unfold tbl_delete. induction t as [|d t IH]; [done|].
  assert (IH' : filter P (filter (λ d, _id d ≠ id) t) = filter P t).
  { apply IH. intros d' Hd'. apply Hkeep. by right. }
  rewrite (filter_cons (λ d, _id d ≠ id)).
  destruct (decide (_id d ≠ id)) as [Hne|Heq].
  - rewrite !filter_cons. by rewrite IH'.
  - rewrite filter_cons_False; [done|]. intros HP. apply Heq. apply Hkeep; [left|done].
Qed.

Lemma addReaction_run messageId participantId emoji0 now s :
  Messages.addReaction messageId participantId emoji0 now s
  = match head (reactions_of messageId participantId emoji0 s) with
    | Some e =>
        match tbl_get (_id e) (messageReactions s) with
        | Some _ =>
            (Return (Messages.mkReactionResult true),
             mkStore (core s) (roomMovies s) (messages s)
                     (tbl_delete (_id e) (messageReactions s)) (typingStatus s) (voteReactions s))
        | None => (Throw "Delete on nonexistent document", s)
        end
    | None =>
        (Return (Messages.mkReactionResult false),
         mkStore (tick (core s)) (roomMovies s) (messages s)
                 (tbl_insert (nextId (core s))
                    (mkMessageReaction messageId participantId emoji0 now)
                    (messageReactions s))
                 (typingStatus s) (voteReactions s))
    end.
Proof.
  unfold Messages.addReaction, reactions_of. run_mutation.
  destruct (head _) as [e|]; [|done]. by destruct (tbl_get _ _).
Qed.

(** X20: [addReaction] toggles.  In a store where reactions have unique
    ids and nobody has reacted twice to a message with the same emoji, it
    reports [removed] exactly when the participant had reacted to the
    message with the emoji; afterwards the participant has reacted exactly
    when they had not before; the reactions of other participants, to other
    messages or with other emoji stay as they were; reacting and then
    reacting again leaves the table of reactions as it was; and the two
    conditions on the store are kept. *)
Theorem addReaction_toggle (s : Store) (messageId : Id) (participantId emoji0 : string)
    (now now' : Z) :
  tbl_wf (nextId (core s)) (messageReactions s) → reactions_unique s →
  let after := storeS (Messages.addReaction messageId participantId emoji0 now) s in
  outcomeS (Messages.addReaction messageId participantId emoji0 now) s
    = Return (Messages.mkReactionResult
                (bool_decide (reactions_of messageId participantId emoji0 s ≠ [])))
  ∧ (reactions_of messageId participantId emoji0 after ≠ []
     ↔ reactions_of messageId participantId emoji0 s = [])
  ∧ (∀ m p e, (m, p, e) ≠ (messageId, participantId, emoji0) →
              reactions_of m p e after = reactions_of m p e s)
  ∧ (reactions_of messageId participantId emoji0 s = [] →
     outcomeS (Messages.addReaction messageId participantId emoji0 now') after
       = Return (Messages.mkReactionResult true)
     ∧ messageReactions
         (storeS (Messages.addReaction messageId participantId emoji0 now') after)
       = messageReactions s)
  ∧ tbl_wf (nextId (core after)) (messageReactions after)
  ∧ reactions_unique after.
Proof.
  intros Hwf Hu after. subst after. unfold outcomeS, storeS.
  rewrite addReaction_run.
  destruct (head (reactions_of messageId participantId emoji0 s)) as [e|] eqn:Hhead.
  - assert (Hone : reactions_of messageId participantId emoji0 s = [e])
      by (by apply length_le_1_head).
    assert (He : e ∈ reactions_of messageId participantId emoji0 s) by (rewrite Hone; left).
    apply reactions_of_elem_of in He as (Hein & Hem & Hep & Hee).
    rewrite (tbl_wf_get _ _ _ Hwf Hein). cbn [fst snd].
    assert (Hgone : reactions_of messageId participantId emoji0
                      (mkStore (core s) (roomMovies s) (messages s)
                               (tbl_delete (_id e) (messageReactions s)) (typingStatus s) (voteReactions s))
                    = []).
    { apply elem_of_nil_inv. intros d Hd.
      apply reactions_of_elem_of in Hd as (Hd & Hdm & Hdp & Hde). cbn in Hd.
      apply tbl_delete_rows in Hd as [Hd Hid].
      assert (Hd' : d ∈ reactions_of messageId participantId emoji0 s)
        by (by apply reactions_of_elem_of).
      rewrite Hone in Hd'. apply list_elem_of_singleton in Hd'. by subst d. }
    rewrite Hone, Hgone. split; [done|]. split; [done|]. split; [|split; [done|split]].
    + intros m p e' Hne. rewrite !reactions_of_alt. cbn [messageReactions].
      apply filter_tbl_delete_same. intros d Hd (Hde & Hdp & Hdm) Hid.
      assert (d = e) as -> by (by eapply tbl_wf_inj). apply Hne. congruence.
    + by apply tbl_wf_delete.
    + intros m p e'. rewrite reactions_of_alt. cbn [messageReactions].
      etrans; [apply filter_tbl_delete_length|]. rewrite <- reactions_of_alt. apply Hu.
  - assert (Hnil : reactions_of messageId participantId emoji0 s = [])
      by (by apply head_None).
    cbn [fst snd]. rewrite Hnil.
    set (new := mkMessageReaction messageId participantId emoji0 now).
    assert (Hafter : ∀ m p e',
              reactions_of m p e'
                (mkStore (tick (core s)) (roomMovies s) (messages s)
                         (tbl_insert (nextId (core s)) new (messageReactions s))
                         (typingStatus s) (voteReactions s))
              = reactions_of m p e' s
                ++ (if decide ((m, p, e') = (messageId, participantId, emoji0))
                    then [mkDoc (nextId (core s)) new] else [])).
    { intros m p e'. rewrite !reactions_of_alt. cbn [messageReactions]. unfold tbl_insert.
      rewrite filter_app. f_equal. rewrite filter_cons, filter_nil.
      cbn [fields new mr_emoji mr_participantId mr_messageId].
      destruct (decide ((m, p, e') = (messageId, participantId, emoji0))) as [[= -> -> ->]|Hne].
      - by rewrite decide_True.
      - rewrite decide_False; [done|]. intros (? & ? & ?). apply Hne. congruence. }
    split; [done|]. split; [|split; [|split; [|split]]].
    + rewrite Hafter, Hnil, decide_True by done. done.
    + intros m p e' Hne. rewrite Hafter, decide_False by done. apply app_nil_r.
    + intros _. rewrite addReaction_run, Hafter, Hnil, decide_True by done.
      cbn [app head _id messageReactions].
      rewrite (tbl_get_insert_new _ _ _ Hwf). cbn [fst snd messageReactions].
      split; [done|]. by apply (tbl_delete_insert _ _ _ Hwf).
    + cbn [core messageReactions tick nextId]. by apply tbl_wf_insert.
    + intros m p e'. rewrite Hafter.
      destruct (decide ((m, p, e') = (messageId, participantId, emoji0))) as [[= -> -> ->]|Hne].
      * rewrite Hnil. cbn. lia.
      * rewrite app_nil_r. apply Hu.
Qed.

Lemma addReaction_toggle_witness :
  messageReactions
    (storeS (Messages.addReaction 6%nat "ann" "+1" 8)
            (storeS (Messages.addReaction 6%nat "ann" "+1" 5) empty_store))
  = [].
Proof.
  assert (Hwf : tbl_wf (nextId (core empty_store)) (messageReactions empty_store)).
  { split; [apply NoDup_nil_2|]. intros d Hd. by apply elem_of_nil in Hd. }
  assert (Hu : reactions_unique empty_store) by (intros m p e; cbn; lia).
  destruct (addReaction_toggle empty_store 6%nat "ann" "+1" 5 8 Hwf Hu)
    as (_ & _ & _ & H & _).
  exact (proj2 (H eq_refl)).
Defined.

(** ** [getMessageReactions] *)

Lemma first_seen_snoc ks k :
  first_seen (ks ++ [k])
  = if decide (k ∈ first_seen ks) then first_seen ks else first_seen ks ++ [k].
Proof. unfold first_seen. by rewrite foldl_app. Qed.

Lemma first_seen_elem_of ks k : k ∈ first_seen ks ↔ k ∈ ks.
Proof.
  induction ks as [|k' ks IH] using rev_ind; [done|].
  rewrite first_seen_snoc, elem_of_app, list_elem_of_singleton.
  destruct (decide (k' ∈ first_seen ks)) as [Hin|Hnin].
  - rewrite IH. split; [tauto|]. intros [?| ->]; [done|]. by apply IH.
  - rewrite elem_of_app, list_elem_of_singleton, IH. done.
Qed.

Lemma first_seen_NoDup ks : NoDup (first_seen ks).
Proof.
  induction ks as [|k ks IH] using rev_ind; [apply NoDup_nil_2|].
  rewrite first_seen_snoc. destruct (decide (k ∈ first_seen ks)); [done|].
  apply NoDup_app. split; [done|]. split; [|apply NoDup_singleton].
  intros x Hx Hx'. apply list_elem_of_singleton in Hx'. by subst x.
Qed.

Lemma update_first_fmap (e : string) (f g : string → Messages.EmojiGroup)
    (h : Messages.EmojiGroup → Messages.EmojiGroup) (ks : list string) :
  NoDup ks → (∀ k, Messages.eg_emoji (g k) = k) →
  (∀ k, k ≠ e → f k = g k) → f e = h (g e) →
  Messages.update_first e h (g <$> ks) = f <$> ks.
Proof.
  intros Hnd Hg Hne He. induction ks as [|k ks IH]; [done|].
  apply NoDup_cons in Hnd as [Hk Hnd]. rewrite !fmap_cons.
  cbn [Messages.update_first]. rewrite Hg.
  destruct (decide (k = e)) as [->|Hke].
  - rewrite He. f_equal. apply list_fmap_ext. intros i k' Hin. symmetry. apply Hne.
    intros Heq. apply Hk. rewrite <- Heq. by eapply list_elem_of_lookup_2.
  - rewrite (Hne k Hke). f_equal. by apply IH.
Qed.

Lemma add_reaction_fold (rs : list (Doc MessageReaction)) :
  foldl (λ arr r, Messages.add_reaction_to r arr) [] rs = spec_groups rs.
Proof.
  induction rs as [|r rs IH] using rev_ind; [done|].
  rewrite foldl_app. cbn [foldl]. rewrite IH. clear IH.
  unfold Messages.add_reaction_to, spec_groups.
  rewrite (find_head_filter (λ g : Messages.EmojiGroup,
                               Messages.eg_emoji g = mr_emoji (fields r))).
  rewrite fmap_app. cbn [fmap list_fmap]. rewrite first_seen_snoc.
  set (seen := first_seen ((λ r0, mr_emoji (fields r0)) <$> rs)).
  set (g := λ e, let rs_e := filter (λ r0, mr_emoji (fields r0) = e) rs in
                 Messages.mkEmojiGroup e (length rs_e)
                   ((λ r0, mr_participantId (fields r0)) <$> rs_e)).
  set (f := λ e, let rs_e := filter (λ r0, mr_emoji (fields r0) = e) (rs ++ [r]) in
                 Messages.mkEmojiGroup e (length rs_e)
                   ((λ r0, mr_participantId (fields r0)) <$> rs_e)).
  assert (Hother : ∀ k, k ≠ mr_emoji (fields r) → f k = g k).
  { intros k Hk. subst f g. cbn beta zeta.
    rewrite filter_app, filter_cons_False, filter_nil by (cbn; congruence).
    by rewrite app_nil_r. }
  assert (Hhead : head (filter (λ x, Messages.eg_emoji x = mr_emoji (fields r)) (g <$> seen))
                  = if decide (mr_emoji (fields r) ∈ seen)
                    then Some (g (mr_emoji (fields r))) else None).
  { destruct (decide (mr_emoji (fields r) ∈ seen)) as [Hin|Hnin].
    - clearbody seen. revert Hin.
      induction seen as [|k seen IH]; intros Hin; [by apply elem_of_nil in Hin|].
      rewrite fmap_cons, filter_cons. cbn [g Messages.eg_emoji].
      destruct (decide (k = mr_emoji (fields r))) as [->|Hne]; [done|].
      apply IH. apply elem_of_cons in Hin as [?|?]; [congruence|done].
    - apply head_filter_None. intros x Hx Heq. apply Hnin.
      apply list_elem_of_fmap in Hx as (k & -> & Hk). by rewrite <- Heq. }
  rewrite Hhead. destruct (decide (mr_emoji (fields r) ∈ seen)) as [Hin|Hnin].
  - apply update_first_fmap; [apply first_seen_NoDup|done|done|].
    subst f g. cbn beta zeta.
    rewrite filter_app, filter_cons_True, filter_nil by done.
    rewrite length_app, fmap_app. cbn. f_equal. lia.
  - rewrite fmap_app. cbn [fmap list_fmap]. f_equal.
    + apply list_fmap_ext. intros i k Hk. symmetry. apply Hother.
      intros Heq. apply Hnin. rewrite <- Heq. by eapply list_elem_of_lookup_2.
    + subst f. cbn beta zeta. rewrite filter_app, filter_cons_True, filter_nil by done.
      assert (Hnone : filter (λ r0, mr_emoji (fields r0) = mr_emoji (fields r)) rs = []).
      { apply head_None, head_filter_None. intros r0 Hr0 Heq. apply Hnin.
        apply first_seen_elem_of. rewrite <- Heq.
        by apply (list_elem_of_fmap_2 (λ r1 : Doc MessageReaction, mr_emoji (fields r1))). }
      by rewrite Hnone.
Qed.

Lemma obj_get_tabulate {D} (f : Id → D) (ks : list Id) (m : Id) :
  obj_get m ((λ k, (k, f k)) <$> ks) = if decide (m ∈ ks) then Some (f m) else None.
Proof.
  unfold obj_get, Obj. induction ks as [|k ks IH]; [done|].
  rewrite (fmap_cons (λ k0, (k0, f k0))), filter_cons. cbn [fst].
  destruct (decide (k = m)) as [->|Hne].
  - rewrite decide_True by left. done.
  - rewrite IH. destruct (decide (m ∈ ks)) as [Hin|Hnin].
    + rewrite decide_True by (by right). done.
    + rewrite decide_False; [done|]. intros Hin. apply elem_of_cons in Hin as [?|?]; congruence.
Qed.

(** X21: [getMessageReactions] writes nothing and groups the reactions to
    the listed messages: a listed message with reactions has one entry per
    emoji used on it, in the order of first use, whose [users] are the
    participants who reacted with the emoji, in the order of their
    reactions, and whose [count] is their number (at least one); the
    counts of a message add up to its reactions; a message that is not
    listed or has no reaction has no key in the result. *)
Theorem getMessageReactions_groups (s : Store) (messageIds : list Id) :
  ∃ grouped,
    Messages.getMessageReactions messageIds s = (Return grouped, s)
    ∧ (∀ m, obj_get m grouped
            = if decide (m ∈ messageIds ∧ reactions_on m s ≠ [])
              then Some (spec_groups (reactions_on m s)) else None)
    ∧ (∀ m g, g ∈ spec_groups (reactions_on m s) →
         Messages.users g
         = (λ r, mr_participantId (fields r))
             <$> filter (λ r, mr_emoji (fields r) = Messages.eg_emoji g) (reactions_on m s)
         ∧ Messages.eg_count g = length (Messages.users g)
         ∧ (0 < Messages.eg_count g)%nat)
    ∧ (∀ m, NoDup (Messages.eg_emoji <$> spec_groups (reactions_on m s))
            ∧ sum_list (Messages.eg_count <$> spec_groups (reactions_on m s))
              = length (reactions_on m s)).
Proof.
  eexists. split; [reflexivity|]. split; [|split].
  - intros m.
    change (foldl Messages.reaction_step [] ?l)
      with (foldl (upsert_step (λ r : Doc MessageReaction, mr_messageId (fields r))
                               (λ _, []) Messages.add_reaction_to) [] l).
    rewrite group_fold, obj_get_tabulate.
    set (rs := filter (λ r, mr_messageId (fields r) ∈ messageIds) (messageReactions s)).
    assert (Hagg : m ∈ messageIds →
              filter (λ r, mr_messageId (fields r) = m) rs = reactions_on m s).
    { intros Hm. subst rs. unfold reactions_on. rewrite list_filter_filter.
      apply list_filter_iff. intros r. split; [tauto|]. intros ->. done. }
    destruct (decide (m ∈ messageIds ∧ reactions_on m s ≠ [])) as [[Hm Hne]|Hno].
    + rewrite decide_True.
      * unfold aggregate. rewrite (Hagg Hm). by rewrite add_reaction_fold.
      * apply keys_seen_elem_of.
        assert (Hex : ∃ r, r ∈ filter (λ r, mr_messageId (fields r) = m) rs).
        { rewrite (Hagg Hm). destruct (reactions_on m s) as [|r l]; [done|].
          exists r. left. }
        destruct Hex as [r Hr]. apply list_elem_of_filter in Hr as [<- Hr].
        by apply (list_elem_of_fmap_2 (λ r1 : Doc MessageReaction, mr_messageId (fields r1))).
    + rewrite decide_False; [done|]. intros Hin. apply Hno.
      apply (proj1 (keys_seen_elem_of _ _)) in Hin.
      apply list_elem_of_fmap in Hin as (r & -> & Hr). subst rs.
      apply list_elem_of_filter in Hr as [Hm Hr]. split; [done|].
      intros Hnil.
      assert (Hr' : r ∈ reactions_on (mr_messageId (fields r)) s)
        by (by apply list_elem_of_filter).
      rewrite Hnil in Hr'. by apply elem_of_nil in Hr'.
  - intros m g Hg. unfold spec_groups in Hg.
    apply list_elem_of_fmap in Hg as (e & -> & He). cbn.
    split; [done|]. split; [by rewrite length_fmap|].
    apply (proj1 (first_seen_elem_of _ _)) in He.
    apply list_elem_of_fmap in He as (r & -> & Hr).
    assert (Hr' : r ∈ filter (λ r0, mr_emoji (fields r0) = mr_emoji (fields r))
                             (reactions_on m s)) by (by apply list_elem_of_filter).
    destruct (filter _ (reactions_on m s)); [by apply elem_of_nil in Hr'|cbn; lia].
  - intros m. generalize (reactions_on m s). intros rs. unfold spec_groups. split.
    + rewrite <- list_fmap_compose. unfold compose. cbn.
      rewrite list_fmap_id. apply first_seen_NoDup.
    + rewrite <- list_fmap_compose. unfold compose. cbn.
      induction rs as [|r rs IH] using rev_ind; [done|].
      rewrite fmap_app. cbn [fmap list_fmap]. rewrite first_seen_snoc, length_app.
      cbn [length]. rewrite <- IH. clear IH.
      set (seen := first_seen ((λ r0, mr_emoji (fields r0)) <$> rs)).
      assert (Hsum : ∀ ks : list string, NoDup ks →
                sum_list ((λ e, length (filter (λ r0, mr_emoji (fields r0) = e) (rs ++ [r])))
                            <$> ks)
                = (sum_list ((λ e, length (filter (λ r0, mr_emoji (fields r0) = e) rs))
                               <$> ks)
                   + (if decide (mr_emoji (fields r) ∈ ks) then 1 else 0))%nat).
      { induction ks as [|k ks IHk]; intros Hnd; [done|].
        apply NoDup_cons in Hnd as [Hk Hnd]. rewrite !fmap_cons. cbn [sum_list sum_list_with].
        rewrite (IHk Hnd), filter_app, length_app, filter_cons, filter_nil. cbn [fields].
        destruct (decide (mr_emoji (fields r) = k)) as [<-|Hne].
        - rewrite (decide_False (P := _ ∈ ks)) by done. rewrite decide_True by left.
          cbn. lia.
        - destruct (decide (mr_emoji (fields r) ∈ ks)) as [Hin|Hnin].
          + rewrite (decide_True (P := _ ∈ k :: ks)) by (by right). cbn. lia.
          + rewrite (decide_False (P := _ ∈ k :: ks)); [cbn; lia|].
            intros Hin. apply elem_of_cons in Hin as [?|?]; congruence. }
      destruct (decide (mr_emoji (fields r) ∈ seen)) as [Hin|Hnin].
      * rewrite (Hsum seen (first_seen_NoDup _)). by rewrite decide_True.
      * rewrite (Hsum (seen ++ [mr_emoji (fields r)])).
        -- rewrite decide_True by (apply elem_of_app; right; left).
           rewrite fmap_app, sum_list_with_app. cbn [fmap list_fmap sum_list_with].
           assert (Hnone : filter (λ r0, mr_emoji (fields r0) = mr_emoji (fields r)) rs = []).
           { apply head_None, head_filter_None. intros r0 Hr0 Heq. apply Hnin.
             apply first_seen_elem_of. rewrite <- Heq.
        by apply (list_elem_of_fmap_2 (λ r1 : Doc MessageReaction, mr_emoji (fields r1))). }
           rewrite Hnone. cbn. lia.
        -- apply NoDup_app. split; [apply first_seen_NoDup|].
           split; [|apply NoDup_singleton].
           intros x Hx Hx'. apply list_elem_of_singleton in Hx'. by subst x.
Qed.

(** ** Vote reactions *)

Lemma tbl_wf_filter {A} (P : Doc A → Prop) `{!∀ d, Decision (P d)} (n : Id) (t : Table A) :
  tbl_wf n t → tbl_wf n (filter P t).
Proof.
  intros [Hnd Hlt]. split.
  - clear Hlt. induction t as [|d t IH]; [done|].
    rewrite fmap_cons in Hnd. apply NoDup_cons in Hnd as [Hnotin Hnd].
    rewrite filter_cons. destruct (decide (P d)); [|by apply IH].
    rewrite fmap_cons. apply NoDup_cons. split; [|by apply IH].
    intros Hin. apply Hnotin. apply list_elem_of_fmap in Hin as (d' & E & Hd').
    apply list_elem_of_filter in Hd' as [_ Hd']. rewrite E.
    by apply list_elem_of_fmap_2.
  - intros d Hd. apply list_elem_of_filter in Hd as [_ Hd]. by apply Hlt.
Qed.

Lemma filter_ext_in {A} (P Q : A → Prop) `{!∀ x, Decision (P x)} `{!∀ x, Decision (Q x)}
    (l : list A) :
  (∀ x, x ∈ l → P x ↔ Q x) → filter P l = filter Q l.
Proof.
  induction l as [|x l IH]; intros Hext; [done|].
  rewrite !filter_cons. rewrite IH by (intros y Hy; apply Hext; by right).
  destruct (decide (P x)) as [HP|HP], (decide (Q x)) as [HQ|HQ]; try done.
  - destruct HQ. apply Hext; [left|done].
  - destruct HP. apply Hext; [left|done].
Qed.

Lemma getRecentReactions_run (roomId : Id) (now : Z) (s : Store) :
  VoteReactions.getRecentReactions roomId now s
  = (Return ((λ r, VoteReactions.mkEnrichedReaction r
                     (VoteReactions.movieTitle_of
                        (tbl_get (vr_movieId (fields r)) (movies (core s)))))
               <$> filter (λ r, vr_createdAt (fields r) >= now - 5000)
                          (filter (λ r, vr_roomId (fields r) = roomId) (voteReactions s))),
     s).
Proof.
  unfold VoteReactions.getRecentReactions. cbn zeta.
  unfold filterS, voteReactions_by_room, bindS, retS. cbn beta iota.
  rewrite (mapMS_pure _ (λ r, VoteReactions.mkEnrichedReaction r
                                (VoteReactions.movieTitle_of
                                   (tbl_get (vr_movieId (fields r)) (movies (core s)))))).
  - done.
  - intros r. unfold lift, db_get_movie. cbn. by destruct s.
Qed.

Lemma delete_each_run (l : list (Doc VoteReaction)) (s : Store) :
  NoDup (_id <$> l) →
  (∀ r, r ∈ l → ∃ d, d ∈ voteReactions s ∧ _id d = _id r) →
  VoteReactions.delete_each l s
  = (Return (),
     mkStore (core s) (roomMovies s) (messages s) (messageReactions s) (typingStatus s)
             (filter (λ d, _id d ∉ _id <$> l) (voteReactions s))).
Proof.
  revert s. induction l as [|r l IH]; intros s Hnd Hex.
  - cbn. unfold retS. rewrite filter_all; [by destruct s|].
    intros d _. apply not_elem_of_nil.
  - rewrite fmap_cons in Hnd. apply NoDup_cons in Hnd as [Hr Hnd].
    cbn [VoteReactions.delete_each]. unfold bindS, delete_voteReaction.
    destruct (Hex r ltac:(left)) as (d0 & Hd0 & Hid0).
    destruct (tbl_get_elem_of _ _ Hd0) as [d1 Hd1]. rewrite Hid0 in Hd1. rewrite Hd1.
    rewrite IH; [|done|].
    + cbn [core roomMovies messages messageReactions typingStatus voteReactions].
      do 2 f_equal. unfold tbl_delete. rewrite list_filter_filter.
      apply list_filter_iff. intros d. rewrite fmap_cons, not_elem_of_cons. tauto.
    + intros r' Hr'. cbn [voteReactions].
      destruct (Hex r' ltac:(by right)) as (d & Hd & Hid). exists d. split; [|done].
      apply tbl_delete_rows. split; [done|]. rewrite Hid. intros Heq. apply Hr.
      rewrite <- Heq. by apply list_elem_of_fmap_2.
Qed.

Lemma cleanupOldReactions_run (now : Z) (s : Store) :
  tbl_wf (nextId (core s)) (voteReactions s) →
  VoteReactions.cleanupOldReactions now s
  = (Return (VoteReactions.mkCleanupResult
               (length (filter (λ r, vr_createdAt (fields r) < now - 5000)
                               (voteReactions s)))),
     mkStore (core s) (roomMovies s) (messages s) (messageReactions s) (typingStatus s)
             (filter (λ r, ¬ vr_createdAt (fields r) < now - 5000) (voteReactions s))).
Proof.
  intros Hwf. unfold VoteReactions.cleanupOldReactions. cbn zeta.
  unfold filterS, all_voteReactions, bindS at 1 2, retS at 1. cbn beta iota.
  unfold bindS. rewrite delete_each_run.
  - unfold retS. do 3 f_equal. apply filter_ext_in. intros d Hd. split.
    + intros Hnot Hold. apply Hnot.
      apply (list_elem_of_fmap_2 _id). by apply list_elem_of_filter.
    + intros Hnew Hin. apply list_elem_of_fmap in Hin as (d' & Heq & Hd').
      apply list_elem_of_filter in Hd' as [Hold Hd'].
      assert (d = d') as -> by (by eapply tbl_wf_inj). done.
  - by apply (tbl_wf_filter _ _ _ Hwf).
  - intros r Hr. apply list_elem_of_filter in Hr as [_ Hr]. by exists r.
Qed.

(** X26: [recordVoteReaction] appends a reaction and returns its fresh id,
    whether or not the participant reacted to the movie before;
    [getRecentReactions] of the room at time [t] then returns what it
    returned before, followed by the new reaction exactly when
    [t - 5000 ≤ now]; other rooms are unaffected.  [getRecentReactions]
    writes nothing and every entry's [movieTitle] is the title of the
    stored movie when that is not empty and "Unknown Movie" otherwise. *)
Theorem recordVoteReaction_then_recent (s : Store) (roomId movieId : Id)
    (participantId : string) (ty : VoteType) (now t : Z) :
  let after :=
    storeS (VoteReactions.recordVoteReaction roomId movieId participantId ty now) s in
  let new := mkDoc (nextId (core s)) (mkVoteReaction roomId movieId participantId ty now) in
  outcomeS (VoteReactions.recordVoteReaction roomId movieId participantId ty now) s
    = Return (nextId (core s))
  ∧ voteReactions after = voteReactions s ++ [new]
  ∧ (∃ before,
       VoteReactions.getRecentReactions roomId t s = (Return before, s)
       ∧ VoteReactions.getRecentReactions roomId t after
         = (Return (before
                    ++ if decide (t - 5000 ≤ now)
                       then [VoteReactions.mkEnrichedReaction new
                               (VoteReactions.movieTitle_of
                                  (tbl_get movieId (movies (core s))))]
                       else []),
            after))
  ∧ (∀ roomId', roomId' ≠ roomId →
       outcomeS (VoteReactions.getRecentReactions roomId' t) after
       = outcomeS (VoteReactions.getRecentReactions roomId' t) s)
  ∧ (∀ recent e,
       outcomeS (VoteReactions.getRecentReactions roomId t) after = Return recent →
       e ∈ recent →
       match tbl_get (vr_movieId (fields (VoteReactions.er_reaction e))) (movies (core s)) with
       | Some movie =>
           if decide (title (fields movie) = EmptyString)
           then VoteReactions.movieTitle e = "Unknown Movie"
           else VoteReactions.movieTitle e = title (fields movie)
       | None => VoteReactions.movieTitle e = "Unknown Movie"
       end).
Proof.
  intros after new. subst after.
  unfold VoteReactions.recordVoteReaction. run_mutation. fold new.
  split; [done|]. split; [done|]. split; [|split].
  - eexists. split; [apply getRecentReactions_run|].
    rewrite getRecentReactions_run. f_equal. f_equal.
    cbn [voteReactions core tick movies]. unfold tbl_insert.
    rewrite !filter_app, fmap_app. f_equal.
    rewrite (filter_cons_True (λ r, vr_roomId (fields r) = roomId)), filter_nil by done.
    rewrite filter_cons, filter_nil. cbn [new fields vr_createdAt vr_movieId].
    destruct (decide (t - 5000 ≤ now)).
    + by rewrite decide_True by lia.
    + by rewrite decide_False by lia.
  - intros r Hne. unfold outcomeS. rewrite !getRecentReactions_run. cbn [fst].
    cbn [voteReactions core tick movies]. unfold tbl_insert.
    rewrite filter_app, (filter_cons_False (λ r0, vr_roomId (fields r0) = r)), filter_nil
      by (cbn; congruence).
    by rewrite app_nil_r.
  - intros recent e. unfold outcomeS. rewrite getRecentReactions_run. cbn [fst].
    intros [= <-] He. apply list_elem_of_fmap in He as (r & -> & _).
    cbn [VoteReactions.er_reaction VoteReactions.movieTitle core tick movies].
    unfold VoteReactions.movieTitle_of.
    destruct (tbl_get _ _) as [m|]; [|done]. by destruct (decide _).
Qed.

(** X27: in a store where vote reactions have unique ids,
    [cleanupOldReactions] at time [now] deletes exactly the reactions
    created more than five seconds before [now], keeps the others in their
    order and returns the number deleted; it changes nothing that
    [getRecentReactions] reports at [now] or later; a second cleanup at the
    same time deletes nothing; and the other tables are untouched. *)
Theorem cleanupOldReactions_keeps_recent (s : Store) (now : Z) :
  tbl_wf (nextId (core s)) (voteReactions s) →
  let after := storeS (VoteReactions.cleanupOldReactions now) s in
  outcomeS (VoteReactions.cleanupOldReactions now) s
    = Return (VoteReactions.mkCleanupResult
                (length (filter (λ r, vr_createdAt (fields r) < now - 5000)
                                (voteReactions s))))
  ∧ voteReactions after
    = filter (λ r, now - 5000 ≤ vr_createdAt (fields r)) (voteReactions s)
  ∧ (∀ roomId t, now ≤ t →
       outcomeS (VoteReactions.getRecentReactions roomId t) after
       = outcomeS (VoteReactions.getRecentReactions roomId t) s)
  ∧ VoteReactions.cleanupOldReactions now after
    = (Return (VoteReactions.mkCleanupResult 0), after)
  ∧ core after = core s ∧ roomMovies after = roomMovies s ∧ messages after = messages s
  ∧ messageReactions after = messageReactions s ∧ typingStatus after = typingStatus s.
Proof.
  intros Hwf after. subst after. unfold outcomeS, storeS.
  rewrite (cleanupOldReactions_run now s Hwf). cbn [fst snd].
  assert (Hkeep : filter (λ r, ¬ vr_createdAt (fields r) < now - 5000) (voteReactions s)
                  = filter (λ r, now - 5000 ≤ vr_createdAt (fields r)) (voteReactions s)).
  { apply list_filter_iff. intros r. lia. }
  rewrite Hkeep. split; [done|]. split; [done|]. split; [|split; [|done]].
  - intros roomId t Ht. rewrite !getRecentReactions_run. cbn [fst core voteReactions].
    do 2 f_equal. rewrite !list_filter_filter. apply list_filter_iff. intros r. lia.
  - rewrite cleanupOldReactions_run by (by apply tbl_wf_filter).
    cbn [core roomMovies messages messageReactions typingStatus voteReactions].
    assert (Hnone : filter (λ r, vr_createdAt (fields r) < now - 5000)
                      (filter (λ r, now - 5000 ≤ vr_createdAt (fields r)) (voteReactions s))
                    = []).
    { apply elem_of_nil_inv. intros r Hr. apply list_elem_of_filter in Hr as [Hold Hr].
      apply list_elem_of_filter in Hr as [Hnew _]. lia. }
    rewrite Hnone. cbn [length]. do 2 f_equal.
    apply filter_all. intros r Hr. apply list_elem_of_filter in Hr as [Hnew _]. lia.
Qed.

Lemma cleanupOldReactions_keeps_recent_witness :
  voteReactions
    (storeS (VoteReactions.cleanupOldReactions 6000)
       (storeS (VoteReactions.recordVoteReaction 0%nat 2%nat "ann" like 7) empty_store))
  = [].
Proof.
  assert (Hwf : tbl_wf 1 [mkDoc 0%nat (mkVoteReaction 0%nat 2%nat "ann" like 7)]).
  { split; [apply NoDup_singleton|]. intros d Hd.
    apply list_elem_of_singleton in Hd as ->. cbn. lia. }
  exact (proj1 (proj2 (cleanupOldReactions_keeps_recent
                         (storeS (VoteReactions.recordVoteReaction 0%nat 2%nat "ann" like 7)
                                 empty_store) 6000 Hwf))).
Defined.

(** ** What the store keeps *)

Lemma db_wf_tick (db : Db) : db_wf db → db_wf (tick db).
Proof.
  intros (Hr & Hp & Hm & Hv & Href). unfold db_wf, tick.
  cbn [rooms roomParticipants movies votes nextId].
  split; [|split; [|split; [|split]]];
    try (apply (tbl_wf_mono (nextId db)); [lia|done]).
  intros p Hin. specialize (Href p Hin). lia.
Qed.

Lemma apply_effect_core (e : Effect) (db : Db) :
  movies (apply_effect e db) = movies db ∧ (nextId db ≤ nextId (apply_effect e db))%nat.
Proof. destruct e; cbn; split; (done || lia). Qed.

Ltac split_store_ok :=
  unfold store_ok, store_wf;
  cbn [core roomMovies messages messageReactions typingStatus
       voteReactions];
  split; [split; [|split; [|split; [|split; [|split]]]]
         |split; [|split; [|split; [|split; [|split]]]]].

Lemma exec_store_ok (c : Call) (now : Z) (s : Store) :
  store_ok s → store_ok (with_core (exec c now (core s)) s).
Proof.
  intros ((Hwf & Hrm & Hmsg & Hre & Hty & Hvr) & Hmem & Hvk & Htm & Htu & Hru & Htext).
  destruct (exec_effect c now (core s)) as (e & _ & Hok & Heq).
  destruct (apply_effect_core e (core s)) as [Hmov Hnext]. rewrite <- Heq in Hmov, Hnext.
  unfold with_core. split_store_ok; try done;
    try (by apply (tbl_wf_mono (nextId (core s)))).
  - by apply exec_wf.
  - rewrite Heq. by apply effect_members_unique.
  - rewrite Heq. by apply effect_vote_keys.
  - intros t. rewrite Hmov. apply Htm.
Qed.

Lemma addMovie_store_ok (t : Z) (title0 : string) (s : Store) :
  store_ok s → store_ok (storeS (lift (VotingMovies.addMovie t title0)) s).
Proof.
  intros ((Hwf & Hrm & Hmsg & Hre & Hty & Hvr) & Hmem & Hvk & Htm & Htu & Hru & Htext).
  unfold storeS, lift. cbn [snd]. rewrite addMovie_run.
  destruct (head (filter (λ m, tmdbId (fields m) = t) (movies (core s)))) as [m|] eqn:Hhead;
    cbn [snd]; [by destruct s|].
  destruct Hwf as (Hr & Hp & Hm & Hv & Href).
  assert (Hnil : filter (λ m, tmdbId (fields m) = t) (movies (core s)) = [])
    by (by apply head_None).
  split_store_ok; cbn [nextId]; try done;
    try (apply (tbl_wf_mono (nextId (core s))); [lia|done]).
  - unfold db_wf. cbn [rooms roomParticipants movies votes nextId].
    split; [|split; [|split; [|split]]];
      try (apply (tbl_wf_mono (nextId (core s))); [lia|done]).
    + by apply tbl_wf_insert.
    + intros p Hin. specialize (Href p Hin). lia.
  - intros t2. cbn [movies]. unfold tbl_insert.
    rewrite filter_app, length_app, filter_cons, filter_nil.
    cbn [fields tmdbId]. destruct (decide (t = t2)) as [<-|]; cbn [length].
    + rewrite Hnil. cbn. lia.
    + specialize (Htm t2). lia.
Qed.

Lemma insert_roomMovie_store_ok (x : RoomMovie) (s : Store) :
  store_ok s → store_ok (snd (insert_roomMovie x s)).
Proof.
  intros ((Hwf & Hrm & Hmsg & Hre & Hty & Hvr) & Hmem & Hvk & Htm & Htu & Hru & Htext).
  unfold insert_roomMovie. cbn [snd].
  split_store_ok; cbn [tick nextId]; try done;
    try (apply (tbl_wf_mono (nextId (core s))); [lia|done]).
  - by apply db_wf_tick.
  - by apply tbl_wf_insert.
Qed.

Lemma link_from_store_ok (roomId : Id) (movieIds : list Id) (i : nat) (s : Store) :
  store_ok s → store_ok (snd (VotingMovies.link_from roomId i movieIds s)).
Proof.
  revert i s. induction movieIds as [|m l IH]; intros i s Hok; [done|].
  cbn [VotingMovies.link_from]. unfold bindS.
  pose proof (insert_roomMovie_store_ok (mkRoomMovie roomId m i) s Hok) as Hok'.
  unfold insert_roomMovie in *. cbn [snd] in *. by apply IH.
Qed.

Lemma sendMessage_store_ok roomId participantId text now (s : Store) :
  store_ok s → store_ok (storeS (Messages.sendMessage roomId participantId text now) s).
Proof.
  intros ((Hwf & Hrm & Hmsg & Hre & Hty & Hvr) & Hmem & Hvk & Htm & Htu & Hru & Htext).
  unfold storeS, Messages.sendMessage. cbn zeta.
  destruct (decide (Messages.trim text = [])); [done|].
  destruct (decide (500 < length (Messages.trim text))%nat); [done|].
  run_mutation.
  split_store_ok; cbn [tick nextId]; try done;
    try (apply (tbl_wf_mono (nextId (core s))); [lia|done]).
  - by apply db_wf_tick.
  - by apply tbl_wf_insert.
  - unfold tbl_insert. apply Forall_app. split; [done|]. apply Forall_singleton.
    cbn [fields message]. destruct (trim_spec text) as (_ & Hhead & Hlast).
    split; [done|]. split; [lia|done].
Qed.

Lemma addReaction_store_ok messageId participantId emoji0 now (s : Store) :
  store_ok s →
  store_ok (storeS (Messages.addReaction messageId participantId emoji0 now) s).
Proof.
  intros ((Hwf & Hrm & Hmsg & Hre & Hty & Hvr) & Hmem & Hvk & Htm & Htu & Hru & Htext).
  unfold storeS. rewrite addReaction_run.
  destruct (head (reactions_of messageId participantId emoji0 s)) as [e|] eqn:Hhead.
  - destruct (tbl_get (_id e) (messageReactions s)); cbn [snd]; [|done].
    split_store_ok; try done; [by apply tbl_wf_delete|].
    intros m p e'. rewrite reactions_of_alt. cbn [messageReactions].
    etrans; [apply filter_tbl_delete_length|]. rewrite <- reactions_of_alt. apply Hru.
  - assert (Hnil : reactions_of messageId participantId emoji0 s = [])
      by (by apply head_None).
    cbn [snd]. split_store_ok; cbn [tick nextId]; try done;
      try (apply (tbl_wf_mono (nextId (core s))); [lia|done]).
    + by apply db_wf_tick.
    + by apply tbl_wf_insert.
    + intros m p e'. rewrite reactions_of_alt. cbn [messageReactions]. unfold tbl_insert.
      rewrite filter_app, length_app, filter_cons, filter_nil.
      cbn [fields mr_emoji mr_participantId mr_messageId].
      destruct (decide (emoji0 = e' ∧ participantId = p ∧ messageId = m))
        as [(<- & <- & <-)|]; cbn [length].
      * rewrite <- reactions_of_alt, Hnil. cbn. lia.
      * rewrite <- reactions_of_alt. specialize (Hru m p e'). lia.
Qed.

Lemma setTypingStatus_store_ok roomId participantId isTyping now (s : Store) :
  store_ok s →
  store_ok (storeS (Presence.setTypingStatus roomId participantId isTyping now) s).
Proof.
  intros ((Hwf & Hrm & Hmsg & Hre & Hty & Hvr) & Hmem & Hvk & Htm & Htu & Hru & Htext).
  unfold storeS. rewrite setTypingStatus_run.
  destruct (head (typing_of roomId participantId s)) as [e|] eqn:Hhead.
  - destruct isTyping; destruct (tbl_get (_id e) (typingStatus s)); cbn [snd];
      try done; split_store_ok; try done.
    + by apply tbl_wf_patch.
    + intros r p. unfold typing_of. cbn [typingStatus].
      pose proof (filter_tbl_patch (λ a, ts_participantId a = p ∧ ts_roomId a = r) (_id e)
                    (set_updatedAt now) (typingStatus s)) as H.
      cbn beta in H. rewrite H by done. rewrite tbl_patch_length. apply Htu.
    + by apply tbl_wf_delete.
    + intros r p. unfold typing_of. cbn [typingStatus].
      etrans; [apply filter_tbl_delete_length|]. apply Htu.
  - assert (Hnil : typing_of roomId participantId s = []) by (by apply head_None).
    destruct isTyping; cbn [snd]; [|done].
    split_store_ok; cbn [tick nextId]; try done;
      try (apply (tbl_wf_mono (nextId (core s))); [lia|done]).
    + by apply db_wf_tick.
    + by apply tbl_wf_insert.
    + intros r p. unfold typing_of, tbl_insert. cbn [typingStatus].
      rewrite filter_app, length_app, filter_cons, filter_nil.
      cbn [fields ts_roomId ts_participantId].
      destruct (decide (participantId = p ∧ roomId = r)) as [[<- <-]|]; cbn [length].
      * fold (typing_of roomId participantId s). rewrite Hnil. cbn. lia.
      * specialize (Htu r p). unfold typing_of in Htu. lia.
Qed.

Lemma recordVoteReaction_store_ok roomId movieId participantId ty now (s : Store) :
  store_ok s →
  store_ok (storeS (VoteReactions.recordVoteReaction roomId movieId participantId ty now) s).
Proof.
  intros ((Hwf & Hrm & Hmsg & Hre & Hty & Hvr) & Hmem & Hvk & Htm & Htu & Hru & Htext).
  unfold VoteReactions.recordVoteReaction. run_mutation.
  split_store_ok; cbn [tick nextId]; try done;
    try (apply (tbl_wf_mono (nextId (core s))); [lia|done]).
  - by apply db_wf_tick.
  - by apply tbl_wf_insert.
Qed.

Lemma cleanupOldReactions_store_ok now (s : Store) :
  store_ok s → store_ok (storeS (VoteReactions.cleanupOldReactions now) s).
Proof.
  intros ((Hwf & Hrm & Hmsg & Hre & Hty & Hvr) & Hmem & Hvk & Htm & Htu & Hru & Htext).
  unfold storeS. rewrite (cleanupOldReactions_run now s Hvr). cbn [snd].
  split_store_ok; try done. by apply tbl_wf_filter.
Qed.

Lemma execS_store_ok (o : Op) (now : Z) (s : Store) :
  store_ok s → store_ok (execS o now s).
Proof.
  intros Hok.
  destruct o as [c|t title0|room ids|room p text|mid p e|room p b|room m p ty|];
    cbn [execS].
  - by apply exec_store_ok.
  - by apply addMovie_store_ok.
  - unfold storeS, VotingMovies.linkMoviesToRoom, bindS, retS.
    pose proof (link_from_store_ok room ids 0 s Hok) as H.
    by destruct (VotingMovies.link_from room 0 ids s) as [[[]|e] s'].
  - by apply sendMessage_store_ok.
  - by apply addReaction_store_ok.
  - by apply setTypingStatus_store_ok.
  - by apply recordVoteReaction_store_ok.
  - by apply cleanupOldReactions_store_ok.
Qed.

Lemma empty_store_ok : store_ok empty_store.
Proof.
  split_store_ok; try (split; [apply NoDup_nil_2|]; intros d Hd; by apply elem_of_nil in Hd).
  - apply empty_db_wf.
  - intros r p. cbn. lia.
  - intros r m p. cbn. lia.
  - intros t. cbn. lia.
  - intros r p. cbn. lia.
  - intros m p e. cbn. lia.
  - done.
Qed.

(** X22: the store stays sound under every sequence of mutations, those of
    the voting core included: document ids stay unique in each table and
    below the counter, no participant has two membership rows in a room,
    two vote rows on a movie, two typing rows in a room or two reactions to
    a message with one emoji, no two movies share a TMDB id, and every
    stored message text is non-empty, at most 500 code units long and free
    of white space at both ends. *)
Theorem store_ok_kept (trace : list (Op * Z)) (s : Store) :
  store_ok s → store_ok (runS trace s).
Proof.
  revert s. induction trace as [|[o now] trace IH]; intros s Hok; [done|].
  cbn. apply IH. by apply execS_store_ok.
Qed.

Lemma store_ok_kept_witness : store_ok (runS evening_trace empty_store).
Proof. apply (store_ok_kept evening_trace empty_store). apply empty_store_ok. Defined.

(** * Joining by code *)

(** X23: [joinRoomByCode] is [joinRoom] on the room [getRoomByCode] finds.
    In a store with unique ids, when no room has the code it throws "Room
    not found" and writes nothing; otherwise it leaves the store that
    [joinRoom] leaves for the id of the room found, throws what [joinRoom]
    throws, and returns the id and the code of the room where [joinRoom]
    returns. *)
Theorem joinRoomByCode_is_joinRoom (db : Db) (roomCode0 participantId : string) (now : Z) :
  db_wf db →
  (outcome (Rooms.getRoomByCode roomCode0 now) db = Return None →
   Rooms.joinRoomByCode roomCode0 participantId now db = (Throw "Room not found", db))
  ∧ (∀ room, outcome (Rooms.getRoomByCode roomCode0 now) db = Return (Some room) →
       store (Rooms.joinRoomByCode roomCode0 participantId now) db
       = store (Rooms.joinRoom (_id room) participantId now) db
       ∧ outcome (Rooms.joinRoomByCode roomCode0 participantId now) db
         = match outcome (Rooms.joinRoom (_id room) participantId now) db with
           | Return _ => Return (mkRoomRef (_id room) roomCode0)
           | Throw e => Throw e
           end).
Proof.
  intros (Hwfr & _). unfold Rooms.getRoomByCode, Rooms.joinRoomByCode, Rooms.joinRoom.
  run_handler.
  destruct (head (filter (λ r, code (fields r) = roomCode0) (rooms db))) as [r|] eqn:Hhead;
    cbn [fst snd].
  - split; [done|]. intros room [= <-].
    pose proof (head_filter_Some _ _ _ Hhead) as [Hin Hcode].
    assert (Hid : _id (Rooms.with_computed_status now r) = _id r).
    { unfold Rooms.with_computed_status. by destruct (decide _). }
    rewrite Hid, (tbl_wf_get _ _ _ Hwfr Hin). cbn [fst snd].
    destruct (decide (status (fields r) ≠ active)); [done|].
    destruct (decide (expiresAt (fields r) < now)).
    + by destruct (tbl_get (_id r) (rooms db)).
    + destruct (head (filter _ (filter _ (roomParticipants db)))); [done|].
      destruct (decide (_ >= _)); [done|]. cbn. by rewrite Hcode.
  - split; [done|]. intros room [=].
Qed.

Lemma joinRoomByCode_is_joinRoom_witness :
  store (Rooms.joinRoomByCode "4821" "bob" 5) expired_db
  = store (Rooms.joinRoom 0%nat "bob" 5) expired_db.
Proof.
  assert (Hwf : db_wf expired_db).
  { unfold db_wf, tbl_wf, expired_db. cbn.
    repeat split; try apply NoDup_nil_2; try (apply NoDup_singleton);
      intros d Hd; repeat (apply elem_of_cons in Hd as [->|Hd]; [cbn; lia|]);
      by apply elem_of_nil in Hd. }
  destruct (joinRoomByCode_is_joinRoom expired_db "4821" "bob" 5 Hwf) as [_ H].
  exact (proj1 (H (mkDoc 0%nat (mkRoom "4821" "comedy" "ann" active 86400000 10 0))
                  eq_refl)).
Defined.

(** X24: the code [createRoom] returns leads back to the room.  In a store
    with unique ids, after [createRoom] has returned a room with room for
    two, a participant other than the host who calls [joinRoomByCode] with
    the returned code before the room expires gets the same id and code
    back, the room's participants are then the host and the guest, in this
    order, and the table of rooms is untouched by the join. *)
Theorem create_then_join_by_code
    (db : Db) (category hostId guest : string) (maxP : option Z) (rnd : nat → Q)
    (now now' : Z) (ref : RoomRef) :
  db_wf db →
  outcome (Rooms.createRoom category hostId maxP rnd now) db = Return ref →
  guest ≠ hostId → now' ≤ now + 86400000 → 2 ≤ default 10 maxP →
  let created := store (Rooms.createRoom category hostId maxP rnd now) db in
  let joined := store (Rooms.joinRoomByCode (roomCode ref) guest now') created in
  outcome (Rooms.joinRoomByCode (roomCode ref) guest now') created = Return ref
  ∧ outcome (Rooms.getParticipants (roomId ref)) joined
    = Return [mkDoc (S (roomId ref)) (mkRoomParticipant (roomId ref) hostId now None);
              mkDoc (S (S (roomId ref))) (mkRoomParticipant (roomId ref) guest now' None)]
  ∧ rooms joined = rooms created.
Proof.
  intros (Hr & _ & _ & _ & Href) Hres Hguest Hlive Hcap.
  apply createRoom_success in Hres as (Hfree & Hid & Hstore).
  cbn zeta. rewrite Hstore. clear Hstore. destruct ref as [rid rcode].
  cbn [roomId roomCode] in *. subst rid.
  set (room := mkDoc (nextId db) (new_room rcode category hostId maxP now)).
  set (host := mkDoc (S (nextId db)) (mkRoomParticipant (nextId db) hostId now None)).
  assert (Hnone : filter (λ q : Doc RoomParticipant, rp_roomId (fields q) = nextId db)
                         (roomParticipants db) = []).
  { apply head_None, head_filter_None. intros q Hq Heq. specialize (Href q Hq). lia. }
  assert (Hrun : Rooms.joinRoomByCode rcode guest now'
                   (apply_effect (Created (new_room rcode category hostId maxP now)
                                          hostId now) db)
                 = (Return (mkRoomRef (nextId db) rcode),
                    mkDb (rooms db ++ [room])
                         ((roomParticipants db ++ [host])
                          ++ [mkDoc (S (S (nextId db)))
                                    (mkRoomParticipant (nextId db) guest now' None)])
                         (movies db) (votes db) (S (S (S (nextId db)))))).
  { unfold Rooms.joinRoomByCode. run_handler. cbn [apply_effect].
    unfold add_participant, add_room, tbl_insert.
    cbn [rooms roomParticipants movies votes nextId].
    rewrite filter_app. apply code_taken, head_None in Hfree. rewrite Hfree.
    rewrite filter_cons_True, filter_nil by done. cbn [app head fst snd].
    cbn [fields new_room status expiresAt maxParticipants _id code].
    rewrite decide_False by (intros H; by apply H).
    rewrite decide_False by lia.
    cbn [rooms roomParticipants movies votes nextId].
    rewrite filter_app, Hnone, filter_cons_True, filter_nil by done. cbn [app].
    rewrite filter_cons_False, filter_nil by (cbn; congruence).
    cbn [head rooms roomParticipants movies votes nextId].
    rewrite filter_app, Hnone, filter_cons_True, filter_nil by done. cbn [app length].
    rewrite decide_False by lia. done. }
  unfold outcome, store. rewrite Hrun. cbn [fst snd]. split; [done|]. split; [|done].
  unfold Rooms.getParticipants. run_handler. cbn [roomParticipants].
  rewrite !filter_app, Hnone, !filter_cons_True, !filter_nil by done. done.
Qed.

Lemma create_then_join_by_code_witness :
  outcome (Rooms.joinRoomByCode "5500" "bob" 10)
          (store (Rooms.createRoom "comedy" "ann" None half 0) empty_db)
  = Return (mkRoomRef 0%nat "5500").
Proof.
  refine (proj1 (create_then_join_by_code empty_db "comedy" "ann" "bob" None half 0 10
                   (mkRoomRef 0%nat "5500") empty_db_wf eq_refl _ _ _)).
  - done.
  - lia.
  - cbn. lia.
Defined.

(** * After leaving *)

Lemma leaveRoom_returns roomId participantId db res :
  outcome (Rooms.leaveRoom roomId participantId) db = Return res →
  ∃ p, membership roomId participantId db = Some p
       ∧ roomParticipants (store (Rooms.leaveRoom roomId participantId) db)
         = tbl_delete (_id p) (roomParticipants db)
       ∧ votes (store (Rooms.leaveRoom roomId participantId) db) = votes db
       ∧ movies (store (Rooms.leaveRoom roomId participantId) db) = movies db.
Proof.
  unfold Rooms.leaveRoom, membership. run_handler.
  destruct (head (filter _ (filter _ (roomParticipants db)))) as [p|] eqn:Hmem; [|done].
  cbn. destruct (tbl_get (_id p) (roomParticipants db)); [|done]. cbn.
  destruct (decide (length _ = 0%nat)); cbn.
  - destruct (tbl_get roomId (rooms db)); [|done]. cbn. intros _. by exists p.
  - intros _. by exists p.
Qed.

(** X25: a participant who has left is out, and their votes stay.  When no
    participant has two membership rows in a room and [leaveRoom] has
    returned, the participant is no longer a member of the room; the vote
    rows are all still there; every later [submitVote] of the participant in
    the room throws and stores no vote; both [markVotingComplete],
    [resetVotingCompletion] and a second [leaveRoom] throw their
    not-a-participant errors and write nothing. *)
Theorem departed_cannot_act (db : Db) (roomId : Id) (participantId : string)
    (res : Success) :
  members_unique db →
  outcome (Rooms.leaveRoom roomId participantId) db = Return res →
  let after := store (Rooms.leaveRoom roomId participantId) db in
  membership roomId participantId after = None
  ∧ votes after = votes db
  ∧ (∀ movieId ty now,
       (∃ e, outcome (Votes.submitVote roomId movieId participantId ty now) after = Throw e)
       ∧ votes (store (Votes.submitVote roomId movieId participantId ty now) after)
         = votes db)
  ∧ (∀ now, Rooms.markVotingComplete roomId participantId now after
            = (Throw "Not a participant in this room", after))
  ∧ (∀ now, Votes.markVotingComplete roomId participantId now after
            = (Throw "Participant not found in room", after))
  ∧ Votes.resetVotingCompletion roomId participantId after
    = (Throw "Participant not found in room", after)
  ∧ Rooms.leaveRoom roomId participantId after
    = (Throw "Not a participant in this room", after).
Proof.
  intros Hu Hret after.
  destruct (leaveRoom_returns _ _ _ _ Hret) as (p & Hmem & Hparts & Hvotes & Hmovies).
  fold after in Hparts, Hvotes, Hmovies.
  assert (Hone : members_of roomId participantId db = [p]).
  { apply length_le_1_head; [apply Hu|]. exact Hmem. }
  assert (Hout : head (filter (λ q, rp_participantId (fields q) = participantId)
                         (filter (λ q, rp_roomId (fields q) = roomId)
                                 (roomParticipants after))) = None).
  { apply head_None, elem_of_nil_inv. intros d Hd.
    apply list_elem_of_filter in Hd as [Hdp Hd].
    apply list_elem_of_filter in Hd as [Hdr Hd].
    rewrite Hparts in Hd. apply tbl_delete_rows in Hd as [Hd Hid].
    assert (Hd' : d ∈ members_of roomId participantId db).
    { apply list_elem_of_filter. split; [done|]. by apply list_elem_of_filter. }
    rewrite Hone in Hd'. apply list_elem_of_singleton in Hd'. by subst d. }
  clearbody after.
  split; [exact Hout|]. split; [done|]. split; [|split; [|split; [|split]]].
  - intros movieId ty now. unfold Votes.submitVote. run_handler.
    destruct (tbl_get roomId (rooms after)) as [room|]; cbn [fst snd]; [|by split; [eexists|]].
    destruct (decide (status (fields room) ≠ active)); cbn [fst snd]; [by split; [eexists|]|].
    destruct (decide (expiresAt (fields room) < now)); cbn [fst snd].
    + destruct (tbl_get (_id room) (rooms after)); cbn [fst snd votes];
        by split; [eexists|].
    + rewrite Hout. cbn [fst snd]. by split; [eexists|].
  - intros now. unfold Rooms.markVotingComplete. run_handler. by rewrite Hout.
  - intros now. unfold Votes.markVotingComplete. run_handler. by rewrite Hout.
  - unfold Votes.resetVotingCompletion. run_handler. by rewrite Hout.
  - unfold Rooms.leaveRoom. run_handler. by rewrite Hout.
Qed.

Lemma departed_cannot_act_witness :
  ∃ e, outcome (Votes.submitVote 1%nat 0%nat "cy" dislike 7)
               (store (Rooms.leaveRoom 1%nat "cy") two_of_three_db)
       = Throw e.
Proof.
  assert (Hu : members_unique two_of_three_db).
  { apply run_members_unique.
    - unfold db_wf, tbl_wf, cinema_db. cbn.
      repeat split; try apply NoDup_nil_2; try (apply NoDup_singleton);
        intros d Hd; repeat (apply elem_of_cons in Hd as [->|Hd]; [cbn; lia|]);
        by apply elem_of_nil in Hd.
    - intros r p. cbn. lia. }
  exact (proj1 (proj1 (proj2 (proj2
           (departed_cannot_act two_of_three_db 1%nat "cy" (mkSuccess true) Hu eq_refl)))
           0%nat dislike 7)).
Defined.
